(** * Tracee event pipeline: buffer decoder and derivation engine

    A shallow embedding of
      - [pkg/bufferdecoder] (the [EbpfDecoder] cursor over a raw byte
        buffer, its fixed-width primitives, [DecodeContext],
        [DecodeArguments], [DecodeUint64Array], [MoveCursor]);
      - [pkg/events/derive] ([Table.Register], [Table.DeriveEvent],
        [deriveMultipleEvents], [buildDerivedEvent]);
      - the variable-width and composite decoders of [pkg/bufferdecoder]
        ([DecodeBytes], [ReadBytesLen], [DecodeInt32Array],
        [DecodeSlimCred], [DecodeChunkMeta] and the small metadata
        records);
      - [pkg/events] ([GetArg], [SetArgValue], [NormalizeTimeArgs]);
      - [pkg/cmd/cobra] ([ContainerConfig.flags], [SocketConfig.flags],
        [CapabilitiesConfig.flags]).

    Conventions of the embedding.
      - Go's [int] is a 64-bit two's-complement integer, modelled as [Z];
        the wrap-around is written out where an addition takes an
        arbitrary caller-supplied operand ([MoveCursor]).
      - A run-time panic (slice or index out of range) is an explicit
        outcome, so that "does not panic" is a statement about the model.
      - A method that mutates its receiver or writes through a pointer
        returns the receiver and the pointee after the call, also when it
        returns an error. *)

From Stdlib Require Import ZArith Lia List.
From Stdlib Require Import Init.Byte.
From stdpp Require Import base option list gmap strings.

Local Open Scope Z_scope.

(** ** Go values shared by both packages *)

(** [interface{}] values carried by arguments: a closed sum over the value
    kinds the pipeline produces, with the nil interface as its own case. *)
Inductive any : Type :=
| any_nil
| any_int (n : Z)
| any_uint64 (n : Z)
| any_string (s : string)
| any_bytes (b : list byte).

Definition is_nil (v : any) : bool :=
  match v with any_nil => true | _ => false end.

(** [events.ID] is an [int32]. *)
Definition ID : Type := Z.

(** Errors, kept structured: every [errfmt.Errorf] / constructor call of
    the source is one constructor carrying the formatted operands. *)
Inductive error : Type :=
| errors_New (msg : string)
  (* ErrBufferTooShort{expected, got, typeName} *)
| ErrBufferTooShort (expected got : Z) (typeName : string)
  (* "context buffer size [%d] smaller than %d" *)
| ErrContextSize (got size : Z)
  (* "error reading ulong array number of elements: %v" *)
| ErrArrayCount (cause : error)
  (* "can't read element %d uint64 from buffer: %s" *)
| ErrArrayElement (i : Z) (cause : error)
  (* "failed to read argument %d of event %s: %v" (logged only) *)
| ErrReadArgument (i : Z) (evtName : string) (cause : error)
| ErrDerive (id : ID) (cause : error)
| ErrUnexpectedArgCount (name : string) (expected given : Z)
| ErrAlreadyRegistered (deriveFrom deriveTo : ID).

(** [len(s)] as a Go [int]. *)
Definition len {A : Type} (s : list A) : Z := Z.of_nat (length s).

(** Conversions between fixed-width integer types. *)
Definition to_signed (w : Z) (x : Z) : Z :=
  if x <? 2 ^ (w - 1) then x else x - 2 ^ w.

Definition int8 (x : Z) : Z := to_signed 8 x.
Definition int16 (x : Z) : Z := to_signed 16 x.
Definition int32 (x : Z) : Z := to_signed 32 x.
Definition int64 (x : Z) : Z := to_signed 64 x.

(** Addition on [int]: two's-complement wrap-around at 64 bits. *)
Definition wrap_int (z : Z) : Z := (z + 2 ^ 63) mod 2 ^ 64 - 2 ^ 63.
Definition int_add (a b : Z) : Z := wrap_int (a + b).

Definition min_int : Z := - 2 ^ 63.
Definition max_int : Z := 2 ^ 63 - 1.

(** Conversion [int -> int32] (as in [events.ID(event.EventID)]). *)
Definition int_to_int32 (z : Z) : Z := (z + 2 ^ 31) mod 2 ^ 32 - 2 ^ 31.

(** ** Byte slices *)

Definition u8 (b : byte) : Z := Z.of_N (Byte.to_N b).

(** [s[lo:]], [s[lo:hi]] and [s[i]]; [None] is the run-time panic.  Every
    slice here is taken of the decoder's whole buffer, whose capacity is
    its length. *)
Definition slice_from {A : Type} (s : list A) (lo : Z) : option (list A) :=
  if (0 <=? lo) && (lo <=? len s) then Some (drop (Z.to_nat lo) s) else None.

Definition slice {A : Type} (s : list A) (lo hi : Z) : option (list A) :=
  if (0 <=? lo) && (lo <=? hi) && (hi <=? len s)
  then Some (take (Z.to_nat (hi - lo)) (drop (Z.to_nat lo) s))
  else None.

Definition index {A : Type} (s : list A) (i : Z) : option A :=
  if 0 <=? i then s !! Z.to_nat i else None.

(** The builtin [copy(dst, src)]: the first [min(len dst, len src)]
    elements of [dst] are overwritten. *)
Definition copy {A : Type} (dst src : list A) : list A :=
  take (length dst) src ++ drop (length src) dst.

(** ** encoding/binary *)
Module binary.

Definition LittleEndian_Uint16 (b : list byte) : option Z :=
  match b with
  | b0 :: b1 :: _ => Some (Z.lor (u8 b0) (Z.shiftl (u8 b1) 8))
  | _ => None
  end.

Definition BigEndian_Uint16 (b : list byte) : option Z :=
  match b with
  | b0 :: b1 :: _ => Some (Z.lor (u8 b1) (Z.shiftl (u8 b0) 8))
  | _ => None
  end.

Definition LittleEndian_Uint32 (b : list byte) : option Z :=
  match b with
  | b0 :: b1 :: b2 :: b3 :: _ =>
      Some (Z.lor (Z.lor (Z.lor (u8 b0) (Z.shiftl (u8 b1) 8))
                         (Z.shiftl (u8 b2) 16))
                  (Z.shiftl (u8 b3) 24))
  | _ => None
  end.

Definition BigEndian_Uint32 (b : list byte) : option Z :=
  match b with
  | b0 :: b1 :: b2 :: b3 :: _ =>
      Some (Z.lor (Z.lor (Z.lor (u8 b3) (Z.shiftl (u8 b2) 8))
                         (Z.shiftl (u8 b1) 16))
                  (Z.shiftl (u8 b0) 24))
  | _ => None
  end.

Definition LittleEndian_Uint64 (b : list byte) : option Z :=
  match b with
  | b0 :: b1 :: b2 :: b3 :: b4 :: b5 :: b6 :: b7 :: _ =>
      Some (Z.lor (Z.lor (Z.lor (Z.lor (Z.lor (Z.lor (Z.lor
              (u8 b0)
              (Z.shiftl (u8 b1) 8))
              (Z.shiftl (u8 b2) 16))
              (Z.shiftl (u8 b3) 24))
              (Z.shiftl (u8 b4) 32))
              (Z.shiftl (u8 b5) 40))
              (Z.shiftl (u8 b6) 48))
              (Z.shiftl (u8 b7) 56))
  | _ => None
  end.

End binary.

(** ** Positional reading of a byte sequence (specification side)

  [le_value bs] is the number whose base-256 digits, least significant
  first, are [bs]; [be_value] reads them most significant first.
  [bytes_at buf off w] are the [w] bytes of [buf] from offset [off]. *)
Fixpoint le_value (bs : list byte) : Z :=
match bs with
| [] => 0
| b :: rest => u8 b + 256 * le_value rest
end.

Definition be_value (bs : list byte) : Z := le_value (rev bs).

Definition bytes_at (buf : list byte) (off : Z) (w : nat) : list byte :=
take w (drop (Z.to_nat off) buf).

(** Outcome of a call: it returns (with or without an error) leaving a
  state behind, or it panics. *)
Inductive outcome (S : Type) : Type :=
| Return (err : option error) (s : S)
| Panicked.
Arguments Return {S} err s.
Arguments Panicked {S}.

Notation "'let!' x := e 'in' k" :=
(match e with Some x => k | None => Panicked end)
(at level 10, x pattern, e at level 100, k at level 200, only parsing).

(** ** package trace / events: arguments and schema fields

    The declarations of [trace.ArgMeta], [trace.Argument] and
    [events.DataField] live outside the files at hand; the fields below
    are the ones the decoder, the derivation engine and their tests use. *)
Module trace.

Record ArgMeta : Type := {
  Name : string;
  Type_ : string;
}.

(** [Argument] embeds [ArgMeta]. *)
Record Argument : Type := {
  Argument_ArgMeta : ArgMeta;
  Value : any;
}.

(** The zero [Argument]: what [make([]trace.Argument, n)] is filled with. *)
Definition zeroArgument : Argument :=
  {| Argument_ArgMeta := {| Name := ""; Type_ := "" |}; Value := any_nil |}.

End trace.

Module events.

Record DataField : Type := {
  DataField_ArgMeta : trace.ArgMeta;
  Zero : any;
}.

End events.

(** ** package bufferdecoder *)
Module bufferdecoder.

Definition presentorFunc : Type := any -> any * option error.
Definition TypeDecoder : Type := list (gmap string presentorFunc).

Record EbpfDecoder : Type := {
  buffer : list byte;
  cursor : Z;
  typeDecoder : TypeDecoder;
}.

Definition set_cursor (decoder : EbpfDecoder) (c : Z) : EbpfDecoder :=
  {| buffer := buffer decoder; cursor := c;
     typeDecoder := typeDecoder decoder |}.

Definition New (rawBuffer : list byte) (td : TypeDecoder) : EbpfDecoder :=
  {| buffer := rawBuffer; cursor := 0; typeDecoder := td |}.

Definition SetBuffer (decoder : EbpfDecoder) (newBuffer : list byte)
  : EbpfDecoder :=
  {| buffer := newBuffer; cursor := 0; typeDecoder := typeDecoder decoder |}.

Definition BuffLen (decoder : EbpfDecoder) : Z := len (buffer decoder).
Definition BytesRead (decoder : EbpfDecoder) : Z := cursor decoder.

(** [got] is [len(decoder.buffer[decoder.cursor:])], itself a slice
    expression. *)
Definition makeBufferTooShortError (decoder : EbpfDecoder)
    (typeName : string) (expected : Z) : option error :=
  rest ← slice_from (buffer decoder) (cursor decoder);
  Some (ErrBufferTooShort expected (len rest) typeName).

(** The receiver is updated in place and the new position returned. *)
Definition MoveCursor (decoder : EbpfDecoder) (n : Z) : EbpfDecoder * Z :=
  if len (buffer decoder) <? int_add (cursor decoder) n
  then (decoder, cursor decoder)
  else
    let decoder' := set_cursor decoder (int_add (cursor decoder) n) in
    (decoder', cursor decoder').

(** *** Fixed-width primitives

    Each takes the receiver and the current content of [*msg], and
    leaves both behind.  After the bounds check has passed,
    [cursor + readAmount <= len(buffer)], so the cursor update cannot
    wrap. *)

Definition DecodeUint8 (decoder : EbpfDecoder) (msg : Z)
  : outcome (EbpfDecoder * Z) :=
  let readAmount := 1 in
  let offset := cursor decoder in
  let! rest := slice_from (buffer decoder) offset in
  if len rest <? readAmount then
    let! e := makeBufferTooShortError decoder "uint8" readAmount in
    Return (Some e) (decoder, msg)
  else
    let! b := index (buffer decoder) (cursor decoder) in
    Return None (set_cursor decoder (cursor decoder + readAmount), u8 b).

Definition DecodeInt8 (decoder : EbpfDecoder) (msg : Z)
  : outcome (EbpfDecoder * Z) :=
  let readAmount := 1 in
  let offset := cursor decoder in
  let! rest := slice_from (buffer decoder) offset in
  if len rest <? readAmount then
    let! e := makeBufferTooShortError decoder "int8" readAmount in
    Return (Some e) (decoder, msg)
  else
    let! b := index (buffer decoder) offset in
    Return None
      (set_cursor decoder (cursor decoder + readAmount), int8 (u8 b)).

Definition DecodeUint16 (decoder : EbpfDecoder) (msg : Z)
  : outcome (EbpfDecoder * Z) :=
  let readAmount := 2 in
  let offset := cursor decoder in
  let! rest := slice_from (buffer decoder) offset in
  if len rest <? readAmount then
    let! e := makeBufferTooShortError decoder "uint16" readAmount in
    Return (Some e) (decoder, msg)
  else
    let! v := slice (buffer decoder) offset (offset + readAmount)
              ≫= binary.LittleEndian_Uint16 in
    Return None (set_cursor decoder (cursor decoder + readAmount), v).

Definition DecodeUint16BigEndian (decoder : EbpfDecoder) (msg : Z)
  : outcome (EbpfDecoder * Z) :=
  let readAmount := 2 in
  let offset := cursor decoder in
  let! rest := slice_from (buffer decoder) offset in
  if len rest <? readAmount then
    let! e := makeBufferTooShortError decoder "uint16" readAmount in
    Return (Some e) (decoder, msg)
  else
    let! v := slice (buffer decoder) offset (offset + readAmount)
              ≫= binary.BigEndian_Uint16 in
    Return None (set_cursor decoder (cursor decoder + readAmount), v).

Definition DecodeInt16 (decoder : EbpfDecoder) (msg : Z)
  : outcome (EbpfDecoder * Z) :=
  let readAmount := 2 in
  let offset := cursor decoder in
  let! rest := slice_from (buffer decoder) offset in
  if len rest <? readAmount then
    let! e := makeBufferTooShortError decoder "int16" readAmount in
    Return (Some e) (decoder, msg)
  else
    let! v := slice (buffer decoder) offset (offset + readAmount)
              ≫= binary.LittleEndian_Uint16 in
    Return None (set_cursor decoder (cursor decoder + readAmount), int16 v).

Definition DecodeUint32 (decoder : EbpfDecoder) (msg : Z)
  : outcome (EbpfDecoder * Z) :=
  let readAmount := 4 in
  let offset := cursor decoder in
  let! rest := slice_from (buffer decoder) offset in
  if len rest <? readAmount then
    let! e := makeBufferTooShortError decoder "uint32" readAmount in
    Return (Some e) (decoder, msg)
  else
    let! v := slice (buffer decoder) offset (offset + readAmount)
              ≫= binary.LittleEndian_Uint32 in
    Return None (set_cursor decoder (cursor decoder + readAmount), v).

Definition DecodeUint32BigEndian (decoder : EbpfDecoder) (msg : Z)
  : outcome (EbpfDecoder * Z) :=
  let readAmount := 4 in
  let offset := cursor decoder in
  let! rest := slice_from (buffer decoder) offset in
  if len rest <? readAmount then
    let! e := makeBufferTooShortError decoder "uint32 (big endian)"
                readAmount in
    Return (Some e) (decoder, msg)
  else
    let! v := slice (buffer decoder) offset (offset + readAmount)
              ≫= binary.BigEndian_Uint32 in
    Return None (set_cursor decoder (cursor decoder + readAmount), v).

Definition DecodeInt32 (decoder : EbpfDecoder) (msg : Z)
  : outcome (EbpfDecoder * Z) :=
  let readAmount := 4 in
  let offset := cursor decoder in
  let! rest := slice_from (buffer decoder) offset in
  if len rest <? readAmount then
    let! e := makeBufferTooShortError decoder "int32" readAmount in
    Return (Some e) (decoder, msg)
  else
    let! v := slice (buffer decoder) offset (offset + readAmount)
              ≫= binary.LittleEndian_Uint32 in
    Return None (set_cursor decoder (cursor decoder + readAmount), int32 v).

Definition DecodeUint64 (decoder : EbpfDecoder) (msg : Z)
  : outcome (EbpfDecoder * Z) :=
  let readAmount := 8 in
  let offset := cursor decoder in
  let! rest := slice_from (buffer decoder) offset in
  if len rest <? readAmount then
    let! e := makeBufferTooShortError decoder "uint64" readAmount in
    Return (Some e) (decoder, msg)
  else
    let! v := slice (buffer decoder) offset (offset + readAmount)
              ≫= binary.LittleEndian_Uint64 in
    Return None (set_cursor decoder (cursor decoder + readAmount), v).

Definition DecodeInt64 (decoder : EbpfDecoder) (msg : Z)
  : outcome (EbpfDecoder * Z) :=
  let readAmount := 8 in
  let offset := cursor decoder in
  let! rest := slice_from (buffer decoder) offset in
  if len rest <? readAmount then
    let! e := makeBufferTooShortError decoder "int64" readAmount in
    Return (Some e) (decoder, msg)
  else
    let! v := slice (buffer decoder) (cursor decoder)
                (cursor decoder + readAmount)
              ≫= binary.LittleEndian_Uint64 in
    Return None (set_cursor decoder (cursor decoder + readAmount), int64 v).

Definition DecodeBool (decoder : EbpfDecoder) (msg : bool)
  : outcome (EbpfDecoder * bool) :=
  let offset := cursor decoder in
  let! rest := slice_from (buffer decoder) offset in
  if len rest <? 1 then
    let! e := makeBufferTooShortError decoder "bool" 1 in
    Return (Some e) (decoder, msg)
  else
    let! b := index (buffer decoder) offset in
    Return None
      (set_cursor decoder (cursor decoder + 1), negb (u8 b =? 0)).

(** *** Length-prefixed uint64 array

    [count] is the number of iterations still to run and [i] the loop
    variable; [msg] is the destination slice, appended to in place. *)
Fixpoint DecodeUint64Array_loop (count : nat) (i : Z)
    (decoder : EbpfDecoder) (msg : list Z)
  : outcome (EbpfDecoder * list Z) :=
  match count with
  | O => Return None (decoder, msg)
  | S count' =>
      match DecodeUint64 decoder 0 with
      | Panicked => Panicked
      | Return (Some err) (decoder', _) =>
          Return (Some (ErrArrayElement i err)) (decoder', msg)
      | Return None (decoder', element) =>
          DecodeUint64Array_loop count' (i + 1) decoder' (msg ++ [element])
      end
  end.

Definition DecodeUint64Array (decoder : EbpfDecoder) (msg : list Z)
  : outcome (EbpfDecoder * list Z) :=
  match DecodeUint16 decoder 0 with
  | Panicked => Panicked
  | Return (Some err) (decoder', _) =>
      Return (Some (ErrArrayCount err)) (decoder', msg)
  | Return None (decoder', arrLen) =>
      DecodeUint64Array_loop (Z.to_nat arrLen) 0 decoder' msg
  end.

(** *** Event context header *)

Record EventContext : Type := {
  Ts : Z;
  StartTime : Z;
  CgroupID : Z;
  Pid : Z;
  Tid : Z;
  Ppid : Z;
  HostPid : Z;
  HostTid : Z;
  HostPpid : Z;
  Uid : Z;
  MntID : Z;
  PidID : Z;
  Comm : list byte;        (* [16]byte *)
  UtsName : list byte;     (* [16]byte *)
  Flags : Z;
  LeaderStartTime : Z;
  ParentStartTime : Z;
  EventID : ID;
  Syscall : Z;
  Retval : Z;
  StackID : Z;
  ProcessorId : Z;
  PoliciesVersion : Z;
  MatchedPolicies : Z;
}.

(** Modelled from the spec: [EventContext.GetSizeBytes] is declared
    outside the files at hand; the header has a "total fixed size 144
    bytes". *)
Definition GetSizeBytes (eCtx : EventContext) : Z := 144.

Definition DecodeContext (decoder : EbpfDecoder) (eCtx : EventContext)
  : outcome (EbpfDecoder * EventContext) :=
  let offset := cursor decoder in
  let buf := buffer decoder in
  let! rest := slice_from buf offset in
  if len rest <? GetSizeBytes eCtx then
    Return (Some (ErrContextSize (len rest) (GetSizeBytes eCtx)))
           (decoder, eCtx)
  else
    let! ts := slice buf offset (offset + 8)
               ≫= binary.LittleEndian_Uint64 in
    let! startTime := slice buf (offset + 8) (offset + 16)
               ≫= binary.LittleEndian_Uint64 in
    let! cgroupID := slice buf (offset + 16) (offset + 24)
               ≫= binary.LittleEndian_Uint64 in
    let! pid := slice buf (offset + 24) (offset + 28)
               ≫= binary.LittleEndian_Uint32 in
    let! tid := slice buf (offset + 28) (offset + 32)
               ≫= binary.LittleEndian_Uint32 in
    let! ppid := slice buf (offset + 32) (offset + 36)
               ≫= binary.LittleEndian_Uint32 in
    let! hostPid := slice buf (offset + 36) (offset + 40)
               ≫= binary.LittleEndian_Uint32 in
    let! hostTid := slice buf (offset + 40) (offset + 44)
               ≫= binary.LittleEndian_Uint32 in
    let! hostPpid := slice buf (offset + 44) (offset + 48)
               ≫= binary.LittleEndian_Uint32 in
    let! uid := slice buf (offset + 48) (offset + 52)
               ≫= binary.LittleEndian_Uint32 in
    let! mntID := slice buf (offset + 52) (offset + 56)
               ≫= binary.LittleEndian_Uint32 in
    let! pidID := slice buf (offset + 56) (offset + 60)
               ≫= binary.LittleEndian_Uint32 in
    let! comm := slice buf (offset + 60) (offset + 76) in
    let! utsName := slice buf (offset + 76) (offset + 92) in
    let! flags := slice buf (offset + 92) (offset + 96)
               ≫= binary.LittleEndian_Uint32 in
    let! leaderStartTime := slice buf (offset + 96) (offset + 104)
               ≫= binary.LittleEndian_Uint64 in
    let! parentStartTime := slice buf (offset + 104) (offset + 112)
               ≫= binary.LittleEndian_Uint64 in
    let! eventID := slice buf (offset + 112) (offset + 116)
               ≫= binary.LittleEndian_Uint32 in
    let! syscall := slice buf (offset + 116) (offset + 120)
               ≫= binary.LittleEndian_Uint32 in
    let! retval := slice buf (offset + 120) (offset + 128)
               ≫= binary.LittleEndian_Uint64 in
    let! stackID := slice buf (offset + 128) (offset + 132)
               ≫= binary.LittleEndian_Uint32 in
    let! processorId := slice buf (offset + 132) (offset + 134)
               ≫= binary.LittleEndian_Uint16 in
    let! policiesVersion := slice buf (offset + 134) (offset + 136)
               ≫= binary.LittleEndian_Uint16 in
    let! matchedPolicies := slice buf (offset + 136) (offset + 144)
               ≫= binary.LittleEndian_Uint64 in
    Return None
      (set_cursor decoder (cursor decoder + GetSizeBytes eCtx),
       {| Ts := ts;
          StartTime := startTime;
          CgroupID := cgroupID;
          Pid := pid;
          Tid := tid;
          Ppid := ppid;
          HostPid := hostPid;
          HostTid := hostTid;
          HostPpid := hostPpid;
          Uid := uid;
          MntID := mntID;
          PidID := pidID;
          Comm := copy (Comm eCtx) comm;
          UtsName := copy (UtsName eCtx) utsName;
          Flags := flags;
          LeaderStartTime := leaderStartTime;
          ParentStartTime := parentStartTime;
          EventID := int32 eventID;
          Syscall := int32 syscall;
          Retval := int64 retval;
          StackID := stackID;
          ProcessorId := processorId;
          PoliciesVersion := policiesVersion;
          MatchedPolicies := matchedPolicies |}).

(** *** Argument assembly

    [readArgFromBuff] is declared outside the files at hand, so
    [DecodeArguments] takes it as an argument: from the event identifier,
    the decoder and the schema it yields the decoder after the read, the
    destination index, the argument and an error.  The two [logger] calls
    only report; they are left out. *)
Definition readArgFromBuffT : Type :=
  ID -> EbpfDecoder -> list events.DataField ->
  EbpfDecoder * (nat * trace.Argument * option error).

(** [for i := 0; i < argnum; i++]: [count] iterations still to run. *)
Fixpoint DecodeArguments_read (readArgFromBuff : readArgFromBuffT)
    (count : nat) (decoder : EbpfDecoder) (args : list trace.Argument)
    (evtFields : list events.DataField) (eventId : ID)
  : outcome (EbpfDecoder * list trace.Argument) :=
  match count with
  | O => Return None (decoder, args)
  | S count' =>
      let '(decoder', (idx, arg, err)) :=
        readArgFromBuff eventId decoder evtFields in
      match err with
      | Some _ =>
          DecodeArguments_read readArgFromBuff count' decoder' args
            evtFields eventId
      | None =>
          match args !! idx with
          | None => Panicked
          | Some _ =>
              DecodeArguments_read readArgFromBuff count' decoder'
                (<[idx := arg]> args) evtFields eventId
          end
      end
  end.

(** [for i := 0; i < len(evtFields); i++]: fill missing arguments. *)
Fixpoint DecodeArguments_fill (count : nat) (i : nat)
    (args : list trace.Argument) (evtFields : list events.DataField)
  : option (list trace.Argument) :=
  match count with
  | O => Some args
  | S count' =>
      a ← args !! i;
      if is_nil (trace.Value a) then
        f ← evtFields !! i;
        DecodeArguments_fill count' (S i)
          (<[i := {| trace.Argument_ArgMeta := events.DataField_ArgMeta f;
                     trace.Value := events.Zero f |}]> args)
          evtFields
      else DecodeArguments_fill count' (S i) args evtFields
  end.

Definition DecodeArguments (readArgFromBuff : readArgFromBuffT)
    (decoder : EbpfDecoder) (args : list trace.Argument) (argnum : Z)
    (evtFields : list events.DataField) (evtName : string) (eventId : ID)
  : outcome (EbpfDecoder * list trace.Argument) :=
  match DecodeArguments_read readArgFromBuff (Z.to_nat argnum) decoder args
          evtFields eventId with
  | Panicked => Panicked
  | Return err (decoder', args') =>
      let! args'' := DecodeArguments_fill (length evtFields) 0 args'
                       evtFields in
      Return None (decoder', args'')
  end.

(** *** Specification-side vocabulary

    A decoder is [in_bounds] when its cursor lies within its buffer (the
    states in which "the remaining bytes" exist); [remaining] is their
    number.  [fixed_width_result] is what the specification asks of a
    primitive of width [width]: with fewer than [width] bytes remaining, a
    [BufferTooShort] error (expected width, bytes remaining, type name)
    with receiver and destination as they were; otherwise the value of the
    next [width] bytes in the destination and the cursor [width] further. *)
Definition in_bounds (decoder : EbpfDecoder) : Prop :=
  0 <= cursor decoder <= len (buffer decoder).

Definition remaining (decoder : EbpfDecoder) : Z :=
  len (buffer decoder) - cursor decoder.

Definition fixed_width_result {T : Type} (width : Z) (typeName : string)
    (value : list byte -> T) (decoder : EbpfDecoder) (msg : T)
  : outcome (EbpfDecoder * T) :=
  if remaining decoder <? width then
    Return (Some (ErrBufferTooShort width (remaining decoder) typeName))
           (decoder, msg)
  else
    Return None
      (set_cursor decoder (cursor decoder + width),
       value (bytes_at (buffer decoder) (cursor decoder) (Z.to_nat width))).

(** The [m] consecutive little-endian 64-bit values of [buf] from offset
    [off] on (specification side). *)
Fixpoint uint64s_at (buf : list byte) (off : Z) (m : nat) : list Z :=
  match m with
  | O => []
  | S m' => le_value (bytes_at buf off 8) :: uint64s_at buf (off + 8) m'
  end.

(** The header that the specification's layout table reads off a buffer
    at offset [off]: every integer little-endian at its declared offset,
    the two names as the 16 bytes at offsets 60 and 76 (specification
    side; [DecodeContext] is compared with it). *)
Definition context_at (buf : list byte) (off : Z) : EventContext :=
  {| Ts := le_value (bytes_at buf (off + 0) 8);
     StartTime := le_value (bytes_at buf (off + 8) 8);
     CgroupID := le_value (bytes_at buf (off + 16) 8);
     Pid := le_value (bytes_at buf (off + 24) 4);
     Tid := le_value (bytes_at buf (off + 28) 4);
     Ppid := le_value (bytes_at buf (off + 32) 4);
     HostPid := le_value (bytes_at buf (off + 36) 4);
     HostTid := le_value (bytes_at buf (off + 40) 4);
     HostPpid := le_value (bytes_at buf (off + 44) 4);
     Uid := le_value (bytes_at buf (off + 48) 4);
     MntID := le_value (bytes_at buf (off + 52) 4);
     PidID := le_value (bytes_at buf (off + 56) 4);
     Comm := bytes_at buf (off + 60) 16;
     UtsName := bytes_at buf (off + 76) 16;
     Flags := le_value (bytes_at buf (off + 92) 4);
     LeaderStartTime := le_value (bytes_at buf (off + 96) 8);
     ParentStartTime := le_value (bytes_at buf (off + 104) 8);
     EventID := to_signed 32 (le_value (bytes_at buf (off + 112) 4));
     Syscall := to_signed 32 (le_value (bytes_at buf (off + 116) 4));
     Retval := to_signed 64 (le_value (bytes_at buf (off + 120) 8));
     StackID := le_value (bytes_at buf (off + 128) 4);
     ProcessorId := le_value (bytes_at buf (off + 132) 2);
     PoliciesVersion := le_value (bytes_at buf (off + 134) 2);
     MatchedPolicies := le_value (bytes_at buf (off + 136) 8) |}.

(** *** Vocabulary for argument assembly (specification side)

    [reads] lists what [count] successive calls of the reader return,
    starting from [decoder]: the stream's arguments.  [well_supplied n]
    holds of a stream whose every argument was decoded without error to a
    non-nil value and names a schema field (an index below [n]) that no
    other argument of the stream names. *)
Fixpoint reads (readArgFromBuff : readArgFromBuffT) (count : nat)
    (eventId : ID) (decoder : EbpfDecoder)
    (evtFields : list events.DataField)
  : list (nat * trace.Argument * option error) :=
  match count with
  | O => []
  | S count' =>
      let '(decoder', r) := readArgFromBuff eventId decoder evtFields in
      r :: reads readArgFromBuff count' eventId decoder' evtFields
  end.

Definition supplied_index (r : nat * trace.Argument * option error) : nat :=
  r.1.1.

Definition supplied_ok (n : nat) (r : nat * trace.Argument * option error)
  : bool :=
  match r.2 with None => true | Some _ => false end
  && (r.1.1 <? n)%nat
  && negb (is_nil (trace.Value r.1.2)).

Definition well_supplied (n : nat)
    (rs : list (nat * trace.Argument * option error)) : bool :=
  forallb (supplied_ok n) rs && bool_decide (NoDup (map supplied_index rs)).

(** The destination after the reads [rs] were placed in it, one after
    the other. *)
Definition place (args : list trace.Argument)
    (rs : list (nat * trace.Argument * option error)) : list trace.Argument :=
  foldl (fun a r => <[supplied_index r := r.1.2]> a) args rs.

(** The slot of schema field [f] that the stream did not supply. *)
Definition zero_slot (f : events.DataField) : trace.Argument :=
  {| trace.Argument_ArgMeta := events.DataField_ArgMeta f;
     trace.Value := events.Zero f |}.

(** An encoder for the header, written from the layout table: [w]
    little-endian bytes per integer, two's complement for the signed
    ones (specification side; used to build synthetic headers). *)
Definition byte_of_Z (z : Z) : byte :=
  default Byte.x00 (Byte.of_N (Z.to_N (z mod 256))).

Fixpoint le_bytes (w : nat) (z : Z) : list byte :=
  match w with
  | O => []
  | S w' => byte_of_Z z :: le_bytes w' (z / 256)
  end.

Definition encodeContext (c : EventContext) : list byte :=
  le_bytes 8 (Ts c) ++ le_bytes 8 (StartTime c) ++ le_bytes 8 (CgroupID c)
  ++ le_bytes 4 (Pid c) ++ le_bytes 4 (Tid c) ++ le_bytes 4 (Ppid c)
  ++ le_bytes 4 (HostPid c) ++ le_bytes 4 (HostTid c)
  ++ le_bytes 4 (HostPpid c) ++ le_bytes 4 (Uid c) ++ le_bytes 4 (MntID c)
  ++ le_bytes 4 (PidID c) ++ Comm c ++ UtsName c ++ le_bytes 4 (Flags c)
  ++ le_bytes 8 (LeaderStartTime c) ++ le_bytes 8 (ParentStartTime c)
  ++ le_bytes 4 (EventID c) ++ le_bytes 4 (Syscall c) ++ le_bytes 8 (Retval c)
  ++ le_bytes 4 (StackID c) ++ le_bytes 2 (ProcessorId c)
  ++ le_bytes 2 (PoliciesVersion c) ++ le_bytes 8 (MatchedPolicies c).

(** A header whose every field fits its declared type: the values an
    encoder can be given (specification side). *)
Definition context_in_range (c : EventContext) : Prop :=
  0 <= Ts c < 2 ^ 64 /\ 0 <= StartTime c < 2 ^ 64 /\
  0 <= CgroupID c < 2 ^ 64 /\ 0 <= Pid c < 2 ^ 32 /\ 0 <= Tid c < 2 ^ 32 /\
  0 <= Ppid c < 2 ^ 32 /\ 0 <= HostPid c < 2 ^ 32 /\
  0 <= HostTid c < 2 ^ 32 /\ 0 <= HostPpid c < 2 ^ 32 /\
  0 <= Uid c < 2 ^ 32 /\ 0 <= MntID c < 2 ^ 32 /\ 0 <= PidID c < 2 ^ 32 /\
  length (Comm c) = 16%nat /\ length (UtsName c) = 16%nat /\
  0 <= Flags c < 2 ^ 32 /\ 0 <= LeaderStartTime c < 2 ^ 64 /\
  0 <= ParentStartTime c < 2 ^ 64 /\
  - 2 ^ 31 <= EventID c < 2 ^ 31 /\ - 2 ^ 31 <= Syscall c < 2 ^ 31 /\
  - 2 ^ 63 <= Retval c < 2 ^ 63 /\ 0 <= StackID c < 2 ^ 32 /\
  0 <= ProcessorId c < 2 ^ 16 /\ 0 <= PoliciesVersion c < 2 ^ 16 /\
  0 <= MatchedPolicies c < 2 ^ 64.

End bufferdecoder.

(** ** Concrete inputs *)
Module examples.
Import bufferdecoder.

Definition bytes_of (zs : list Z) : list byte := map byte_of_Z zs.

(** Seven bytes remain: one short of a 64-bit read. *)
Definition decoder_seven_left : EbpfDecoder :=
  {| buffer := bytes_of [1; 2; 3; 4; 5; 6; 7; 8]; cursor := 1;
     typeDecoder := [] |}.

Definition zeroContext : EventContext :=
  {| Ts := 0; StartTime := 0; CgroupID := 0; Pid := 0; Tid := 0; Ppid := 0;
     HostPid := 0; HostTid := 0; HostPpid := 0; Uid := 0; MntID := 0;
     PidID := 0; Comm := replicate 16 Byte.x00;
     UtsName := replicate 16 Byte.x00; Flags := 0; LeaderStartTime := 0;
     ParentStartTime := 0; EventID := 0; Syscall := 0; Retval := 0;
     StackID := 0; ProcessorId := 0; PoliciesVersion := 0;
     MatchedPolicies := 0 |}.

Definition sampleContext : EventContext :=
  {| Ts := 72623859790382856;          (* 0x0102030405060708 *)
     StartTime := 18446744073709551615; (* 0xffffffffffffffff *)
     CgroupID := 4294967297;
     Pid := 4242; Tid := 4243; Ppid := 1; HostPid := 70000; HostTid := 70001;
     HostPpid := 4294967295; Uid := 1000; MntID := 4026531840;
     PidID := 4026531836;
     Comm := bytes_of [116; 114; 97; 99; 101; 101; 0; 0;
                       0; 0; 0; 0; 0; 0; 0; 0];
     UtsName := bytes_of [104; 111; 115; 116; 0; 0; 0; 0;
                          0; 0; 0; 0; 0; 0; 0; 255];
     Flags := 3; LeaderStartTime := 123456789; ParentStartTime := 987654321;
     EventID := -3; Syscall := 59; Retval := -1;
     StackID := 7; ProcessorId := 65535; PoliciesVersion := 258;
     MatchedPolicies := 9223372036854775809 |}.

(** The synthetic header, behind two bytes already read and before one
    byte of what follows. *)
Definition decoder_at_header : EbpfDecoder :=
  {| buffer := bytes_of [170; 187] ++ encodeContext sampleContext
               ++ bytes_of [204];
     cursor := 2; typeDecoder := [] |}.

(** A count of three 64-bit elements followed by only thirteen bytes. *)
Definition decoder_short_array : EbpfDecoder :=
  {| buffer := bytes_of [3; 0; 1; 0; 0; 0; 0; 0; 0; 0; 9; 9; 9; 9; 9];
     cursor := 0; typeDecoder := [] |}.

(** Modelled from the spec: [readArgFromBuff] is declared outside the
    files at hand.  The assembler's contract has it "decode one tagged
    argument" and "determine its destination schema index"; this reader
    decodes the index byte and a one-byte value, and fails when either is
    missing or the index names no schema field. *)
Definition readArgFromBuff : readArgFromBuffT :=
  fun eventId decoder fields =>
    match DecodeUint8 decoder 0 with
    | Return None (decoder1, argIdx) =>
        match fields !! Z.to_nat argIdx with
        | None =>
            (decoder1, (Z.to_nat argIdx, trace.zeroArgument,
                        Some (errors_New "invalid arg index")))
        | Some f =>
            match DecodeUint8 decoder1 0 with
            | Return None (decoder2, v) =>
                (decoder2,
                 (Z.to_nat argIdx,
                  {| trace.Argument_ArgMeta := events.DataField_ArgMeta f;
                     trace.Value := any_int v |}, None))
            | _ =>
                (decoder1, (Z.to_nat argIdx, trace.zeroArgument,
                            Some (errors_New "error reading argument")))
            end
        end
    | _ => (decoder, (0%nat, trace.zeroArgument,
                      Some (errors_New "error reading arg index")))
    end.

Definition three_fields : list events.DataField :=
  [ {| events.DataField_ArgMeta := {| trace.Name := "fd"; trace.Type_ := "int" |};
       events.Zero := any_int 0 |};
    {| events.DataField_ArgMeta :=
         {| trace.Name := "pathname"; trace.Type_ := "string" |};
       events.Zero := any_string "" |};
    {| events.DataField_ArgMeta :=
         {| trace.Name := "flags"; trace.Type_ := "int" |};
       events.Zero := any_int 0 |} ].

(** Two arguments on the wire: field 2 with value 7, then field 0 with
    value 9. *)
Definition decoder_two_args : EbpfDecoder :=
  {| buffer := bytes_of [2; 7; 0; 9]; cursor := 0; typeDecoder := [] |}.

End examples.

(** ** package derive *)
Module derive.

(** *** The store of shared backing arrays

    [trace.Event.MatchedPolicies] is a [[]string]: a reference to a
    backing array that the base event shares with later pipeline stages.
    The store maps each array's address to its content; a slice is [None]
    (the nil slice) or the address of the array it spans. *)
Definition loc : Type := positive.
Abbreviation heap := (gmap positive (list string)).

(** A computation that may allocate in, read and write the store, and
    may panic ([None]). *)
Definition M (A : Type) : Type := heap -> option (A * heap).

Definition ret {A : Type} (a : A) : M A := fun h => Some (a, h).
Definition bind {A B : Type} (m : M A) (k : A -> M B) : M B :=
  fun h => match m h with
           | Some (a, h') => k a h'
           | None => None
           end.
Definition panic {A : Type} : M A := fun _ => None.

Notation "'do!' x <- m ; k" := (bind m (fun x => k))
  (at level 10, x name, m at level 100, k at level 200, only parsing).

(** [len(s)] of a slice in the store. *)
Definition slice_len (s : option loc) : M nat :=
  fun h => Some (match s with
                 | None => 0%nat
                 | Some l => length (h !!! l)
                 end, h).

(** [make([]string, n)]: a fresh array of [n] empty strings. *)
Definition make_strings (n : nat) : M (option loc) :=
  fun h => let l := fresh (dom h) in
           Some (Some l, <[l := replicate n ""%string]> h).

(** [copy(dst, src)] on slices in the store. *)
Definition copy_strings (dst src : option loc) : M unit :=
  fun h => match dst, src with
           | Some d, Some s => Some (tt, <[d := copy (h !!! d) (h !!! s)]> h)
           | _, _ => Some (tt, h)
           end.

(** [s[i] = v]: an in-place write by a later pipeline stage; an index out
    of range panics. *)
Definition store_string (s : option loc) (i : nat) (v : string) : M unit :=
  fun h => l ← s;
           _ ← (h !!! l : list string) !! i;
           Some (tt, <[l := <[i := v]> (h !!! l)]> h).

(** *** trace.Event

    The declaration of [trace.Event] lives outside the files at hand;
    these are the fields that [buildDerivedEvent] and the package's tests
    name.  [Args] and [StackAddresses] of a derived event are allocated
    by [buildDerivedEvent] itself and are kept by value. *)
Record Container : Type := {
  Container_ID : string;
  Container_Name : string;
  ImageName : string;
  ImageDigest : string;
}.

Record Kubernetes : Type := {
  PodName : string;
  PodNamespace : string;
  PodUID : string;
  PodSandbox : bool;
}.

Record Event : Type := {
  Timestamp : Z;
  ProcessorID : Z;
  ProcessID : Z;
  CgroupID : Z;
  ThreadID : Z;
  ParentProcessID : Z;
  HostProcessID : Z;
  HostThreadID : Z;
  HostParentProcessID : Z;
  UserID : Z;
  MountNS : Z;
  PIDNS : Z;
  ProcessName : string;
  HostName : string;
  Event_Container : Container;
  Event_Kubernetes : Kubernetes;
  EventID : Z;
  EventName : string;
  PoliciesVersion : Z;
  MatchedPolicies : option loc;
  ArgsNum : Z;
  ReturnValue : Z;
  StackAddresses : list Z;
  Args : list trace.Argument;
}.

(** [trace.Event{}] *)
Definition zeroEvent : Event :=
  {| Timestamp := 0; ProcessorID := 0; ProcessID := 0; CgroupID := 0;
     ThreadID := 0; ParentProcessID := 0; HostProcessID := 0;
     HostThreadID := 0; HostParentProcessID := 0; UserID := 0; MountNS := 0;
     PIDNS := 0; ProcessName := ""; HostName := "";
     Event_Container := {| Container_ID := ""; Container_Name := "";
                           ImageName := ""; ImageDigest := "" |};
     Event_Kubernetes := {| PodName := ""; PodNamespace := ""; PodUID := "";
                            PodSandbox := false |};
     EventID := 0; EventName := ""; PoliciesVersion := 0;
     MatchedPolicies := None; ArgsNum := 0; ReturnValue := 0;
     StackAddresses := []; Args := [] |}.

(** Field assignments [de.F = v]. *)
Definition set_PoliciesVersion (v : Z) (e : Event) : Event :=
  {| Timestamp := Timestamp e; ProcessorID := ProcessorID e;
     ProcessID := ProcessID e; CgroupID := CgroupID e; ThreadID := ThreadID e;
     ParentProcessID := ParentProcessID e; HostProcessID := HostProcessID e;
     HostThreadID := HostThreadID e;
     HostParentProcessID := HostParentProcessID e; UserID := UserID e;
     MountNS := MountNS e; PIDNS := PIDNS e; ProcessName := ProcessName e;
     HostName := HostName e; Event_Container := Event_Container e;
     Event_Kubernetes := Event_Kubernetes e; EventID := EventID e;
     EventName := EventName e; PoliciesVersion := v;
     MatchedPolicies := MatchedPolicies e; ArgsNum := ArgsNum e;
     ReturnValue := ReturnValue e; StackAddresses := StackAddresses e;
     Args := Args e |}.

Definition set_EventID (v : Z) (e : Event) : Event :=
  {| Timestamp := Timestamp e; ProcessorID := ProcessorID e;
     ProcessID := ProcessID e; CgroupID := CgroupID e; ThreadID := ThreadID e;
     ParentProcessID := ParentProcessID e; HostProcessID := HostProcessID e;
     HostThreadID := HostThreadID e;
     HostParentProcessID := HostParentProcessID e; UserID := UserID e;
     MountNS := MountNS e; PIDNS := PIDNS e; ProcessName := ProcessName e;
     HostName := HostName e; Event_Container := Event_Container e;
     Event_Kubernetes := Event_Kubernetes e; EventID := v;
     EventName := EventName e; PoliciesVersion := PoliciesVersion e;
     MatchedPolicies := MatchedPolicies e; ArgsNum := ArgsNum e;
     ReturnValue := ReturnValue e; StackAddresses := StackAddresses e;
     Args := Args e |}.

Definition set_EventName (v : string) (e : Event) : Event :=
  {| Timestamp := Timestamp e; ProcessorID := ProcessorID e;
     ProcessID := ProcessID e; CgroupID := CgroupID e; ThreadID := ThreadID e;
     ParentProcessID := ParentProcessID e; HostProcessID := HostProcessID e;
     HostThreadID := HostThreadID e;
     HostParentProcessID := HostParentProcessID e; UserID := UserID e;
     MountNS := MountNS e; PIDNS := PIDNS e; ProcessName := ProcessName e;
     HostName := HostName e; Event_Container := Event_Container e;
     Event_Kubernetes := Event_Kubernetes e; EventID := EventID e;
     EventName := v; PoliciesVersion := PoliciesVersion e;
     MatchedPolicies := MatchedPolicies e; ArgsNum := ArgsNum e;
     ReturnValue := ReturnValue e; StackAddresses := StackAddresses e;
     Args := Args e |}.

Definition set_ReturnValue (v : Z) (e : Event) : Event :=
  {| Timestamp := Timestamp e; ProcessorID := ProcessorID e;
     ProcessID := ProcessID e; CgroupID := CgroupID e; ThreadID := ThreadID e;
     ParentProcessID := ParentProcessID e; HostProcessID := HostProcessID e;
     HostThreadID := HostThreadID e;
     HostParentProcessID := HostParentProcessID e; UserID := UserID e;
     MountNS := MountNS e; PIDNS := PIDNS e; ProcessName := ProcessName e;
     HostName := HostName e; Event_Container := Event_Container e;
     Event_Kubernetes := Event_Kubernetes e; EventID := EventID e;
     EventName := EventName e; PoliciesVersion := PoliciesVersion e;
     MatchedPolicies := MatchedPolicies e; ArgsNum := ArgsNum e;
     ReturnValue := v; StackAddresses := StackAddresses e;
     Args := Args e |}.

Definition set_StackAddresses (v : list Z) (e : Event) : Event :=
  {| Timestamp := Timestamp e; ProcessorID := ProcessorID e;
     ProcessID := ProcessID e; CgroupID := CgroupID e; ThreadID := ThreadID e;
     ParentProcessID := ParentProcessID e; HostProcessID := HostProcessID e;
     HostThreadID := HostThreadID e;
     HostParentProcessID := HostParentProcessID e; UserID := UserID e;
     MountNS := MountNS e; PIDNS := PIDNS e; ProcessName := ProcessName e;
     HostName := HostName e; Event_Container := Event_Container e;
     Event_Kubernetes := Event_Kubernetes e; EventID := EventID e;
     EventName := EventName e; PoliciesVersion := PoliciesVersion e;
     MatchedPolicies := MatchedPolicies e; ArgsNum := ArgsNum e;
     ReturnValue := ReturnValue e; StackAddresses := v;
     Args := Args e |}.

Definition set_Args (v : list trace.Argument) (e : Event) : Event :=
  {| Timestamp := Timestamp e; ProcessorID := ProcessorID e;
     ProcessID := ProcessID e; CgroupID := CgroupID e; ThreadID := ThreadID e;
     ParentProcessID := ParentProcessID e; HostProcessID := HostProcessID e;
     HostThreadID := HostThreadID e;
     HostParentProcessID := HostParentProcessID e; UserID := UserID e;
     MountNS := MountNS e; PIDNS := PIDNS e; ProcessName := ProcessName e;
     HostName := HostName e; Event_Container := Event_Container e;
     Event_Kubernetes := Event_Kubernetes e; EventID := EventID e;
     EventName := EventName e; PoliciesVersion := PoliciesVersion e;
     MatchedPolicies := MatchedPolicies e; ArgsNum := ArgsNum e;
     ReturnValue := ReturnValue e; StackAddresses := StackAddresses e;
     Args := v |}.

Definition set_ArgsNum (v : Z) (e : Event) : Event :=
  {| Timestamp := Timestamp e; ProcessorID := ProcessorID e;
     ProcessID := ProcessID e; CgroupID := CgroupID e; ThreadID := ThreadID e;
     ParentProcessID := ParentProcessID e; HostProcessID := HostProcessID e;
     HostThreadID := HostThreadID e;
     HostParentProcessID := HostParentProcessID e; UserID := UserID e;
     MountNS := MountNS e; PIDNS := PIDNS e; ProcessName := ProcessName e;
     HostName := HostName e; Event_Container := Event_Container e;
     Event_Kubernetes := Event_Kubernetes e; EventID := EventID e;
     EventName := EventName e; PoliciesVersion := PoliciesVersion e;
     MatchedPolicies := MatchedPolicies e; ArgsNum := v;
     ReturnValue := ReturnValue e; StackAddresses := StackAddresses e;
     Args := Args e |}.

Definition set_MatchedPolicies (v : option loc) (e : Event) : Event :=
  {| Timestamp := Timestamp e; ProcessorID := ProcessorID e;
     ProcessID := ProcessID e; CgroupID := CgroupID e; ThreadID := ThreadID e;
     ParentProcessID := ParentProcessID e; HostProcessID := HostProcessID e;
     HostThreadID := HostThreadID e;
     HostParentProcessID := HostParentProcessID e; UserID := UserID e;
     MountNS := MountNS e; PIDNS := PIDNS e; ProcessName := ProcessName e;
     HostName := HostName e; Event_Container := Event_Container e;
     Event_Kubernetes := Event_Kubernetes e; EventID := EventID e;
     EventName := EventName e; PoliciesVersion := PoliciesVersion e;
     MatchedPolicies := v; ArgsNum := ArgsNum e;
     ReturnValue := ReturnValue e; StackAddresses := StackAddresses e;
     Args := Args e |}.

(** *** Errors *)

(** Modelled from the spec: [deriveError] is declared outside the files
    at hand.  Every rule error is "wrapped with the offending target
    identifier"; the package's test builds the expected error as
    [deriveError(failEventID, err)]. *)
Definition deriveError (id : ID) (err : error) : error := ErrDerive id err.

(** Modelled from the spec: [unexpectedArgCountError] is declared outside
    the files at hand.  A length mismatch "fails with an
    [UnexpectedArgumentCount] error"; the call site passes the target's
    name, the schema's field count and the tuple's length. *)
Definition unexpectedArgCountError (name : string) (expected given : Z)
  : error := ErrUnexpectedArgCount name expected given.

(** Modelled from the spec: [alreadyRegisteredError] is declared outside
    the files at hand.  [Register] "fails with an [AlreadyRegistered]
    error if the (source, target) pair exists". *)
Definition alreadyRegisteredError (deriveFrom deriveTo : ID) : error :=
  ErrAlreadyRegistered deriveFrom deriveTo.

(** *** Derivation table *)

Definition DeriveFunction : Type := Event -> M (list Event * list error).

Record entry : Type := {
  entry_DeriveFunction : DeriveFunction;
  Enabled : unit -> bool;
}.

(** [map[events.ID]map[events.ID]struct{...}].  A key bound to a nil inner
    map behaves in [Register] and [DeriveEvent] as an absent key, so the
    inner maps are kept non-nil. *)
Abbreviation Table := (gmap Z (gmap Z entry)).

Definition Register (t : Table) (deriveFrom deriveTo : ID)
    (deriveCondition : unit -> bool) (deriveLogic : DeriveFunction)
  : Table * option error :=
  let t1 : Table :=
    match t !! deriveFrom with
    | None => <[deriveFrom := ∅]> t
    | Some _ => t
    end in
  match (t1 !!! deriveFrom : gmap Z entry) !! deriveTo with
  | Some _ => (t1, Some (alreadyRegisteredError deriveFrom deriveTo))
  | None =>
      (<[deriveFrom :=
           <[deriveTo := {| entry_DeriveFunction := deriveLogic;
                            Enabled := deriveCondition |}]>
             (t1 !!! deriveFrom)]> t1,
       None)
  end.

(** The body of [for id, deriveFn := range deriveFns], run over the
    entries in the order [order] in which the map yields them. *)
Fixpoint DeriveEvent_range (order : list (ID * entry)) (event : Event)
    (derivatives : list Event) (errors : list error)
  : M (list Event * list error) :=
  match order with
  | [] => ret (derivatives, errors)
  | (id, deriveFn) :: order' =>
      if Enabled deriveFn tt then
        do! r <- entry_DeriveFunction deriveFn event;
        DeriveEvent_range order' event
          (derivatives ++ r.1)
          (errors ++ map (deriveError id) r.2)
      else DeriveEvent_range order' event derivatives errors
  end.

(** [deriveFns := t[events.ID(event.EventID)]] *)
Definition deriveFns (t : Table) (event : Event) : gmap Z entry :=
  t !!! int_to_int32 (EventID event).

(** Go leaves the iteration order of a map unspecified: [DeriveEvent]
    relates a table, an event and a store to every outcome that some
    iteration order of the entries yields. *)
Definition DeriveEvent (t : Table) (event : Event) (h : heap)
    (res : option (list Event * list error * heap)) : Prop :=
  ∃ order : list (ID * entry),
    order ≡ₚ map_to_list (deriveFns t event) ∧
    res = DeriveEvent_range order event [] [] h.

(** One run of it, in the order of [map_to_list]. *)
Definition DeriveEvent_run (t : Table) (event : Event)
  : M (list Event * list error) :=
  DeriveEvent_range (map_to_list (deriveFns t event)) event [] [].

(** *** Building derived events *)

Record deriveBase : Type := {
  deriveBase_Name : string;
  deriveBase_ID : Z;
  Fields : list events.DataField;
}.

(** [events.Definition], as far as [makeDeriveBase] reads it. *)
Record Definition_ : Type := {
  GetName : string;
  GetFields : list events.DataField;
}.

(** A nil slice of tuples ([None]) is told apart from an empty one, as
    the source tests for it. *)
Definition deriveArgsFunction : Type :=
  Event -> M (option (list any) * option error).
Definition multiDeriveArgsFunction : Type :=
  Event -> M (option (list (list any)) * list error).

(** [for i, value := range argsValues { de.Args[i] = ... }]; an index out
    of range panics. *)
Fixpoint buildDerivedEvent_args (fields : list events.DataField)
    (i : nat) (argsValues : list any) (args : list trace.Argument)
  : option (list trace.Argument) :=
  match argsValues with
  | [] => Some args
  | value :: rest =>
      f ← fields !! i;
      _ ← args !! i;
      buildDerivedEvent_args fields (S i) rest
        (<[i := {| trace.Argument_ArgMeta := events.DataField_ArgMeta f;
                   trace.Value := value |}]> args)
  end.

Definition buildDerivedEvent (baseEvent : Event) (skeleton : deriveBase)
    (argsValues : list any) : M (Event * option error) :=
  if negb (len (Fields skeleton) =? len argsValues) then
    ret (zeroEvent,
         Some (unexpectedArgCountError (deriveBase_Name skeleton)
                 (len (Fields skeleton)) (len argsValues)))
  else
    let de := baseEvent in
    let de := set_PoliciesVersion (PoliciesVersion baseEvent) de in
    let de := set_EventID (deriveBase_ID skeleton) de in
    let de := set_EventName (deriveBase_Name skeleton) de in
    let de := set_ReturnValue 0 de in
    let de := set_StackAddresses (replicate 1 0) de in
    match buildDerivedEvent_args (Fields skeleton) 0 argsValues
            (replicate (length (Fields skeleton)) trace.zeroArgument) with
    | None => panic
    | Some args =>
        let de := set_Args args de in
        let de := set_ArgsNum (len (Args de)) de in
        match MatchedPolicies baseEvent with
        | Some _ =>
            do! n <- slice_len (MatchedPolicies baseEvent);
            do! mp <- make_strings n;
            do! _u <- copy_strings mp (MatchedPolicies baseEvent);
            ret (set_MatchedPolicies mp de, None)
        | None => ret (de, None)
        end
    end.

Definition makeDeriveBase (getEventDefinition : ID -> Definition_)
    (eventID : ID) : deriveBase :=
  let def := getEventDefinition eventID in
  {| deriveBase_Name := GetName def;
     deriveBase_ID := eventID;
     Fields := GetFields def |}.

(** [for _, derivedArgs := range multiArgs] *)
Fixpoint deriveMultipleEvents_range (event : Event) (skeleton : deriveBase)
    (multiArgs : list (list any)) (derivedEvents : list Event)
    (errs : list error) : M (list Event * list error) :=
  match multiArgs with
  | [] => ret (derivedEvents, errs)
  | derivedArgs :: rest =>
      do! r <- buildDerivedEvent event skeleton derivedArgs;
      match r.2 with
      | Some err =>
          deriveMultipleEvents_range event skeleton rest derivedEvents
            (errs ++ [err])
      | None =>
          deriveMultipleEvents_range event skeleton rest
            (derivedEvents ++ [r.1]) errs
      end
  end.

Definition deriveMultipleEvents (getEventDefinition : ID -> Definition_)
    (id : ID) (multiDeriveArgsFunc : multiDeriveArgsFunction)
  : DeriveFunction :=
  let skeleton := makeDeriveBase getEventDefinition id in
  fun event =>
    do! r <- multiDeriveArgsFunc event;
    match r.1 with
    | None => ret ([], r.2)
    | Some multiArgs =>
        deriveMultipleEvents_range event skeleton multiArgs [] r.2
    end.

Definition deriveSingleEvent (getEventDefinition : ID -> Definition_)
    (id : ID) (deriveArgs : deriveArgsFunction) : DeriveFunction :=
  let singleDerive : multiDeriveArgsFunction := fun event =>
    do! r <- deriveArgs event;
    let multiArgs :=
      match r.1 with
      | Some derivedArgs => Some [derivedArgs]
      | None => None
      end in
    let errs := match r.2 with Some err => [err] | None => [] end in
    ret (multiArgs, errs) in
  deriveMultipleEvents getEventDefinition id singleDerive.

(** The entry registered for the pair [(deriveFrom, deriveTo)]
    (specification side). *)
Definition registered (t : Table) (deriveFrom deriveTo : ID)
  : option entry :=
  inner ← t !! deriveFrom; (inner : gmap Z entry) !! deriveTo.

(** The argument list the specification asks of a derived event: each
    schema field's metadata paired with the value supplied for it, in
    schema order (specification side). *)
Definition schema_args (fields : list events.DataField) (values : list any)
  : list trace.Argument :=
  zip_with (fun f v => {| trace.Argument_ArgMeta := events.DataField_ArgMeta f;
                          trace.Value := v |})
           fields values.

End derive.

(** ** Concrete inputs for the derivation engine, after the package's
    tests *)
Module derive_examples.
Import derive.

(** [getTestEvent()], with a matched-policies list at address 1. *)
Definition getTestEvent : Event :=
  {| Timestamp := 100000; ProcessorID := 1; ProcessID := 13;
     CgroupID := 12345; ThreadID := 13; ParentProcessID := 12;
     HostProcessID := 13; HostThreadID := 13; HostParentProcessID := 12;
     UserID := 1; MountNS := 12345; PIDNS := 23456;
     ProcessName := "test"; HostName := "test";
     Event_Container := {| Container_ID := "test"; Container_Name := "test";
                           ImageName := "test"; ImageDigest := "test" |};
     Event_Kubernetes := {| PodName := "test"; PodNamespace := "test";
                            PodUID := "test"; PodSandbox := false |};
     EventID := 123; EventName := "test_event"; PoliciesVersion := 2;
     MatchedPolicies := Some 1%positive; ArgsNum := 1; ReturnValue := 1;
     StackAddresses := [4444];
     Args := [ {| trace.Argument_ArgMeta :=
                    {| trace.Name := "test-arg"; trace.Type_ := "int" |};
                  trace.Value := any_int 1111 |} ] |}.

Definition test_heap : heap := {[ 1%positive := ["policy-a"; "policy-b"]%string ]}.

Definition two_int_fields : list events.DataField :=
  [ {| events.DataField_ArgMeta :=
         {| trace.Name := "arg1"; trace.Type_ := "int" |};
       events.Zero := any_nil |};
    {| events.DataField_ArgMeta :=
         {| trace.Name := "arg2"; trace.Type_ := "int" |};
       events.Zero := any_nil |} ].

(** The mocked [getEventDefinition] of the tests. *)
Definition getEventDefinition (id : ID) : Definition_ :=
  {| GetName := "test_event"; GetFields := two_int_fields |}.

(** The skeleton of [TestNewEvent]. *)
Definition test_skeleton : deriveBase :=
  {| deriveBase_Name := "test_derive"; deriveBase_ID := 124;
     Fields :=
       [ {| events.DataField_ArgMeta :=
              {| trace.Name := "arg1"; trace.Type_ := "int" |};
            events.Zero := any_nil |};
         {| events.DataField_ArgMeta :=
              {| trace.Name := "arg2"; trace.Type_ := "string" |};
            events.Zero := any_nil |} ] |}.

(** A rule returning a tuple of three values and a tuple of two. *)
Definition wrong_then_right : multiDeriveArgsFunction :=
  fun event =>
    ret (Some [[any_int 1; any_int 2; any_int 3]; [any_int 1; any_int 2]], []).

(** The table of [Test_DeriveEvent]: rule 11 always errors, rule 12
    derives one event. *)
Definition testEventID : ID := 1.
Definition failEventID : ID := 11.
Definition deriveEventID : ID := 12.

Definition alwaysDeriveError : entry :=
  {| entry_DeriveFunction :=
       fun e => ret ([], [errors_New "derive error"]);
     Enabled := fun _ => true |}.

Definition deriveOne : entry :=
  {| entry_DeriveFunction :=
       fun e => ret ([set_EventID deriveEventID zeroEvent], []);
     Enabled := fun _ => true |}.

Definition mockDerivationTable : Table :=
  {[ testEventID := <[failEventID := alwaysDeriveError]>
                      {[ deriveEventID := deriveOne ]} ]}.

Definition testEvent : Event := set_EventID testEventID zeroEvent.

End derive_examples.

(** ** package bufferdecoder: the variable-width and composite decoders *)
Module bufferdecoder_ext.
Import bufferdecoder.

(** Multiplication on [int], with its wrap-around. *)
Definition int_mul (a b : Z) : Z := wrap_int (a * b).

(** [make([]byte, n)]: panics for a negative length and for one beyond
    the runtime's allocation limit [maxAlloc] (platform-dependent, so an
    argument here); running out of memory is outside the model. *)
Definition make_bytes (maxAlloc : Z) (n : Z) : option (list byte) :=
  if (0 <=? n) && (n <=? maxAlloc)
  then Some (replicate (Z.to_nat n) Byte.x00)
  else None.

Definition DecodeBytes (decoder : EbpfDecoder) (msg : list byte) (size : Z)
  : outcome (EbpfDecoder * list byte) :=
  let offset := cursor decoder in
  let! rest := slice_from (buffer decoder) offset in
  let bufferLen := len rest in
  if bufferLen <? size then
    let! e := makeBufferTooShortError decoder "bytes" size in
    Return (Some e) (decoder, msg)
  else
    let! src := slice (buffer decoder) offset (offset + size) in
    Return None (set_cursor decoder (cursor decoder + size), copy msg src).

(** The result slice is [None] for Go's nil.  The error is
    [errfmt.Errorf("error reading byte array: %v", err)]. *)
Inductive ReadBytesError : Type :=
| ErrReadingByteArray (cause : error).

Definition ReadBytesLen (maxAlloc : Z) (decoder : EbpfDecoder) (len_ : Z)
  : option (EbpfDecoder * option (list byte) * option ReadBytesError) :=
  res ← make_bytes maxAlloc len_;
  match DecodeBytes decoder res len_ with
  | Panicked => None
  | Return (Some err) (decoder', _) =>
      Some (decoder', None, Some (ErrReadingByteArray err))
  | Return None (decoder', res') => Some (decoder', Some res', None)
  end.

(** [for i := 0; i < size; i++]: [count] iterations still to run. *)
Fixpoint DecodeInt32Array_loop (count : nat) (i : nat)
    (decoder : EbpfDecoder) (msg : list Z)
  : outcome (EbpfDecoder * list Z) :=
  match count with
  | O => Return None (decoder, msg)
  | S count' =>
      let! v := slice (buffer decoder) (cursor decoder) (cursor decoder + 4)
                ≫= binary.LittleEndian_Uint32 in
      let! _ := msg !! i in
      DecodeInt32Array_loop count' (S i)
        (set_cursor decoder (cursor decoder + 4)) (<[i := int32 v]> msg)
  end.

Definition DecodeInt32Array (decoder : EbpfDecoder) (msg : list Z) (size : Z)
  : outcome (EbpfDecoder * list Z) :=
  let offset := cursor decoder in
  let! rest := slice_from (buffer decoder) offset in
  if len rest <? int_mul size 4 then
    let! e := makeBufferTooShortError decoder "[]int32" (int_mul size 4) in
    Return (Some e) (decoder, msg)
  else DecodeInt32Array_loop (Z.to_nat size) 0 decoder msg.

(** *** Composite records

    The record types and their [GetSizeBytes] methods are declared
    outside the files at hand.  The fields are the ones the decoders
    assign; each decoder takes its record's [GetSizeBytes] as an
    argument. *)
Record SlimCred : Type := {
  SlimCred_Uid : Z;
  SlimCred_Gid : Z;
  SlimCred_Suid : Z;
  SlimCred_Sgid : Z;
  SlimCred_Euid : Z;
  SlimCred_Egid : Z;
  SlimCred_Fsuid : Z;
  SlimCred_Fsgid : Z;
  SlimCred_UserNamespace : Z;
  SlimCred_SecureBits : Z;
  SlimCred_CapInheritable : Z;
  SlimCred_CapPermitted : Z;
  SlimCred_CapEffective : Z;
  SlimCred_CapBounding : Z;
  SlimCred_CapAmbient : Z;
}.

Definition DecodeSlimCred (GetSizeBytes : SlimCred -> Z)
    (decoder : EbpfDecoder) (slimCred : SlimCred)
  : outcome (EbpfDecoder * SlimCred) :=
  let offset := cursor decoder in
  let buf := buffer decoder in
  let! rest := slice_from buf offset in
  if len rest <? 80 then
    let! e := makeBufferTooShortError decoder "slimCred" 80 in
    Return (Some e) (decoder, slimCred)
  else
    let! uid := slice buf offset (offset + 4)
                ≫= binary.LittleEndian_Uint32 in
    let! gid := slice buf (offset + 4) (offset + 8)
                ≫= binary.LittleEndian_Uint32 in
    let! suid := slice buf (offset + 8) (offset + 12)
                ≫= binary.LittleEndian_Uint32 in
    let! sgid := slice buf (offset + 12) (offset + 16)
                ≫= binary.LittleEndian_Uint32 in
    let! euid := slice buf (offset + 16) (offset + 20)
                ≫= binary.LittleEndian_Uint32 in
    let! egid := slice buf (offset + 20) (offset + 24)
                ≫= binary.LittleEndian_Uint32 in
    let! fsuid := slice buf (offset + 24) (offset + 28)
                ≫= binary.LittleEndian_Uint32 in
    let! fsgid := slice buf (offset + 28) (offset + 32)
                ≫= binary.LittleEndian_Uint32 in
    let! userNamespace := slice buf (offset + 32) (offset + 36)
                ≫= binary.LittleEndian_Uint32 in
    let! secureBits := slice buf (offset + 36) (offset + 40)
                ≫= binary.LittleEndian_Uint32 in
    let! capInheritable := slice buf (offset + 40) (offset + 48)
                ≫= binary.LittleEndian_Uint64 in
    let! capPermitted := slice buf (offset + 48) (offset + 56)
                ≫= binary.LittleEndian_Uint64 in
    let! capEffective := slice buf (offset + 56) (offset + 64)
                ≫= binary.LittleEndian_Uint64 in
    let! capBounding := slice buf (offset + 64) (offset + 72)
                ≫= binary.LittleEndian_Uint64 in
    let! capAmbient := slice buf (offset + 72) (offset + 80)
                ≫= binary.LittleEndian_Uint64 in
    let slimCred' :=
      {| SlimCred_Uid := uid; SlimCred_Gid := gid; SlimCred_Suid := suid;
         SlimCred_Sgid := sgid; SlimCred_Euid := euid; SlimCred_Egid := egid;
         SlimCred_Fsuid := fsuid; SlimCred_Fsgid := fsgid;
         SlimCred_UserNamespace := userNamespace;
         SlimCred_SecureBits := secureBits;
         SlimCred_CapInheritable := capInheritable;
         SlimCred_CapPermitted := capPermitted;
         SlimCred_CapEffective := capEffective;
         SlimCred_CapBounding := capBounding;
         SlimCred_CapAmbient := capAmbient |} in
    Return None
      (set_cursor decoder (cursor decoder + GetSizeBytes slimCred'),
       slimCred').

Record ChunkMeta : Type := {
  ChunkMeta_BinType : Z;            (* BinType, a byte *)
  ChunkMeta_CgroupID : Z;
  ChunkMeta_Metadata : list byte;   (* [28]byte *)
  ChunkMeta_Size : Z;
  ChunkMeta_Off : Z;
}.

Definition DecodeChunkMeta (GetSizeBytes : ChunkMeta -> Z)
    (decoder : EbpfDecoder) (chunkMeta : ChunkMeta)
  : outcome (EbpfDecoder * ChunkMeta) :=
  let offset := cursor decoder in
  let buf := buffer decoder in
  let! rest := slice_from buf offset in
  if len rest <? GetSizeBytes chunkMeta then
    let! e := makeBufferTooShortError decoder "chunkMeta"
                (GetSizeBytes chunkMeta) in
    Return (Some e) (decoder, chunkMeta)
  else
    let! binType := index buf offset in
    let! cgroupID := slice buf (offset + 1) (offset + 9)
                ≫= binary.LittleEndian_Uint64 in
    let! metadata := slice buf (offset + 9) (offset + 37) in
    let! size := slice buf (offset + 37) (offset + 41)
                ≫= binary.LittleEndian_Uint32 in
    let! off := slice buf (offset + 41) (offset + 49)
                ≫= binary.LittleEndian_Uint64 in
    let chunkMeta' :=
      {| ChunkMeta_BinType := u8 binType;
         ChunkMeta_CgroupID := cgroupID;
         ChunkMeta_Metadata := copy (ChunkMeta_Metadata chunkMeta) metadata;
         ChunkMeta_Size := int32 size;
         ChunkMeta_Off := off |} in
    Return None
      (set_cursor decoder (cursor decoder + GetSizeBytes chunkMeta'),
       chunkMeta').

Record VfsFileMeta : Type := {
  VfsFileMeta_DevID : Z;
  VfsFileMeta_Inode : Z;
  VfsFileMeta_Mode : Z;
  VfsFileMeta_Pid : Z;
}.

Definition DecodeVfsFileMeta (GetSizeBytes : VfsFileMeta -> Z)
    (decoder : EbpfDecoder) (vfsFileMeta : VfsFileMeta)
  : outcome (EbpfDecoder * VfsFileMeta) :=
  let offset := cursor decoder in
  let buf := buffer decoder in
  let! rest := slice_from buf offset in
  if len rest <? GetSizeBytes vfsFileMeta then
    let! e := makeBufferTooShortError decoder "vfsFileMeta"
                (GetSizeBytes vfsFileMeta) in
    Return (Some e) (decoder, vfsFileMeta)
  else
    let! devID := slice buf offset (offset + 4)
                ≫= binary.LittleEndian_Uint32 in
    let! inode := slice buf (offset + 4) (offset + 12)
                ≫= binary.LittleEndian_Uint64 in
    let! mode := slice buf (offset + 12) (offset + 16)
                ≫= binary.LittleEndian_Uint32 in
    let! pid := slice buf (offset + 16) (offset + 20)
                ≫= binary.LittleEndian_Uint32 in
    let vfsFileMeta' :=
      {| VfsFileMeta_DevID := devID; VfsFileMeta_Inode := inode;
         VfsFileMeta_Mode := mode; VfsFileMeta_Pid := pid |} in
    Return None
      (set_cursor decoder (cursor decoder + GetSizeBytes vfsFileMeta'),
       vfsFileMeta').

Record KernelModuleMeta : Type := {
  KernelModuleMeta_DevID : Z;
  KernelModuleMeta_Inode : Z;
  KernelModuleMeta_Pid : Z;
  KernelModuleMeta_Size : Z;
}.

Definition DecodeKernelModuleMeta (GetSizeBytes : KernelModuleMeta -> Z)
    (decoder : EbpfDecoder) (kernelModuleMeta : KernelModuleMeta)
  : outcome (EbpfDecoder * KernelModuleMeta) :=
  let offset := cursor decoder in
  let buf := buffer decoder in
  let! rest := slice_from buf offset in
  if len rest <? GetSizeBytes kernelModuleMeta then
    let! e := makeBufferTooShortError decoder "kernelModuleMeta"
                (GetSizeBytes kernelModuleMeta) in
    Return (Some e) (decoder, kernelModuleMeta)
  else
    let! devID := slice buf offset (offset + 4)
                ≫= binary.LittleEndian_Uint32 in
    let! inode := slice buf (offset + 4) (offset + 12)
                ≫= binary.LittleEndian_Uint64 in
    let! pid := slice buf (offset + 12) (offset + 16)
                ≫= binary.LittleEndian_Uint32 in
    let! size := slice buf (offset + 16) (offset + 20)
                ≫= binary.LittleEndian_Uint32 in
    let kernelModuleMeta' :=
      {| KernelModuleMeta_DevID := devID; KernelModuleMeta_Inode := inode;
         KernelModuleMeta_Pid := pid; KernelModuleMeta_Size := size |} in
    Return None
      (set_cursor decoder
         (cursor decoder + GetSizeBytes kernelModuleMeta'),
       kernelModuleMeta').

Record BpfObjectMeta : Type := {
  BpfObjectMeta_Name : list byte;   (* [16]byte *)
  BpfObjectMeta_Rand : Z;
  BpfObjectMeta_Pid : Z;
  BpfObjectMeta_Size : Z;
}.

Definition DecodeBpfObjectMeta (GetSizeBytes : BpfObjectMeta -> Z)
    (decoder : EbpfDecoder) (bpfObjectMeta : BpfObjectMeta)
  : outcome (EbpfDecoder * BpfObjectMeta) :=
  let offset := cursor decoder in
  let buf := buffer decoder in
  let! rest := slice_from buf offset in
  if len rest <? GetSizeBytes bpfObjectMeta then
    let! e := makeBufferTooShortError decoder "bpfObjectMeta"
                (GetSizeBytes bpfObjectMeta) in
    Return (Some e) (decoder, bpfObjectMeta)
  else
    let! name := slice buf offset (offset + 16) in
    let! rand := slice buf (offset + 16) (offset + 20)
                ≫= binary.LittleEndian_Uint32 in
    let! pid := slice buf (offset + 20) (offset + 24)
                ≫= binary.LittleEndian_Uint32 in
    let! size := slice buf (offset + 24) (offset + 28)
                ≫= binary.LittleEndian_Uint32 in
    let bpfObjectMeta' :=
      {| BpfObjectMeta_Name := copy (BpfObjectMeta_Name bpfObjectMeta) name;
         BpfObjectMeta_Rand := rand; BpfObjectMeta_Pid := pid;
         BpfObjectMeta_Size := size |} in
    Return None
      (set_cursor decoder (cursor decoder + GetSizeBytes bpfObjectMeta'),
       bpfObjectMeta').

Record MprotectWriteMeta : Type := {
  MprotectWriteMeta_Ts : Z;
  MprotectWriteMeta_Pid : Z;
}.

Definition DecodeMprotectWriteMeta (GetSizeBytes : MprotectWriteMeta -> Z)
    (decoder : EbpfDecoder) (mprotectWriteMeta : MprotectWriteMeta)
  : outcome (EbpfDecoder * MprotectWriteMeta) :=
  let offset := cursor decoder in
  let buf := buffer decoder in
  let! rest := slice_from buf offset in
  if len rest <? GetSizeBytes mprotectWriteMeta then
    let! e := makeBufferTooShortError decoder "mprotectWriteMeta"
                (GetSizeBytes mprotectWriteMeta) in
    Return (Some e) (decoder, mprotectWriteMeta)
  else
    let! ts := slice buf offset (offset + 8)
                ≫= binary.LittleEndian_Uint64 in
    let! pid := slice buf (offset + 8) (offset + 12)
                ≫= binary.LittleEndian_Uint32 in
    let mprotectWriteMeta' :=
      {| MprotectWriteMeta_Ts := ts; MprotectWriteMeta_Pid := pid |} in
    Return None
      (set_cursor decoder
         (cursor decoder + GetSizeBytes mprotectWriteMeta'),
       mprotectWriteMeta').

(** *** Specification side *)

(** The [m] consecutive little-endian signed 32-bit values of [buf] from
    offset [off] on. *)
Fixpoint int32s_at (buf : list byte) (off : Z) (m : nat) : list Z :=
  match m with
  | O => []
  | S m' =>
      to_signed 32 (le_value (bytes_at buf off 4))
      :: int32s_at buf (off + 4) m'
  end.

(** The records read off a buffer at offset [off], field by field. *)
Definition slimCred_at (buf : list byte) (off : Z) : SlimCred :=
  {| SlimCred_Uid := le_value (bytes_at buf (off + 0) 4);
     SlimCred_Gid := le_value (bytes_at buf (off + 4) 4);
     SlimCred_Suid := le_value (bytes_at buf (off + 8) 4);
     SlimCred_Sgid := le_value (bytes_at buf (off + 12) 4);
     SlimCred_Euid := le_value (bytes_at buf (off + 16) 4);
     SlimCred_Egid := le_value (bytes_at buf (off + 20) 4);
     SlimCred_Fsuid := le_value (bytes_at buf (off + 24) 4);
     SlimCred_Fsgid := le_value (bytes_at buf (off + 28) 4);
     SlimCred_UserNamespace := le_value (bytes_at buf (off + 32) 4);
     SlimCred_SecureBits := le_value (bytes_at buf (off + 36) 4);
     SlimCred_CapInheritable := le_value (bytes_at buf (off + 40) 8);
     SlimCred_CapPermitted := le_value (bytes_at buf (off + 48) 8);
     SlimCred_CapEffective := le_value (bytes_at buf (off + 56) 8);
     SlimCred_CapBounding := le_value (bytes_at buf (off + 64) 8);
     SlimCred_CapAmbient := le_value (bytes_at buf (off + 72) 8) |}.

Definition chunkMeta_at (buf : list byte) (off : Z) : ChunkMeta :=
  {| ChunkMeta_BinType := le_value (bytes_at buf (off + 0) 1);
     ChunkMeta_CgroupID := le_value (bytes_at buf (off + 1) 8);
     ChunkMeta_Metadata := bytes_at buf (off + 9) 28;
     ChunkMeta_Size := to_signed 32 (le_value (bytes_at buf (off + 37) 4));
     ChunkMeta_Off := le_value (bytes_at buf (off + 41) 8) |}.

Definition vfsFileMeta_at (buf : list byte) (off : Z) : VfsFileMeta :=
  {| VfsFileMeta_DevID := le_value (bytes_at buf (off + 0) 4);
     VfsFileMeta_Inode := le_value (bytes_at buf (off + 4) 8);
     VfsFileMeta_Mode := le_value (bytes_at buf (off + 12) 4);
     VfsFileMeta_Pid := le_value (bytes_at buf (off + 16) 4) |}.

Definition kernelModuleMeta_at (buf : list byte) (off : Z)
  : KernelModuleMeta :=
  {| KernelModuleMeta_DevID := le_value (bytes_at buf (off + 0) 4);
     KernelModuleMeta_Inode := le_value (bytes_at buf (off + 4) 8);
     KernelModuleMeta_Pid := le_value (bytes_at buf (off + 12) 4);
     KernelModuleMeta_Size := le_value (bytes_at buf (off + 16) 4) |}.

Definition bpfObjectMeta_at (buf : list byte) (off : Z) : BpfObjectMeta :=
  {| BpfObjectMeta_Name := bytes_at buf (off + 0) 16;
     BpfObjectMeta_Rand := le_value (bytes_at buf (off + 16) 4);
     BpfObjectMeta_Pid := le_value (bytes_at buf (off + 20) 4);
     BpfObjectMeta_Size := le_value (bytes_at buf (off + 24) 4) |}.

Definition mprotectWriteMeta_at (buf : list byte) (off : Z)
  : MprotectWriteMeta :=
  {| MprotectWriteMeta_Ts := le_value (bytes_at buf (off + 0) 8);
     MprotectWriteMeta_Pid := le_value (bytes_at buf (off + 8) 4) |}.

(** What every decoder of this package keeps: the buffer is the same,
    the cursor has not moved back, and it still lies in the buffer. *)
Definition advanced (d d' : EbpfDecoder) : Prop :=
  buffer d' = buffer d /\ typeDecoder d' = typeDecoder d /\
  cursor d <= cursor d' /\ in_bounds d'.

(** An outcome that is a return (with or without error) into a state
    satisfying [P]. *)
Definition returns {S : Type} (P : S -> Prop) (o : outcome S) : Prop :=
  match o with
  | Return _ s => P s
  | Panicked => False
  end.

End bufferdecoder_ext.

(** ** Argument assembly in general (specification side) *)
Module assembly.
Import bufferdecoder.

(** The argument the stream supplied last for schema index [i]: a read
    that returned an error supplies nothing, and a later read of the same
    index replaces an earlier one. *)
Fixpoint last_supplied (i : nat)
    (rs : list (nat * trace.Argument * option error))
  : option trace.Argument :=
  match rs with
  | [] => None
  | r :: rs' =>
      match last_supplied i rs' with
      | Some a => Some a
      | None =>
          match r.2 with
          | Some _ => None
          | None => if Nat.eqb r.1.1 i then Some r.1.2 else None
          end
      end
  end.

(** Every read that returned no error names an index below [n]. *)
Definition reads_in_range (n : nat)
    (rs : list (nat * trace.Argument * option error)) : bool :=
  forallb (fun r => match r.2 with
                    | Some _ => true
                    | None => (r.1.1 <? n)%nat
                    end) rs.

(** The slot of schema field [f] after assembly, given what the stream
    supplied for it. *)
Definition assembled_slot (f : events.DataField)
    (supplied : option trace.Argument) : trace.Argument :=
  match supplied with
  | Some a => if is_nil (trace.Value a) then zero_slot f else a
  | None => zero_slot f
  end.

End assembly.

(** ** package events: looking up and setting arguments *)
Module events_args.
Import derive.

(** [arg.Name], the promoted field of the embedded [ArgMeta]. *)
Definition arg_Name (a : trace.Argument) : string :=
  trace.Name (trace.Argument_ArgMeta a).

(** [arg.Value = v] *)
Definition set_Value (v : any) (a : trace.Argument) : trace.Argument :=
  {| trace.Argument_ArgMeta := trace.Argument_ArgMeta a; trace.Value := v |}.

(** [GetArg] returns a pointer to an element of [args]; the element's
    index stands for the pointer, [None] for nil. *)
Fixpoint GetArg_range (i : nat) (rest : list trace.Argument)
    (argName : string) : option nat :=
  match rest with
  | [] => None
  | a :: rest' =>
      if String.eqb (arg_Name a) argName then Some i
      else GetArg_range (S i) rest' argName
  end.

Definition GetArg (args : list trace.Argument) (argName : string)
  : option nat :=
  GetArg_range 0 args argName.

(** The errors of this file, one constructor per format string:
    "event %s has no argument named %s", "couldn't find argument %s",
    "argument %s is not uint64, it is %T". *)
Inductive args_error : Type :=
| ErrNoArgumentNamed (eventName argName : string)
| ErrCouldntFindArgument (argName : string)
| ErrNotUint64 (argName : string) (value : any).

Definition SetArgValue (event : Event) (argName : string) (value : any)
  : Event * option args_error :=
  match GetArg (Args event) argName with
  | None => (event, Some (ErrNoArgumentNamed (EventName event) argName))
  | Some i =>
      (set_Args (alter (set_Value value) i (Args event)) event, None)
  end.

(** [for i := range timeArgNames].  [BootToEpochNS] is declared outside
    the files at hand and is an argument here; the argument found is read
    and written through its index. *)
Fixpoint NormalizeTimeArgs (BootToEpochNS : Z -> Z)
    (args : list trace.Argument) (timeArgNames : list string)
  : list trace.Argument * option args_error :=
  match timeArgNames with
  | [] => (args, None)
  | name :: rest =>
      match GetArg args name with
      | None => (args, Some (ErrCouldntFindArgument name))
      | Some i =>
          match trace.Value <$> args !! i with
          | Some any_nil | None =>
              NormalizeTimeArgs BootToEpochNS args rest
          | Some (any_uint64 argTime) =>
              NormalizeTimeArgs BootToEpochNS
                (alter (set_Value (any_uint64 (BootToEpochNS argTime))) i args)
                rest
          | Some v => (args, Some (ErrNotUint64 name v))
          end
      end
  end.

(** Specification side: what [NormalizeTimeArgs] does to one argument. *)
Definition normalized (BootToEpochNS : Z -> Z) (a : trace.Argument)
  : trace.Argument :=
  match trace.Value a with
  | any_uint64 t => set_Value (any_uint64 (BootToEpochNS t)) a
  | _ => a
  end.

(** An argument [NormalizeTimeArgs] accepts: a uint64 or nil. *)
Definition is_time_value (v : any) : bool :=
  match v with
  | any_nil | any_uint64 _ => true
  | _ => false
  end.

(** Every name of [names] is found in [args], at an argument holding a
    uint64 or nil. *)
Definition time_args_ok (args : list trace.Argument) (names : list string)
  : bool :=
  forallb (fun name =>
             match GetArg args name with
             | Some i =>
                 match args !! i with
                 | Some a => is_time_value (trace.Value a)
                 | None => false
                 end
             | None => false
             end) names.

End events_args.

(** ** Concrete inputs for the further decoders and the argument helpers *)
Module ext_examples.
Import bufferdecoder bufferdecoder_ext derive events_args.

(** One byte remains: too few for a count. *)
Definition decoder_one_left : EbpfDecoder :=
  {| buffer := examples.bytes_of [1; 2; 3]; cursor := 2; typeDecoder := [] |}.

(** A count of two 64-bit elements, the elements 1 and 256, and one byte
    of what follows. *)
Definition decoder_full_array : EbpfDecoder :=
  {| buffer := examples.bytes_of [2; 0; 1; 0; 0; 0; 0; 0; 0; 0;
                                  0; 1; 0; 0; 0; 0; 0; 0; 9];
     cursor := 0; typeDecoder := [] |}.

(** Field 2 on the wire twice, with values 7 and 9. *)
Definition decoder_repeated_arg : EbpfDecoder :=
  {| buffer := examples.bytes_of [2; 7; 2; 9]; cursor := 0;
     typeDecoder := [] |}.

Definition zeroSlimCred : SlimCred :=
  {| SlimCred_Uid := 0; SlimCred_Gid := 0; SlimCred_Suid := 0;
     SlimCred_Sgid := 0; SlimCred_Euid := 0; SlimCred_Egid := 0;
     SlimCred_Fsuid := 0; SlimCred_Fsgid := 0; SlimCred_UserNamespace := 0;
     SlimCred_SecureBits := 0; SlimCred_CapInheritable := 0;
     SlimCred_CapPermitted := 0; SlimCred_CapEffective := 0;
     SlimCred_CapBounding := 0; SlimCred_CapAmbient := 0 |}.

Definition zeroChunkMeta : ChunkMeta :=
  {| ChunkMeta_BinType := 0; ChunkMeta_CgroupID := 0;
     ChunkMeta_Metadata := replicate 28 Byte.x00; ChunkMeta_Size := 0;
     ChunkMeta_Off := 0 |}.

Definition zeroVfsFileMeta : VfsFileMeta :=
  {| VfsFileMeta_DevID := 0; VfsFileMeta_Inode := 0; VfsFileMeta_Mode := 0;
     VfsFileMeta_Pid := 0 |}.

Definition zeroKernelModuleMeta : KernelModuleMeta :=
  {| KernelModuleMeta_DevID := 0; KernelModuleMeta_Inode := 0;
     KernelModuleMeta_Pid := 0; KernelModuleMeta_Size := 0 |}.

Definition zeroBpfObjectMeta : BpfObjectMeta :=
  {| BpfObjectMeta_Name := replicate 16 Byte.x00; BpfObjectMeta_Rand := 0;
     BpfObjectMeta_Pid := 0; BpfObjectMeta_Size := 0 |}.

Definition zeroMprotectWriteMeta : MprotectWriteMeta :=
  {| MprotectWriteMeta_Ts := 0; MprotectWriteMeta_Pid := 0 |}.

(** A record of twenty bytes: 0x04030201, 0x0c0b0a0908070605, 0x100f0e0d,
    0x14131211, behind one byte already read. *)
Definition decoder_at_record : EbpfDecoder :=
  {| buffer := examples.bytes_of [255; 1; 2; 3; 4; 5; 6; 7; 8; 9; 10; 11; 12;
                                  13; 14; 15; 16; 17; 18; 19; 20];
     cursor := 1; typeDecoder := [] |}.

(** A rule that is registered and switched off. *)
Definition switchedOff : entry :=
  {| entry_DeriveFunction :=
       fun e => ret ([], [errors_New "derive error"]);
     Enabled := fun _ => false |}.

Definition switchedOffTable : Table :=
  {[ derive_examples.testEventID :=
       {[ derive_examples.failEventID := switchedOff ]} ]}.

(** A rule for one event: two values and an error besides. *)
Definition values_and_error : deriveArgsFunction :=
  fun event =>
    ret (Some [any_int 1; any_int 2], Some (errors_New "partial")).

(** Arguments with a name that occurs twice. *)
Definition time_args : list trace.Argument :=
  [ {| trace.Argument_ArgMeta :=
         {| trace.Name := "ts"; trace.Type_ := "unsigned long" |};
       trace.Value := any_uint64 5 |};
    {| trace.Argument_ArgMeta :=
         {| trace.Name := "pid"; trace.Type_ := "int" |};
       trace.Value := any_int 3 |};
    {| trace.Argument_ArgMeta :=
         {| trace.Name := "ts"; trace.Type_ := "unsigned long" |};
       trace.Value := any_uint64 7 |};
    {| trace.Argument_ArgMeta :=
         {| trace.Name := "start"; trace.Type_ := "unsigned long" |};
       trace.Value := any_nil |} ].

(** A stand-in for [BootToEpochNS]: the boot time is 1000. *)
Definition bootPlus (t : Z) : Z := t + 1000.

End ext_examples.

(** ** package cobra: configuration values as command-line flags *)
Module cobra.

(** [fmt.Sprintf("%v", b)] for a bool. *)
Definition fmt_bool (b : bool) : string :=
  if b then "true" else "false".

Record CgroupfsConfig : Type := {
  Path : string;
  Force : bool;
}.

Record SocketConfig : Type := {
  Runtime : string;
  Socket : string;
}.

(** [Enrich *bool]: [None] is the nil pointer. *)
Record ContainerConfig : Type := {
  Enrich : option bool;
  Sockets : list SocketConfig;
  Cgroupfs : CgroupfsConfig;
}.

Definition SocketConfig_flags (c : SocketConfig) : list string :=
  let flags : list string := [] in
  if negb (String.eqb (Runtime c) "") && negb (String.eqb (Socket c) "")
  then flags ++ ["sockets." +:+ Runtime c +:+ "=" +:+ Socket c]
  else flags.

Definition ContainerConfig_flags (c : ContainerConfig) : list string :=
  let flags : list string := [] in
  let flags :=
    match Enrich c with
    | None => flags ++ ["enrich=true"]
    | Some true => flags ++ ["enrich=true"]
    | Some false => flags ++ ["enrich=false"]
    end in
  let flags :=
    if negb (String.eqb (Path (Cgroupfs c)) "")
    then flags ++ ["cgroupfs.path=" +:+ Path (Cgroupfs c)]
    else flags in
  let flags :=
    if Force (Cgroupfs c) then flags ++ ["cgroupfs.force=true"] else flags in
  fold_left (fun flags socket => flags ++ SocketConfig_flags socket)
    (Sockets c) flags.

Record CapabilitiesConfig : Type := {
  Bypass : bool;
  CapabilitiesConfig_Add : list string;
  CapabilitiesConfig_Drop : list string;
}.

Definition CapabilitiesConfig_flags (c : CapabilitiesConfig) : list string :=
  let flags : list string := [] in
  let flags := flags ++ ["bypass=" +:+ fmt_bool (Bypass c)] in
  let flags :=
    fold_left (fun flags cap => flags ++ ["add=" +:+ cap])
      (CapabilitiesConfig_Add c) flags in
  let flags :=
    fold_left (fun flags cap => flags ++ ["drop=" +:+ cap])
      (CapabilitiesConfig_Drop c) flags in
  flags.

(** Specification side: a socket entry that names both a runtime and a
    socket. *)
Definition complete (s : SocketConfig) : bool :=
  negb (String.eqb (Runtime s) "") && negb (String.eqb (Socket s) "").

(** Examples: a runtime without a socket between two complete entries. *)
Definition sample_containers : ContainerConfig :=
  {| Enrich := None;
     Sockets := [ {| Runtime := "docker"; Socket := "/var/run/docker.sock" |};
                  {| Runtime := "crio"; Socket := "" |};
                  {| Runtime := "podman"; Socket := "/run/podman.sock" |} ];
     Cgroupfs := {| Path := "/sys/fs/cgroup"; Force := false |} |}.

End cobra.

(** * Properties *)

(** ** Bytes, slices and byte order *)
Section Bytes.

Lemma u8_range (b : byte) : 0 <= u8 b < 256.
Proof.
  unfold u8. pose proof (Byte.to_N_bounded b) as Hb. lia.
Qed.

Lemma lor_shiftl_add (a b k : Z) :
  0 <= k -> 0 <= a < 2 ^ k -> Z.lor a (Z.shiftl b k) = a + b * 2 ^ k.
Proof.
  intros Hk Ha.
  rewrite Z.shiftl_mul_pow2 by assumption.
  assert (Hland : Z.land a (b * 2 ^ k) = 0).
  { apply Z.bits_inj'. intros n Hn.
    rewrite Z.land_spec, Z.bits_0.
    destruct (Z.lt_ge_cases n k) as [Hlt | Hge].
    - rewrite Z.mul_pow2_bits_low by assumption. apply andb_false_r.
    - destruct (Z.eq_dec a 0) as [-> | Hne].
      + now rewrite Z.bits_0.
      + rewrite Z.bits_above_log2; [reflexivity | lia |].
        apply Z.log2_lt_pow2; [lia |].
        eapply Z.lt_le_trans; [apply Ha |].
        apply Z.pow_le_mono_r; lia. }
  rewrite <- Z.lxor_lor by assumption.
  symmetry. apply Z.add_nocarry_lxor. assumption.
Qed.

Lemma len_nonneg {A : Type} (s : list A) : 0 <= len s.
Proof. unfold len. lia. Qed.

Lemma slice_from_in_range {A : Type} (s : list A) (lo : Z) :
  0 <= lo <= len s -> slice_from s lo = Some (drop (Z.to_nat lo) s).
Proof.
  intros [H0 H1]. unfold slice_from.
  apply Z.leb_le in H0, H1. now rewrite H0, H1.
Qed.

Lemma slice_from_out_of_range {A : Type} (s : list A) (lo : Z) :
  lo < 0 \/ len s < lo -> slice_from s lo = None.
Proof.
  intros H. unfold slice_from.
  destruct (Z.leb_spec 0 lo), (Z.leb_spec lo (len s)); simpl; try reflexivity.
  lia.
Qed.

Lemma len_drop {A : Type} (s : list A) (lo : Z) :
  0 <= lo <= len s -> len (drop (Z.to_nat lo) s) = len s - lo.
Proof.
  intros H. unfold len in *. rewrite length_drop. lia.
Qed.

Lemma slice_in_range (s : list byte) (lo hi : Z) :
  0 <= lo -> lo <= hi -> hi <= len s ->
  slice s lo hi = Some (bytes_at s lo (Z.to_nat (hi - lo))).
Proof.
  intros H0 H1 H2. unfold slice, bytes_at.
  apply Z.leb_le in H0, H1, H2. now rewrite H0, H1, H2.
Qed.

Lemma length_bytes_at (s : list byte) (off : Z) (w : nat) :
  0 <= off -> off + Z.of_nat w <= len s -> length (bytes_at s off w) = w.
Proof.
  intros H0 H1. unfold bytes_at, len in *.
  rewrite length_take, length_drop. lia.
Qed.

Lemma index_in_range (s : list byte) (i : Z) :
  0 <= i < len s -> exists b, index s i = Some b /\ bytes_at s i 1 = [b].
Proof.
  intros [H0 H1]. unfold index, bytes_at.
  apply Z.leb_le in H0 as H0'. rewrite H0'.
  destruct (lookup_lt_is_Some_2 s (Z.to_nat i)) as [b Hb].
  { unfold len in H1. lia. }
  exists b. split; [assumption |].
  rewrite (drop_S _ _ _ Hb). reflexivity.
Qed.

Lemma LittleEndian_Uint16_value (b : list byte) :
  length b = 2%nat -> binary.LittleEndian_Uint16 b = Some (le_value b).
Proof.
  destruct b as [| b0 [| b1 [| ? ?]]]; try discriminate. intros _.
  pose proof (u8_range b0). pose proof (u8_range b1).
  cbn [binary.LittleEndian_Uint16 le_value]. f_equal.
  rewrite lor_shiftl_add by lia. lia.
Qed.

Lemma BigEndian_Uint16_value (b : list byte) :
  length b = 2%nat -> binary.BigEndian_Uint16 b = Some (be_value b).
Proof.
  destruct b as [| b0 [| b1 [| ? ?]]]; try discriminate. intros _.
  pose proof (u8_range b0). pose proof (u8_range b1).
  unfold be_value. cbn [binary.BigEndian_Uint16 rev app le_value]. f_equal.
  rewrite lor_shiftl_add by lia. lia.
Qed.

Lemma LittleEndian_Uint32_value (b : list byte) :
  length b = 4%nat -> binary.LittleEndian_Uint32 b = Some (le_value b).
Proof.
  destruct b as [| b0 [| b1 [| b2 [| b3 [| ? ?]]]]]; try discriminate.
  intros _.
  pose proof (u8_range b0). pose proof (u8_range b1).
  pose proof (u8_range b2). pose proof (u8_range b3).
  cbn [binary.LittleEndian_Uint32 le_value]. f_equal.
  rewrite (lor_shiftl_add _ _ 8) by lia.
  rewrite (lor_shiftl_add _ _ 16) by lia.
  rewrite (lor_shiftl_add _ _ 24) by lia.
  lia.
Qed.

Lemma BigEndian_Uint32_value (b : list byte) :
  length b = 4%nat -> binary.BigEndian_Uint32 b = Some (be_value b).
Proof.
  destruct b as [| b0 [| b1 [| b2 [| b3 [| ? ?]]]]]; try discriminate.
  intros _.
  pose proof (u8_range b0). pose proof (u8_range b1).
  pose proof (u8_range b2). pose proof (u8_range b3).
  unfold be_value. cbn [binary.BigEndian_Uint32 rev app le_value]. f_equal.
  rewrite (lor_shiftl_add _ _ 8) by lia.
  rewrite (lor_shiftl_add _ _ 16) by lia.
  rewrite (lor_shiftl_add _ _ 24) by lia.
  lia.
Qed.

Lemma LittleEndian_Uint64_value (b : list byte) :
  length b = 8%nat -> binary.LittleEndian_Uint64 b = Some (le_value b).
Proof.
  destruct b as [| b0 [| b1 [| b2 [| b3 [| b4 [| b5 [| b6 [| b7 [| ? ?]]]]]]]]];
    try discriminate.
  intros _.
  pose proof (u8_range b0). pose proof (u8_range b1).
  pose proof (u8_range b2). pose proof (u8_range b3).
  pose proof (u8_range b4). pose proof (u8_range b5).
  pose proof (u8_range b6). pose proof (u8_range b7).
  cbn [binary.LittleEndian_Uint64 le_value]. f_equal.
  rewrite (lor_shiftl_add _ _ 8) by lia.
  rewrite (lor_shiftl_add _ _ 16) by lia.
  rewrite (lor_shiftl_add _ _ 24) by lia.
  rewrite (lor_shiftl_add _ _ 32) by lia.
  rewrite (lor_shiftl_add _ _ 40) by lia.
  rewrite (lor_shiftl_add _ _ 48) by lia.
  rewrite (lor_shiftl_add _ _ 56) by lia.
  lia.
Qed.

End Bytes.

(** ** The fixed-width primitives *)
Section Primitives.
Import bufferdecoder.

Lemma slice_from_cursor (d : EbpfDecoder) :
  in_bounds d ->
  exists rest, slice_from (buffer d) (cursor d) = Some rest /\
               len rest = remaining d.
Proof.
  intros Hd. exists (drop (Z.to_nat (cursor d)) (buffer d)). split.
  - now apply slice_from_in_range.
  - unfold remaining. now apply len_drop.
Qed.

Lemma makeBufferTooShortError_in_bounds (d : EbpfDecoder) (name : string)
    (expected : Z) :
  in_bounds d ->
  makeBufferTooShortError d name expected
  = Some (ErrBufferTooShort expected (remaining d) name).
Proof.
  intros Hd. unfold makeBufferTooShortError.
  destruct (slice_from_cursor d Hd) as (rest & -> & <-). reflexivity.
Qed.

Lemma slice_at_cursor (d : EbpfDecoder) (w : Z) :
  in_bounds d -> 0 <= w <= remaining d ->
  slice (buffer d) (cursor d) (cursor d + w)
  = Some (bytes_at (buffer d) (cursor d) (Z.to_nat w)) /\
  length (bytes_at (buffer d) (cursor d) (Z.to_nat w)) = Z.to_nat w.
Proof.
  intros [H0 H1] [Hw0 Hw1]. unfold remaining in Hw1. split.
  - rewrite slice_in_range by lia. do 2 f_equal. lia.
  - apply length_bytes_at; lia.
Qed.

Lemma index_at_cursor (d : EbpfDecoder) :
  in_bounds d -> 1 <= remaining d ->
  exists b, index (buffer d) (cursor d) = Some b /\
            bytes_at (buffer d) (cursor d) 1 = [b].
Proof.
  intros [H0 H1] Hr. unfold remaining in Hr.
  apply index_in_range. lia.
Qed.

Lemma le_value_single (b : byte) : le_value [b] = u8 b.
Proof. cbn [le_value]. lia. Qed.

(** The steps every primitive shares: the slice at the cursor, the
    comparison against the width, and the error value. *)
Ltac primitive_prelude d Hd :=
  unfold fixed_width_result;
  let rest := fresh "rest" in
  let Hlen := fresh "Hlen" in
  destruct (slice_from_cursor d Hd) as (rest & -> & Hlen);
  rewrite Hlen;
  match goal with
  | |- context [remaining d <? ?w] =>
      destruct (Z.ltb_spec (remaining d) w) as [Hshort | Hlong]
  end;
  [ rewrite (makeBufferTooShortError_in_bounds d _ _ Hd); reflexivity | ].

Ltac primitive_multibyte d Hd value_lemma :=
  primitive_prelude d Hd;
  match goal with
  | Hlong : (?w <= remaining d)%Z |- _ =>
      destruct (slice_at_cursor d w Hd ltac:(lia)) as [-> Hw];
      cbn [mbind option_bind]; rewrite value_lemma by exact Hw; reflexivity
  end.

Ltac primitive_byte d Hd :=
  primitive_prelude d Hd;
  let b := fresh "b" in
  change (Z.to_nat 1) with 1%nat;
  destruct (index_at_cursor d Hd ltac:(lia)) as (b & -> & ->);
  rewrite le_value_single; reflexivity.

Lemma DecodeUint8_spec (d : EbpfDecoder) (msg : Z) :
  in_bounds d ->
  DecodeUint8 d msg = fixed_width_result 1 "uint8" le_value d msg.
Proof. intros Hd. unfold DecodeUint8. primitive_byte d Hd. Qed.

Lemma DecodeInt8_spec (d : EbpfDecoder) (msg : Z) :
  in_bounds d ->
  DecodeInt8 d msg
  = fixed_width_result 1 "int8" (fun bs => int8 (le_value bs)) d msg.
Proof. intros Hd. unfold DecodeInt8. primitive_byte d Hd. Qed.

Lemma DecodeBool_spec (d : EbpfDecoder) (msg : bool) :
  in_bounds d ->
  DecodeBool d msg
  = fixed_width_result 1 "bool" (fun bs => negb (le_value bs =? 0)) d msg.
Proof. intros Hd. unfold DecodeBool. primitive_byte d Hd. Qed.

Lemma DecodeUint16_spec (d : EbpfDecoder) (msg : Z) :
  in_bounds d ->
  DecodeUint16 d msg = fixed_width_result 2 "uint16" le_value d msg.
Proof.
  intros Hd. unfold DecodeUint16.
  primitive_multibyte d Hd LittleEndian_Uint16_value.
Qed.

Lemma DecodeUint16BigEndian_spec (d : EbpfDecoder) (msg : Z) :
  in_bounds d ->
  DecodeUint16BigEndian d msg
  = fixed_width_result 2 "uint16" be_value d msg.
Proof.
  intros Hd. unfold DecodeUint16BigEndian.
  primitive_multibyte d Hd BigEndian_Uint16_value.
Qed.

Lemma DecodeInt16_spec (d : EbpfDecoder) (msg : Z) :
  in_bounds d ->
  DecodeInt16 d msg
  = fixed_width_result 2 "int16" (fun bs => int16 (le_value bs)) d msg.
Proof.
  intros Hd. unfold DecodeInt16.
  primitive_multibyte d Hd LittleEndian_Uint16_value.
Qed.

Lemma DecodeUint32_spec (d : EbpfDecoder) (msg : Z) :
  in_bounds d ->
  DecodeUint32 d msg = fixed_width_result 4 "uint32" le_value d msg.
Proof.
  intros Hd. unfold DecodeUint32.
  primitive_multibyte d Hd LittleEndian_Uint32_value.
Qed.

Lemma DecodeUint32BigEndian_spec (d : EbpfDecoder) (msg : Z) :
  in_bounds d ->
  DecodeUint32BigEndian d msg
  = fixed_width_result 4 "uint32 (big endian)" be_value d msg.
Proof.
  intros Hd. unfold DecodeUint32BigEndian.
  primitive_multibyte d Hd BigEndian_Uint32_value.
Qed.

Lemma DecodeInt32_spec (d : EbpfDecoder) (msg : Z) :
  in_bounds d ->
  DecodeInt32 d msg
  = fixed_width_result 4 "int32" (fun bs => int32 (le_value bs)) d msg.
Proof.
  intros Hd. unfold DecodeInt32.
  primitive_multibyte d Hd LittleEndian_Uint32_value.
Qed.

Lemma DecodeUint64_spec (d : EbpfDecoder) (msg : Z) :
  in_bounds d ->
  DecodeUint64 d msg = fixed_width_result 8 "uint64" le_value d msg.
Proof.
  intros Hd. unfold DecodeUint64.
  primitive_multibyte d Hd LittleEndian_Uint64_value.
Qed.

Lemma DecodeInt64_spec (d : EbpfDecoder) (msg : Z) :
  in_bounds d ->
  DecodeInt64 d msg
  = fixed_width_result 8 "int64" (fun bs => int64 (le_value bs)) d msg.
Proof.
  intros Hd. unfold DecodeInt64.
  primitive_multibyte d Hd LittleEndian_Uint64_value.
Qed.

End Primitives.

(** ** Cursor movement and the length-prefixed array *)
Section Cursor.
Import bufferdecoder.

Lemma wrap_int_in_range (z : Z) : min_int <= z <= max_int -> wrap_int z = z.
Proof.
  unfold wrap_int, min_int, max_int. intros Hz.
  rewrite Z.mod_small; lia.
Qed.

Lemma set_cursor_same (d : EbpfDecoder) : set_cursor d (cursor d) = d.
Proof. now destruct d. Qed.

Lemma DecodeUint64Array_loop_spec (count : nat) :
  forall (i : Z) (d : EbpfDecoder) (msg : list Z),
    in_bounds d ->
    DecodeUint64Array_loop count i d msg
    = if 8 * Z.of_nat count <=? remaining d then
        Return None
          (set_cursor d (cursor d + 8 * Z.of_nat count),
           msg ++ uint64s_at (buffer d) (cursor d) count)
      else
        Return
          (Some (ErrArrayElement (i + remaining d / 8)
                   (ErrBufferTooShort 8 (remaining d mod 8) "uint64")))
          (set_cursor d (cursor d + 8 * (remaining d / 8)),
           msg ++ uint64s_at (buffer d) (cursor d)
                    (Z.to_nat (remaining d / 8))).
Proof.
  induction count as [| count IH]; intros i d msg Hd.
  - cbn [DecodeUint64Array_loop uint64s_at].
    assert (Hr : 0 <= remaining d) by (unfold remaining, in_bounds in *; lia).
    destruct (Z.leb_spec (8 * Z.of_nat 0) (remaining d)); [| lia].
    rewrite app_nil_r. do 2 f_equal.
    rewrite <- (set_cursor_same d) at 1. f_equal. lia.
  - cbn [DecodeUint64Array_loop].
    rewrite (DecodeUint64_spec d 0 Hd). unfold fixed_width_result.
    assert (Hr : 0 <= remaining d) by (unfold remaining, in_bounds in *; lia).
    destruct (Z.ltb_spec (remaining d) 8) as [Hshort | Hlong].
    + destruct (Z.leb_spec (8 * Z.of_nat (S count)) (remaining d)); [lia |].
      rewrite Z.div_small, Z.mod_small by lia.
      cbn [Z.to_nat uint64s_at]. rewrite app_nil_r.
      rewrite Z.add_0_r, Z.mul_0_r, Z.add_0_r.
      now rewrite set_cursor_same.
    + set (d' := set_cursor d (cursor d + 8)).
      assert (Hd' : in_bounds d').
      { unfold in_bounds, remaining in *. cbn. lia. }
      assert (Hr' : remaining d' = remaining d - 8).
      { unfold remaining. cbn. lia. }
      rewrite (IH (i + 1) d' _ Hd'). rewrite Hr'.
      change (buffer d') with (buffer d).
      change (cursor d') with (cursor d + 8).
      change (Z.to_nat 8) with 8%nat.
      assert (Hdiv : (remaining d - 8) / 8 = remaining d / 8 - 1).
      { replace (remaining d - 8) with (remaining d + (-1) * 8) by lia.
        rewrite Z.div_add by lia. lia. }
      assert (Hmod : (remaining d - 8) mod 8 = remaining d mod 8).
      { replace (remaining d - 8) with (remaining d + (-1) * 8) by lia.
        now rewrite Z.mod_add by lia. }
      assert (Hq : 1 <= remaining d / 8).
      { apply Z.div_le_lower_bound; lia. }
      rewrite Hdiv, Hmod.
      destruct (Z.leb_spec (8 * Z.of_nat count) (remaining d - 8));
        destruct (Z.leb_spec (8 * Z.of_nat (S count)) (remaining d));
        try lia.
      * rewrite <- app_assoc. cbn [app uint64s_at].
        do 2 f_equal. unfold set_cursor. cbn. f_equal. lia.
      * rewrite <- app_assoc.
        replace (Z.to_nat (remaining d / 8))
          with (S (Z.to_nat (remaining d / 8 - 1))) by lia.
        cbn [app uint64s_at].
        f_equal; [do 2 f_equal; lia |].
        f_equal. unfold set_cursor. cbn. f_equal. lia.
Qed.

(** C8: [MoveCursor] compares the sum [cursor + n], as Go computes it on
    [int], with the buffer length.  When the sum does not exceed the
    length the cursor becomes that sum, which is also the value returned;
    when it exceeds the length the decoder is left as it was and the old
    position is returned.  No outcome of [MoveCursor] is an error.  The
    sum is the mathematical one whenever that fits an [int]. *)
Theorem MoveCursor_spec (d : EbpfDecoder) (n : Z) :
  (int_add (cursor d) n <= len (buffer d) ->
     MoveCursor d n
     = (set_cursor d (int_add (cursor d) n), int_add (cursor d) n)) /\
  (len (buffer d) < int_add (cursor d) n ->
     MoveCursor d n = (d, cursor d)) /\
  (min_int <= cursor d + n <= max_int ->
     int_add (cursor d) n = cursor d + n).
Proof.
  unfold MoveCursor. repeat split.
  - intros H. destruct (Z.ltb_spec (len (buffer d)) (int_add (cursor d) n));
      [lia | reflexivity].
  - intros H. destruct (Z.ltb_spec (len (buffer d)) (int_add (cursor d) n));
      [reflexivity | lia].
  - apply wrap_int_in_range.
Qed.

Lemma negative_cursor_slice (d : EbpfDecoder) :
  cursor d < 0 -> slice_from (buffer d) (cursor d) = None.
Proof. intros H. apply slice_from_out_of_range. now left. Qed.

(** C9: [MoveCursor] has no lower bound.  For a negative [n] whose sum
    with the cursor does not underflow and does not exceed the buffer
    length, the cursor moves back to [cursor + n]; when that position is
    negative, every fixed-width primitive called next panics on its first
    slice expression. *)
Theorem MoveCursor_backward (d : EbpfDecoder) (n : Z) :
  n < 0 -> cursor d <= max_int -> min_int <= cursor d + n ->
  cursor d + n <= len (buffer d) ->
  MoveCursor d n = (set_cursor d (cursor d + n), cursor d + n) /\
  (cursor d + n < 0 ->
   let d' := (MoveCursor d n).1 in
   cursor d' < 0 /\
   (forall msg, DecodeUint8 d' msg = Panicked) /\
   (forall msg, DecodeInt8 d' msg = Panicked) /\
   (forall msg, DecodeUint16 d' msg = Panicked) /\
   (forall msg, DecodeUint16BigEndian d' msg = Panicked) /\
   (forall msg, DecodeInt16 d' msg = Panicked) /\
   (forall msg, DecodeUint32 d' msg = Panicked) /\
   (forall msg, DecodeUint32BigEndian d' msg = Panicked) /\
   (forall msg, DecodeInt32 d' msg = Panicked) /\
   (forall msg, DecodeUint64 d' msg = Panicked) /\
   (forall msg, DecodeInt64 d' msg = Panicked) /\
   (forall msg, DecodeBool d' msg = Panicked)).
Proof.
  intros Hn Hmax Hmin Hlen.
  assert (Hadd : int_add (cursor d) n = cursor d + n).
  { apply wrap_int_in_range. lia. }
  assert (Hmove : MoveCursor d n = (set_cursor d (cursor d + n), cursor d + n)).
  { unfold MoveCursor. rewrite Hadd.
    destruct (Z.ltb_spec (len (buffer d)) (cursor d + n)); [lia | reflexivity]. }
  split; [exact Hmove |].
  intros Hneg. rewrite Hmove. cbn [fst].
  assert (Hslice : slice_from (buffer (set_cursor d (cursor d + n)))
                     (cursor (set_cursor d (cursor d + n))) = None).
  { apply negative_cursor_slice. exact Hneg. }
  split; [exact Hneg |].
  repeat split; intros msg;
    unfold DecodeUint8, DecodeInt8, DecodeUint16, DecodeUint16BigEndian,
      DecodeInt16, DecodeUint32, DecodeUint32BigEndian, DecodeInt32,
      DecodeUint64, DecodeInt64, DecodeBool;
    now rewrite Hslice.
Qed.

(** C10: [DecodeUint64Array] does not roll back.  When the 16-bit count
    at the cursor asks for more 64-bit elements than the [room] bytes
    after it hold, the call returns the error of the first element that
    does not fit; the destination has gained the [room / 8] elements that
    did fit, and the cursor stands past the count and those elements. *)
Theorem DecodeUint64Array_not_atomic (d : EbpfDecoder) (msg : list Z) :
  in_bounds d -> 2 <= remaining d ->
  remaining d - 2 < 8 * le_value (bytes_at (buffer d) (cursor d) 2) ->
  DecodeUint64Array d msg
  = Return
      (Some (ErrArrayElement ((remaining d - 2) / 8)
               (ErrBufferTooShort 8 ((remaining d - 2) mod 8) "uint64")))
      (set_cursor d (cursor d + 2 + 8 * ((remaining d - 2) / 8)),
       msg ++ uint64s_at (buffer d) (cursor d + 2)
                (Z.to_nat ((remaining d - 2) / 8))).
Proof.
  intros Hd Hr Hcount. unfold DecodeUint64Array.
  rewrite (DecodeUint16_spec d 0 Hd). unfold fixed_width_result.
  destruct (Z.ltb_spec (remaining d) 2) as [| _]; [lia |].
  change (Z.to_nat 2) with 2%nat.
  set (arrLen := le_value (bytes_at (buffer d) (cursor d) 2)) in *.
  set (d' := set_cursor d (cursor d + 2)).
  assert (Hd' : in_bounds d').
  { unfold in_bounds, remaining in *. cbn. lia. }
  assert (Hr' : remaining d' = remaining d - 2).
  { unfold remaining. cbn. lia. }
  rewrite (DecodeUint64Array_loop_spec _ 0 d' msg Hd'). rewrite Hr'.
  destruct (Z.leb_spec (8 * Z.of_nat (Z.to_nat arrLen)) (remaining d - 2));
    [lia |].
  rewrite Z.add_0_l. reflexivity.
Qed.

End Cursor.

(** ** The event context header *)
Section Context.
Import bufferdecoder.

Lemma copy_same_length {A : Type} (dst src : list A) :
  length dst = length src -> copy dst src = src.
Proof.
  intros H. unfold copy.
  rewrite drop_ge by (rewrite H; apply Nat.le_refl).
  rewrite H, firstn_all. apply app_nil_r.
Qed.

Ltac width_literal :=
  repeat match goal with
  | |- context [Z.to_nat (?hi - ?lo)] =>
      first [ replace (Z.to_nat (hi - lo)) with 8%nat by lia
            | replace (Z.to_nat (hi - lo)) with 4%nat by lia
            | replace (Z.to_nat (hi - lo)) with 2%nat by lia
            | replace (Z.to_nat (hi - lo)) with 16%nat by lia ]
  end.

Ltac field_slices Hlo Hhi :=
  repeat match goal with
  | |- context [slice ?b ?lo ?hi] =>
      rewrite (slice_in_range b lo hi) by lia
  end;
  width_literal;
  cbn [mbind option_bind];
  repeat first
    [ rewrite LittleEndian_Uint64_value by (apply length_bytes_at; lia)
    | rewrite LittleEndian_Uint32_value by (apply length_bytes_at; lia)
    | rewrite LittleEndian_Uint16_value by (apply length_bytes_at; lia) ].

Lemma u8_byte_of_Z (z : Z) : u8 (byte_of_Z z) = z mod 256.
Proof.
  unfold u8, byte_of_Z.
  pose proof (Z.mod_pos_bound z 256 ltac:(lia)) as Hm.
  destruct (Byte.of_N (Z.to_N (z mod 256))) as [b |] eqn:Hb.
  - apply Byte.to_of_N in Hb. change (Z.of_N (Byte.to_N b) = z mod 256).
    rewrite Hb. lia.
  - apply Byte.of_N_None_iff in Hb. lia.
Qed.

Lemma length_le_bytes (w : nat) : forall z, length (le_bytes w z) = w.
Proof. induction w as [| w IH]; intros z; cbn; [| rewrite IH]; reflexivity. Qed.

Lemma le_value_le_bytes (w : nat) :
  forall z, le_value (le_bytes w z) = z mod 2 ^ (8 * Z.of_nat w).
Proof.
  induction w as [| w IH]; intros z.
  - cbn. now rewrite Z.mod_1_r.
  - cbn [le_bytes le_value]. rewrite u8_byte_of_Z, IH.
    replace (8 * Z.of_nat (S w)) with (8 + 8 * Z.of_nat w) by lia.
    rewrite Z.pow_add_r by lia.
    change (2 ^ 8) with 256.
    rewrite Z.rem_mul_r by lia. reflexivity.
Qed.

Lemma to_signed_wrap (w z : Z) :
  0 < w -> - 2 ^ (w - 1) <= z < 2 ^ (w - 1) -> to_signed w (z mod 2 ^ w) = z.
Proof.
  intros Hw Hz. unfold to_signed.
  assert (Hp : 2 ^ w = 2 * 2 ^ (w - 1)).
  { replace w with (1 + (w - 1)) at 1 by lia. rewrite Z.pow_add_r by lia. reflexivity. }
  destruct (Z.lt_ge_cases z 0) as [Hneg | Hpos].
  - replace (z mod 2 ^ w) with (z + 2 ^ w).
    + destruct (Z.ltb_spec (z + 2 ^ w) (2 ^ (w - 1))); lia.
    + symmetry. rewrite <- (Z.mod_add z 1 (2 ^ w)) by lia.
      rewrite Z.mul_1_l. apply Z.mod_small. lia.
  - rewrite Z.mod_small by lia.
    destruct (Z.ltb_spec z (2 ^ (w - 1))); lia.
Qed.

Lemma bytes_at_skip (a b : list byte) (k : Z) (w : nat) :
  len a <= k -> bytes_at (a ++ b) k w = bytes_at b (k - len a) w.
Proof.
  intros Hk. unfold bytes_at, len in *.
  rewrite drop_app. rewrite (drop_ge a) by lia. cbn [app].
  do 2 f_equal. lia.
Qed.

Lemma bytes_at_prefix (a b : list byte) (k : Z) (w : nat) :
  k = 0 -> length a = w -> bytes_at (a ++ b) k w = a.
Proof.
  intros -> <-. unfold bytes_at. change (Z.to_nat 0) with 0%nat.
  rewrite drop_0. apply take_app_length.
Qed.

Lemma length_encodeContext (c : EventContext) :
  length (Comm c) = 16%nat -> length (UtsName c) = 16%nat ->
  length (encodeContext c) = 144%nat.
Proof.
  intros Hc Hu. unfold encodeContext.
  rewrite !length_app, !length_le_bytes, Hc, Hu. reflexivity.
Qed.

Lemma bytes_at_skip_pre (pre l : list byte) (k : Z) (w : nat) :
  0 <= k -> bytes_at (pre ++ l) (len pre + k) w = bytes_at l k w.
Proof.
  intros Hk. rewrite bytes_at_skip by lia. f_equal. lia.
Qed.

Lemma bytes_at_skip_field (a b : list byte) (n : nat) (k k' : Z) (w : nat) :
  length a = n -> k' = k - Z.of_nat n -> 0 <= k' ->
  bytes_at (a ++ b) k w = bytes_at b k' w.
Proof.
  intros Ha -> Hk. rewrite bytes_at_skip by (unfold len; lia).
  unfold len. now rewrite Ha.
Qed.

Ltac field_length :=
  first [ apply length_le_bytes | assumption ].

Ltac locate_field :=
  repeat match goal with
  | |- context [bytes_at (?a ++ ?b) ?k ?w] =>
      let n := match a with
               | le_bytes ?n _ => n
               | Comm _ => constr:(16%nat)
               | UtsName _ => constr:(16%nat)
               end in
      let k' := eval compute in (k - Z.of_nat n) in
      lazymatch k' with
      | Zneg _ => rewrite (bytes_at_prefix a b k w eq_refl) by field_length
      | _ => rewrite (bytes_at_skip_field a b n k k' w)
               by first [field_length | reflexivity | discriminate]
      end
  end.

Lemma context_at_encodeContext (c : EventContext) (pre post : list byte) :
  context_in_range c ->
  context_at (pre ++ encodeContext c ++ post) (len pre) = c.
Proof.
  intros (HTs & HSt & HCg & HPid & HTid & HPpid & HHp & HHt & HHpp & HUid
          & HMnt & HPidns & HComm & HUts & HFl & HLd & HPar & HEv & HSys
          & HRet & HStk & HProc & HPol & HMp).
  unfold context_at, encodeContext.
  rewrite <- !app_assoc.
  rewrite !bytes_at_skip_pre by discriminate.
  locate_field.
  rewrite !le_value_le_bytes.
  change (8 * Z.of_nat 8) with 64. change (8 * Z.of_nat 4) with 32.
  change (8 * Z.of_nat 2) with 16.
  rewrite !to_signed_wrap by lia.
  rewrite !Z.mod_small by lia.
  destruct c; reflexivity.
Qed.

(** C2: on a decoder whose cursor lies in its buffer, with at least 144
    bytes remaining [DecodeContext] returns no error, leaves in the
    context exactly the header of the layout table read at the cursor
    (every integer little-endian at its offset, [Comm] and [UtsName] the
    16 bytes at offsets 60 and 76) and moves the cursor 144 further; with
    fewer than 144 bytes remaining it returns an error and leaves the
    context and the cursor as they were.  In particular a header [c]
    whose fields fit their types, encoded per the layout table and found
    at the cursor, is decoded to [c] itself. *)
Theorem DecodeContext_layout (d : EbpfDecoder) (eCtx : EventContext) :
  in_bounds d ->
  length (Comm eCtx) = 16%nat -> length (UtsName eCtx) = 16%nat ->
  (144 <= remaining d ->
     DecodeContext d eCtx
     = Return None (set_cursor d (cursor d + 144),
                    context_at (buffer d) (cursor d))) /\
  (remaining d < 144 ->
     DecodeContext d eCtx
     = Return (Some (ErrContextSize (remaining d) 144)) (d, eCtx)) /\
  (forall (c : EventContext) (pre post : list byte),
     context_in_range c ->
     buffer d = pre ++ encodeContext c ++ post -> cursor d = len pre ->
     DecodeContext d eCtx = Return None (set_cursor d (cursor d + 144), c)).
Proof.
  intros Hd Hcomm Huts.
  assert (Hlong : 144 <= remaining d ->
            DecodeContext d eCtx
            = Return None (set_cursor d (cursor d + 144),
                           context_at (buffer d) (cursor d))).
  { intros Hr. unfold DecodeContext, GetSizeBytes.
    destruct (slice_from_cursor d Hd) as (rest & -> & Hlen). rewrite Hlen.
    destruct (Z.ltb_spec (remaining d) 144) as [| _]; [lia |].
    destruct Hd as [Hlo Hhi]. unfold remaining in Hr.
    field_slices Hlo Hhi.
    rewrite !copy_same_length
      by (rewrite length_bytes_at by lia; assumption).
    unfold context_at, int32, int64. rewrite Z.add_0_r. reflexivity. }
  split; [exact Hlong |]. split.
  - intros Hr. unfold DecodeContext, GetSizeBytes.
    destruct (slice_from_cursor d Hd) as (rest & -> & Hlen). rewrite Hlen.
    destruct (Z.ltb_spec (remaining d) 144) as [_ |]; [reflexivity | lia].
  - intros c pre post Hc Hbuf Hcur.
    rewrite Hlong.
    + rewrite Hbuf, Hcur. now rewrite context_at_encodeContext.
    + unfold remaining, len. rewrite Hbuf, Hcur, !length_app.
      destruct Hc as (_ & _ & _ & _ & _ & _ & _ & _ & _ & _ & _ & _
                      & HComm & HUts & _).
      rewrite (length_encodeContext c HComm HUts). unfold len. lia.
Qed.

End Context.

(** ** The derivation table *)
Section Registration.
Import derive.

Lemma registered_insert_inner (t : Table) (k : ID) (inner : gmap Z entry)
    (i j : ID) :
  registered (<[k := inner]> t) i j
  = if decide (k = i) then inner !! j else registered t i j.
Proof.
  unfold registered. rewrite lookup_insert.
  destruct (decide (k = i)); reflexivity.
Qed.

(** C7: [Register] on a pair that already has an entry returns an
    [AlreadyRegistered] error and the table it was given; on a pair
    without an entry it returns no error and a table in which the pair is
    bound to the given rule and predicate and every other pair is as
    before.  Registering a pair a second time therefore keeps the first
    rule and predicate. *)
Theorem Register_spec (t : Table) (deriveFrom deriveTo : ID)
    (deriveCondition : unit -> bool) (deriveLogic : DeriveFunction) :
  (is_Some (registered t deriveFrom deriveTo) ->
     Register t deriveFrom deriveTo deriveCondition deriveLogic
     = (t, Some (alreadyRegisteredError deriveFrom deriveTo))) /\
  (registered t deriveFrom deriveTo = None ->
     let r := Register t deriveFrom deriveTo deriveCondition deriveLogic in
     r.2 = None /\
     registered r.1 deriveFrom deriveTo
     = Some {| entry_DeriveFunction := deriveLogic;
               Enabled := deriveCondition |} /\
     (forall i j, (i, j) <> (deriveFrom, deriveTo) ->
        registered r.1 i j = registered t i j) /\
     (forall (cond2 : unit -> bool) (logic2 : DeriveFunction),
        Register r.1 deriveFrom deriveTo cond2 logic2
        = (r.1, Some (alreadyRegisteredError deriveFrom deriveTo)))).
Proof.
  assert (Hdup : forall (t0 : Table) c l,
             is_Some (registered t0 deriveFrom deriveTo) ->
             Register t0 deriveFrom deriveTo c l
             = (t0, Some (alreadyRegisteredError deriveFrom deriveTo))).
  { intros t0 c l [e He]. unfold registered in He. unfold Register.
    destruct (t0 !! deriveFrom) as [inner |] eqn:Hin; [| discriminate].
    cbn in He. rewrite (lookup_total_correct _ _ _ Hin), He. reflexivity. }
  split; [apply Hdup |].
  intros Hnone.
  assert (Hreg : Register t deriveFrom deriveTo deriveCondition deriveLogic
                 = (<[deriveFrom :=
                        <[deriveTo := {| entry_DeriveFunction := deriveLogic;
                                         Enabled := deriveCondition |}]>
                          (default ∅ (t !! deriveFrom))]> t, None)).
  { unfold registered in Hnone. unfold Register.
    destruct (t !! deriveFrom) as [inner |] eqn:Hin; cbn in Hnone |- *.
    - rewrite (lookup_total_correct _ _ _ Hin), Hnone. reflexivity.
    - rewrite lookup_total_insert_eq, lookup_empty.
      now rewrite insert_insert_eq. }
  cbn zeta. rewrite Hreg. cbn [fst snd].
  assert (Hnew : registered
                   (<[deriveFrom :=
                        <[deriveTo := {| entry_DeriveFunction := deriveLogic;
                                         Enabled := deriveCondition |}]>
                          (default ∅ (t !! deriveFrom))]> t)
                   deriveFrom deriveTo
                 = Some {| entry_DeriveFunction := deriveLogic;
                           Enabled := deriveCondition |}).
  { rewrite registered_insert_inner.
    destruct (decide (deriveFrom = deriveFrom)); [| congruence].
    apply lookup_insert_eq. }
  split; [reflexivity |]. split; [exact Hnew |]. split.
  - intros i j Hne. rewrite registered_insert_inner.
    destruct (decide (deriveFrom = i)) as [<- | Hi]; [| reflexivity].
    assert (Hj : deriveTo <> j) by congruence.
    rewrite lookup_insert_ne by exact Hj.
    unfold registered. destruct (t !! deriveFrom); [reflexivity |].
    apply lookup_empty.
  - intros cond2 logic2. apply Hdup. rewrite Hnew. eauto.
Qed.

End Registration.

(** ** Running the rules of a base event *)
Section Derivation.
Import derive.

Lemma DeriveEvent_has_outcome (t : Table) (event : Event) (h : heap) :
  DeriveEvent t event h (DeriveEvent_run t event h).
Proof. exists (map_to_list (deriveFns t event)). split; reflexivity. Qed.

Lemma two_entries_orders (idA idB : ID) (entA entB : entry)
    (order : list (ID * entry)) :
  idA <> idB ->
  order ≡ₚ map_to_list (<[idA := entA]> ({[idB := entB]} : gmap Z entry)) ->
  order = [(idA, entA); (idB, entB)] \/ order = [(idB, entB); (idA, entA)].
Proof.
  intros Hne Hperm.
  rewrite map_to_list_insert in Hperm
    by (rewrite lookup_singleton_ne; congruence).
  rewrite map_to_list_singleton in Hperm.
  symmetry in Hperm. apply Permutation_length_2_inv in Hperm.
  destruct Hperm; auto.
Qed.

(** C1: a base event whose identifier has exactly two registered rules,
    both enabled, where rule A (target [idA]) returns the single error
    [errA] and no event and rule B (target [idB]) returns one event and
    no error.  Whatever order the table yields the two entries in,
    [DeriveEvent] does not panic and returns exactly the event that B
    produced in the store it ran in, and exactly one error, [errA]
    wrapped with [idA].  Some outcome always exists. *)
Theorem DeriveEvent_independent (t : Table) (event : Event) (h : heap)
    (idA idB : ID) (entA entB : entry) (errA : error) :
  idA <> idB ->
  deriveFns t event = <[idA := entA]> {[idB := entB]} ->
  Enabled entA tt = true -> Enabled entB tt = true ->
  (forall h0, exists h1,
     entry_DeriveFunction entA event h0 = Some (([], [errA]), h1)) ->
  (forall h0, exists evB h1,
     entry_DeriveFunction entB event h0 = Some (([evB], []), h1)) ->
  (exists res, DeriveEvent t event h res) /\
  (forall res, DeriveEvent t event h res ->
     exists hB evB hB' h',
       entry_DeriveFunction entB event hB = Some (([evB], []), hB') /\
       res = Some (([evB], [deriveError idA errA]), h')).
Proof.
  intros Hne Hfns HenA HenB HA HB. split.
  - eexists. apply DeriveEvent_has_outcome.
  - intros res (order & Hperm & ->). rewrite Hfns in Hperm.
    destruct (two_entries_orders _ _ _ _ _ Hne Hperm) as [-> | ->];
      cbn [DeriveEvent_range]; rewrite HenA, HenB; unfold bind, ret.
    + destruct (HA h) as (h1 & ->).
      destruct (HB h1) as (evB & h2 & HB1). rewrite HB1.
      exists h1, evB, h2, h2. split; [exact HB1 | reflexivity].
    + destruct (HB h) as (evB & h1 & HB1). rewrite HB1.
      destruct (HA h1) as (h2 & ->).
      exists h, evB, h1, h2. split; [exact HB1 | reflexivity].
Qed.

End Derivation.

(** ** Building derived events *)
Section Building.
Import derive.

Lemma buildDerivedEvent_args_zip (values : list any) :
  forall (fd fr : list events.DataField) (ad ar : list trace.Argument),
    length fd = length ad -> length fr = length values ->
    length ar = length values ->
    buildDerivedEvent_args (fd ++ fr) (length ad) values (ad ++ ar)
    = Some (ad ++ schema_args fr values).
Proof.
  induction values as [| v values IH]; intros fd fr ad ar Hd Hf Ha.
  - destruct fr; [| discriminate]. destruct ar; [| discriminate].
    reflexivity.
  - destruct fr as [| f fr]; [discriminate |].
    destruct ar as [| a ar]; [discriminate |].
    cbn [buildDerivedEvent_args].
    rewrite (list_lookup_middle fd fr f (length ad)) by (symmetry; exact Hd).
    rewrite (list_lookup_middle ad ar a (length ad)) by reflexivity.
    cbn [mbind option_bind].
    replace (length ad) with (length ad + 0)%nat at 2 by lia.
    rewrite insert_app_r. cbn [insert list_insert].
    specialize (IH (fd ++ [f]) fr
                  (ad ++ [{| trace.Argument_ArgMeta := events.DataField_ArgMeta f;
                             trace.Value := v |}]) ar).
    rewrite !length_app in IH. cbn [length] in IH.
    rewrite <- !app_assoc in IH. cbn [app] in IH.
    replace (S (length ad)) with (length ad + 1)%nat by lia.
    rewrite IH by (cbn in *; lia).
    reflexivity.
Qed.

Lemma len_eq_length {A B : Type} (l : list A) (k : list B) :
  len l = len k <-> length l = length k.
Proof. unfold len. lia. Qed.

Lemma buildDerivedEvent_mismatch (baseEvent : Event) (skeleton : deriveBase)
    (argsValues : list any) (h : heap) :
  len (Fields skeleton) <> len argsValues ->
  buildDerivedEvent baseEvent skeleton argsValues h
  = Some ((zeroEvent,
           Some (unexpectedArgCountError (deriveBase_Name skeleton)
                   (len (Fields skeleton)) (len argsValues))), h).
Proof.
  intros Hne. unfold buildDerivedEvent.
  destruct (Z.eqb_spec (len (Fields skeleton)) (len argsValues));
    [contradiction | reflexivity].
Qed.

Lemma buildDerivedEvent_matching (baseEvent : Event) (skeleton : deriveBase)
    (argsValues : list any) (h : heap) :
  len (Fields skeleton) = len argsValues ->
  buildDerivedEvent baseEvent skeleton argsValues h
  = let de :=
      set_ArgsNum (len (Fields skeleton))
        (set_Args (schema_args (Fields skeleton) argsValues)
           (set_StackAddresses [0]
              (set_ReturnValue 0
                 (set_EventName (deriveBase_Name skeleton)
                    (set_EventID (deriveBase_ID skeleton)
                       (set_PoliciesVersion (PoliciesVersion baseEvent)
                          baseEvent)))))) in
    match MatchedPolicies baseEvent with
    | None => Some ((de, None), h)
    | Some l =>
        Some ((set_MatchedPolicies (Some (fresh (dom h))) de, None),
              <[fresh (dom h) := h !!! l]> h)
    end.
Proof.
  intros Hlen. unfold buildDerivedEvent.
  destruct (Z.eqb_spec (len (Fields skeleton)) (len argsValues));
    [| contradiction].
  cbn [negb]. apply len_eq_length in Hlen.
  pose proof (buildDerivedEvent_args_zip argsValues [] (Fields skeleton) []
                (replicate (length (Fields skeleton)) trace.zeroArgument)
                eq_refl Hlen) as Hargs.
  cbn [app length] in Hargs. rewrite Hargs
    by (rewrite length_replicate; exact Hlen).
  assert (Hnum : len (schema_args (Fields skeleton) argsValues)
                 = len (Fields skeleton)).
  { unfold len, schema_args. rewrite length_zip_with. lia. }
  cbn zeta.
  destruct (MatchedPolicies baseEvent) as [l |] eqn:Hmp.
  - unfold bind, slice_len, make_strings, copy_strings, ret.
    cbn [set_Args Args]. rewrite Hnum.
    do 2 f_equal.
    rewrite lookup_total_insert_eq.
    rewrite insert_insert_eq. f_equal.
    destruct (decide (fresh (dom h) = l)) as [Heq | Hneq].
    + rewrite Heq, lookup_total_insert_eq.
      assert (Hnone : h !! l = None).
      { apply not_elem_of_dom. rewrite <- Heq. apply is_fresh. }
      rewrite (lookup_total_alt h l), Hnone. reflexivity.
    + rewrite lookup_total_insert_ne by exact Hneq.
      apply copy_same_length. now rewrite length_replicate.
  - unfold ret. cbn [set_Args Args]. rewrite Hnum. reflexivity.
Qed.

End Building.

(** ** Tuples of the wrong length, and what a derived event shares *)
Section DerivedEvents.
Import derive.

Lemma deriveMultipleEvents_range_mismatch (event : Event)
    (skeleton : deriveBase) (bad : list any) (rest : list (list any))
    (evs : list Event) (errs : list error) (h : heap) :
  len (Fields skeleton) <> len bad ->
  deriveMultipleEvents_range event skeleton (bad :: rest) evs errs h
  = deriveMultipleEvents_range event skeleton rest evs
      (errs ++ [unexpectedArgCountError (deriveBase_Name skeleton)
                  (len (Fields skeleton)) (len bad)]) h.
Proof.
  intros Hne. cbn [deriveMultipleEvents_range]. unfold bind.
  now rewrite (buildDerivedEvent_mismatch event skeleton bad h Hne).
Qed.

Lemma buildDerivedEvent_total (event : Event) (skeleton : deriveBase)
    (good : list any) (h : heap) :
  len (Fields skeleton) = len good ->
  exists de h', buildDerivedEvent event skeleton good h = Some ((de, None), h').
Proof.
  intros Heq. rewrite (buildDerivedEvent_matching event skeleton good h Heq).
  cbn zeta. destruct (MatchedPolicies event); eauto.
Qed.

Lemma deriveMultipleEvents_range_match (event : Event)
    (skeleton : deriveBase) (good : list any) (rest : list (list any))
    (evs : list Event) (errs : list error) (h h' : heap) (de : Event) :
  buildDerivedEvent event skeleton good h = Some ((de, None), h') ->
  deriveMultipleEvents_range event skeleton (good :: rest) evs errs h
  = deriveMultipleEvents_range event skeleton rest (evs ++ [de]) errs h'.
Proof.
  intros Hb. cbn [deriveMultipleEvents_range]. unfold bind.
  now rewrite Hb.
Qed.

(** Every tuple is looked at: the loop never panics, it yields one event
    per tuple of the schema's length and one [UnexpectedArgumentCount]
    error per other tuple, after the errors it started with. *)
Lemma deriveMultipleEvents_range_all (event : Event) (skeleton : deriveBase)
    (tuples : list (list any)) :
  forall (evs : list Event) (errs : list error) (h : heap),
  exists evs' h',
    deriveMultipleEvents_range event skeleton tuples evs errs h
    = Some ((evs ++ evs',
             errs ++ map (fun bad =>
                            unexpectedArgCountError (deriveBase_Name skeleton)
                              (len (Fields skeleton)) (len bad))
                         (filter (fun tuple =>
                                    len (Fields skeleton) <> len tuple)
                                 tuples)), h') /\
    length evs'
    = length (filter (fun tuple => len (Fields skeleton) = len tuple) tuples).
Proof.
  induction tuples as [| tuple tuples IH]; intros evs errs h.
  - exists [], h. cbn. unfold ret. now rewrite !app_nil_r.
  - destruct (decide (len (Fields skeleton) = len tuple)) as [Heq | Hne].
    + destruct (buildDerivedEvent_total event skeleton tuple h Heq)
        as (de & h1 & Hb).
      rewrite (deriveMultipleEvents_range_match _ _ _ _ _ _ _ _ _ Hb).
      destruct (IH (evs ++ [de]) errs h1) as (evs' & h' & -> & Hcount).
      exists (de :: evs'), h'. split.
      * rewrite <- app_assoc. cbn [app].
        rewrite (filter_cons_False _ tuple) by (intros Hn; now apply Hn).
        reflexivity.
      * rewrite filter_cons_True by exact Heq. cbn [length]. now rewrite Hcount.
    + rewrite (deriveMultipleEvents_range_mismatch _ _ _ _ _ _ _ Hne).
      destruct (IH evs (errs ++ [unexpectedArgCountError
                                   (deriveBase_Name skeleton)
                                   (len (Fields skeleton)) (len tuple)]) h)
        as (evs' & h' & -> & Hcount).
      exists evs', h'. split.
      * rewrite filter_cons_True by exact Hne. cbn [map].
        rewrite <- app_assoc. reflexivity.
      * rewrite filter_cons_False by exact Hne. exact Hcount.
Qed.

(** C5: a rule that returns two tuples, one of the schema's length and
    one of another length (in either order), together with its own
    errors [errs].  The derive function built by [deriveMultipleEvents]
    returns exactly one event, the one [buildDerivedEvent] makes of the
    matching tuple, and after the rule's own errors exactly one
    [UnexpectedArgumentCount] error, carrying the target's name, the
    schema's field count and the length of the mismatched tuple. *)
Theorem deriveMultipleEvents_mismatch_isolated
    (getEventDefinition : ID -> Definition_) (id : ID)
    (rule : multiDeriveArgsFunction) (event : Event) (h h1 : heap)
    (good bad : list any) (tuples : list (list any)) (errs : list error) :
  len (GetFields (getEventDefinition id)) = len good ->
  len (GetFields (getEventDefinition id)) <> len bad ->
  tuples = [bad; good] \/ tuples = [good; bad] ->
  rule event h = Some ((Some tuples, errs), h1) ->
  exists de h2,
    buildDerivedEvent event (makeDeriveBase getEventDefinition id) good h1
    = Some ((de, None), h2) /\
    deriveMultipleEvents getEventDefinition id rule event h
    = Some (([de],
             errs ++ [unexpectedArgCountError
                        (GetName (getEventDefinition id))
                        (len (GetFields (getEventDefinition id)))
                        (len bad)]), h2).
Proof.
  intros Hgood Hbad Htuples Hrule.
  set (skeleton := makeDeriveBase getEventDefinition id).
  destruct (buildDerivedEvent_total event skeleton good h1 Hgood)
    as (de & h2 & Hb).
  exists de, h2. split; [exact Hb |].
  unfold deriveMultipleEvents. fold skeleton. unfold bind at 1.
  rewrite Hrule. cbn [fst snd].
  destruct Htuples as [-> | ->].
  - rewrite deriveMultipleEvents_range_mismatch by exact Hbad.
    rewrite (deriveMultipleEvents_range_match _ _ _ _ _ _ _ _ _ Hb).
    reflexivity.
  - rewrite (deriveMultipleEvents_range_match _ _ _ _ _ _ _ _ _ Hb).
    rewrite deriveMultipleEvents_range_mismatch by exact Hbad.
    reflexivity.
Qed.

End DerivedEvents.

Section Frame.
Import derive.

Lemma store_string_elsewhere (s : option loc) (i : nat) (v : string)
    (h h' : heap) (k : loc) :
  store_string s i v h = Some (tt, h') -> s <> Some k -> h' !! k = h !! k.
Proof.
  unfold store_string. destruct s as [l |]; [| discriminate].
  cbn [mbind option_bind].
  destruct ((h !!! l : list string) !! i); [| discriminate].
  cbn [mbind option_bind]. intros [= <-] Hne.
  apply lookup_insert_ne. congruence.
Qed.

(** C6: for a tuple of the schema's length [buildDerivedEvent] does not
    panic and returns no error.  The derived event agrees with the base
    event on every field but these: identifier and name are the target's;
    the arguments pair each schema field's metadata with the value
    supplied for it, in schema order, and their count is the schema's
    field count; the return value is 0; the stack addresses are the
    single placeholder 0.  A nil matched-policies slice stays nil.  A
    non-nil one is replaced by a freshly allocated array with the same
    elements, and nothing else in the store changes; hence, for two
    events derived from the same base, an in-place write to the list of
    either leaves the base's list and the other's list as they were. *)
Theorem buildDerivedEvent_frame (baseEvent : Event) (skeleton : deriveBase)
    (argsValues : list any) (h : heap) :
  len (Fields skeleton) = len argsValues ->
  (forall l, MatchedPolicies baseEvent = Some l -> is_Some (h !! l)) ->
  exists de h',
    buildDerivedEvent baseEvent skeleton argsValues h = Some ((de, None), h') /\
    (Timestamp de = Timestamp baseEvent /\
     ProcessorID de = ProcessorID baseEvent /\
     ProcessID de = ProcessID baseEvent /\
     CgroupID de = CgroupID baseEvent /\
     ThreadID de = ThreadID baseEvent /\
     ParentProcessID de = ParentProcessID baseEvent /\
     HostProcessID de = HostProcessID baseEvent /\
     HostThreadID de = HostThreadID baseEvent /\
     HostParentProcessID de = HostParentProcessID baseEvent /\
     UserID de = UserID baseEvent /\
     MountNS de = MountNS baseEvent /\
     PIDNS de = PIDNS baseEvent /\
     ProcessName de = ProcessName baseEvent /\
     HostName de = HostName baseEvent /\
     Event_Container de = Event_Container baseEvent /\
     Event_Kubernetes de = Event_Kubernetes baseEvent /\
     PoliciesVersion de = PoliciesVersion baseEvent) /\
    (EventID de = deriveBase_ID skeleton /\
     EventName de = deriveBase_Name skeleton /\
     Args de = schema_args (Fields skeleton) argsValues /\
     length (Args de) = length (Fields skeleton) /\
     ArgsNum de = len (Fields skeleton) /\
     ReturnValue de = 0 /\
     StackAddresses de = [0]) /\
    match MatchedPolicies baseEvent with
    | None => MatchedPolicies de = None /\ h' = h
    | Some l =>
        exists l', MatchedPolicies de = Some l' /\
                   l' <> l /\ h !! l' = None /\
                   h' !! l' = h !! l /\
                   (forall k, k <> l' -> h' !! k = h !! k)
    end /\
    forall (skeleton2 : deriveBase) (argsValues2 : list any),
      len (Fields skeleton2) = len argsValues2 ->
      exists de2 h2,
        buildDerivedEvent baseEvent skeleton2 argsValues2 h'
        = Some ((de2, None), h2) /\
        forall l, MatchedPolicies baseEvent = Some l ->
          exists l1 l2,
            MatchedPolicies de = Some l1 /\ MatchedPolicies de2 = Some l2 /\
            l1 <> l /\ l2 <> l /\ l1 <> l2 /\
            h2 !! l = h !! l /\ h2 !! l1 = h !! l /\ h2 !! l2 = h !! l /\
            (forall i v h3,
               store_string (MatchedPolicies de) i v h2 = Some (tt, h3) ->
               h3 !! l = h !! l /\ h3 !! l2 = h !! l) /\
            (forall i v h3,
               store_string (MatchedPolicies de2) i v h2 = Some (tt, h3) ->
               h3 !! l = h !! l /\ h3 !! l1 = h !! l).
Proof.
  intros Hlen Hwf.
  rewrite (buildDerivedEvent_matching baseEvent skeleton argsValues h Hlen).
  cbn zeta.
  assert (Hargs : length (schema_args (Fields skeleton) argsValues)
                  = length (Fields skeleton)).
  { unfold schema_args. rewrite length_zip_with.
    apply len_eq_length in Hlen. lia. }
  destruct (MatchedPolicies baseEvent) as [l |] eqn:Hmp.
  - destruct (Hwf l eq_refl) as [pols Hpols].
    set (l1 := fresh (dom h)).
    assert (Hfresh1 : h !! l1 = None).
    { apply not_elem_of_dom. apply is_fresh. }
    assert (Hl1 : l1 <> l) by congruence.
    set (h1 := <[l1 := h !!! l]> h).
    assert (Hh1l1 : h1 !! l1 = h !! l).
    { unfold h1. rewrite lookup_insert_eq.
      now rewrite (lookup_total_correct _ _ _ Hpols). }
    assert (Hh1 : forall k, k <> l1 -> h1 !! k = h !! k).
    { intros k Hk. unfold h1. now rewrite lookup_insert_ne. }
    eexists _, h1. split; [reflexivity |].
    split; [cbn; repeat split; reflexivity |].
    split; [cbn; repeat split; try reflexivity; exact Hargs |].
    split.
    { exists l1. repeat split; try assumption. }
    intros skeleton2 argsValues2 Hlen2.
    rewrite (buildDerivedEvent_matching baseEvent skeleton2 argsValues2 h1
               Hlen2).
    cbn zeta. rewrite Hmp.
    set (l2 := fresh (dom h1)).
    assert (Hfresh2 : h1 !! l2 = None).
    { apply not_elem_of_dom. apply is_fresh. }
    assert (Hl2 : l2 <> l).
    { intros ->. rewrite Hh1, Hpols in Hfresh2 by congruence. discriminate. }
    assert (Hl12 : l1 <> l2).
    { intros Heq. rewrite <- Heq, Hh1l1, Hpols in Hfresh2. discriminate. }
    set (h2 := <[l2 := h1 !!! l]> h1).
    assert (Hh1l : h1 !! l = h !! l) by (apply Hh1; congruence).
    assert (Hh2l2 : h2 !! l2 = h !! l).
    { unfold h2. rewrite lookup_insert_eq.
      rewrite Hpols in Hh1l.
      now rewrite (lookup_total_correct _ _ _ Hh1l), Hpols. }
    assert (Hh2 : forall k, k <> l2 -> h2 !! k = h1 !! k).
    { intros k Hk. unfold h2. now rewrite lookup_insert_ne. }
    eexists _, h2. split; [reflexivity |].
    intros l0 [= <-]. exists l1, l2. cbn [set_MatchedPolicies MatchedPolicies].
    split; [reflexivity |]. split; [reflexivity |].
    split; [exact Hl1 |]. split; [exact Hl2 |]. split; [exact Hl12 |].
    split; [rewrite Hh2 by congruence; exact Hh1l |].
    split; [rewrite Hh2 by congruence; exact Hh1l1 |].
    split; [exact Hh2l2 |].
    split; intros i v h3 Hstore.
    + split.
      * rewrite (store_string_elsewhere _ _ _ _ _ l Hstore) by congruence.
        rewrite Hh2 by congruence. exact Hh1l.
      * rewrite (store_string_elsewhere _ _ _ _ _ l2 Hstore) by congruence.
        exact Hh2l2.
    + split.
      * rewrite (store_string_elsewhere _ _ _ _ _ l Hstore) by congruence.
        rewrite Hh2 by congruence. exact Hh1l.
      * rewrite (store_string_elsewhere _ _ _ _ _ l1 Hstore) by congruence.
        rewrite Hh2 by congruence. exact Hh1l1.
  - eexists _, h. split; [reflexivity |].
    split; [cbn; repeat split; reflexivity |].
    split; [cbn; repeat split; try reflexivity; exact Hargs |].
    split; [cbn; rewrite Hmp; split; reflexivity |].
    intros skeleton2 argsValues2 Hlen2.
    rewrite (buildDerivedEvent_matching baseEvent skeleton2 argsValues2 h
               Hlen2).
    cbn zeta. rewrite Hmp.
    eexists _, h. split; [reflexivity |].
    intros l0 [=].
Qed.

End Frame.

(** ** Argument assembly *)
Section Assembly.
Import bufferdecoder.

Variable readArgFromBuff : readArgFromBuffT.

Lemma place_length (rs : list (nat * trace.Argument * option error)) :
  forall args, length (place args rs) = length args.
Proof.
  induction rs as [| r rs IH]; intros args; [reflexivity |].
  cbn. unfold place in IH. rewrite IH. apply length_insert.
Qed.

Lemma place_lookup_other (rs : list (nat * trace.Argument * option error))
    (i : nat) :
  forall args, i ∉ map supplied_index rs -> place args rs !! i = args !! i.
Proof.
  induction rs as [| r rs IH]; intros args Hi; [reflexivity |].
  cbn in Hi |- *. apply not_elem_of_cons in Hi as [Hne Hi].
  unfold place in IH. rewrite IH by exact Hi.
  apply list_lookup_insert_ne. congruence.
Qed.

Lemma place_lookup_supplied (rs : list (nat * trace.Argument * option error))
    (idx : nat) (arg : trace.Argument) (e : option error) :
  forall args,
    NoDup (map supplied_index rs) -> (idx, arg, e) ∈ rs ->
    (idx < length args)%nat ->
    place args rs !! idx = Some arg.
Proof.
  induction rs as [| r rs IH]; intros args Hnd Hin Hlt.
  - inversion Hin.
  - cbn in Hnd. apply NoDup_cons in Hnd as [Hfirst Hnd].
    apply elem_of_cons in Hin as [<- | Hin].
    + cbn. fold (place (<[idx := arg]> args) rs).
      rewrite place_lookup_other by exact Hfirst.
      now apply list_lookup_insert_eq.
    + cbn. fold (place (<[supplied_index r := r.1.2]> args) rs).
      apply IH; [exact Hnd | exact Hin |].
      now rewrite length_insert.
Qed.

Lemma DecodeArguments_read_places (count : nat) :
  forall (d : EbpfDecoder) (args : list trace.Argument)
         (evtFields : list events.DataField) (eventId : ID),
    forallb (supplied_ok (length args))
      (reads readArgFromBuff count eventId d evtFields) = true ->
    exists d',
      DecodeArguments_read readArgFromBuff count d args evtFields eventId
      = Return None
          (d', place args (reads readArgFromBuff count eventId d evtFields)).
Proof.
  induction count as [| count IH]; intros d args evtFields eventId Hok.
  - exists d. reflexivity.
  - cbn [DecodeArguments_read reads] in Hok |- *.
    destruct (readArgFromBuff eventId d evtFields)
      as [d1 [[idx arg] err]] eqn:Hread.
    cbn [forallb] in Hok. apply andb_true_iff in Hok as [Hr Hok].
    unfold supplied_ok in Hr. cbn [fst snd] in Hr.
    destruct err as [e |]; [discriminate |].
    apply andb_true_iff in Hr as [Hr _]. cbn in Hr.
    apply Nat.ltb_lt in Hr.
    destruct (lookup_lt_is_Some_2 args idx Hr) as [a ->].
    destruct (IH d1 (<[idx := arg]> args) evtFields eventId) as [d' Hd'].
    { now rewrite length_insert. }
    exists d'. rewrite Hd'. reflexivity.
Qed.

Lemma DecodeArguments_fill_spec (evtFields : list events.DataField)
    (count : nat) :
  forall (i : nat) (args : list trace.Argument),
    length args = length evtFields ->
    (i + count = length evtFields)%nat ->
    exists args',
      DecodeArguments_fill count i args evtFields = Some args' /\
      length args' = length args /\
      forall j a f,
        args !! j = Some a -> evtFields !! j = Some f ->
        args' !! j
        = Some (if decide (i <= j)%nat then
                  if is_nil (trace.Value a) then zero_slot f else a
                else a).
Proof.
  induction count as [| count IH]; intros i args Hlen Hi.
  - exists args. split; [reflexivity |]. split; [reflexivity |].
    intros j a f Ha Hf.
    apply lookup_lt_Some in Ha as Hj.
    destruct (decide (i <= j)%nat); [lia | exact Ha].
  - cbn [DecodeArguments_fill].
    destruct (lookup_lt_is_Some_2 args i ltac:(lia)) as [ai Hai].
    destruct (lookup_lt_is_Some_2 evtFields i ltac:(lia)) as [fi Hfi].
    rewrite Hai. cbn [mbind option_bind].
    destruct (is_nil (trace.Value ai)) eqn:Hnil.
    + rewrite Hfi. cbn [mbind option_bind]. fold (zero_slot fi).
      destruct (IH (S i) (<[i := zero_slot fi]> args)) as (args' & -> & Hl & Hp).
      { now rewrite length_insert. }
      { lia. }
      exists args'. split; [reflexivity |].
      split; [now rewrite Hl, length_insert |].
      intros j a f Ha Hf.
      destruct (decide (i = j)) as [<- | Hne].
      * rewrite (Hp i (zero_slot fi) fi)
          by (try apply list_lookup_insert_eq; try assumption; lia).
        destruct (decide (S i <= i)%nat); [lia |].
        destruct (decide (i <= i)%nat); [| lia].
        assert (a = ai) by congruence. assert (f = fi) by congruence.
        subst. now rewrite Hnil.
      * rewrite (Hp j a f)
          by (try rewrite list_lookup_insert_ne; assumption).
        destruct (decide (S i <= j)%nat), (decide (i <= j)%nat);
          try reflexivity; lia.
    + destruct (IH (S i) args Hlen ltac:(lia)) as (args' & -> & Hl & Hp).
      exists args'. split; [reflexivity |]. split; [exact Hl |].
      intros j a f Ha Hf. rewrite (Hp j a f Ha Hf).
      destruct (decide (i = j)) as [<- | Hne].
      * destruct (decide (S i <= i)%nat); [lia |].
        destruct (decide (i <= i)%nat); [| lia].
        assert (a = ai) by congruence. subst. now rewrite Hnil.
      * destruct (decide (S i <= j)%nat), (decide (i <= j)%nat);
          try reflexivity; lia.
Qed.

(** C4: a schema of [N] fields, a destination of [N] zero arguments and
    a stream of [argnum] arguments, each decoded without error to a
    non-nil value and each naming a schema field that no other argument
    of the stream names.  [DecodeArguments] does not panic and returns no
    error; the destination has length [N]; every supplied argument sits
    at the index it names; every other index [i] holds the metadata and
    the zero value that schema field [i] declares. *)
Theorem DecodeArguments_complete (d : EbpfDecoder) (argnum : Z)
    (evtFields : list events.DataField) (evtName : string) (eventId : ID) :
  well_supplied (length evtFields)
    (reads readArgFromBuff (Z.to_nat argnum) eventId d evtFields) = true ->
  exists d' args,
    DecodeArguments readArgFromBuff d
      (replicate (length evtFields) trace.zeroArgument) argnum evtFields
      evtName eventId
    = Return None (d', args) /\
    length args = length evtFields /\
    (forall idx arg,
       (idx, arg, None)
         ∈ reads readArgFromBuff (Z.to_nat argnum) eventId d evtFields ->
       args !! idx = Some arg) /\
    (forall i f,
       evtFields !! i = Some f ->
       i ∉ map supplied_index
             (reads readArgFromBuff (Z.to_nat argnum) eventId d evtFields) ->
       args !! i = Some (zero_slot f)).
Proof.
  set (rs := reads readArgFromBuff (Z.to_nat argnum) eventId d evtFields).
  set (args0 := replicate (length evtFields) trace.zeroArgument).
  intros Hws. unfold well_supplied in Hws.
  apply andb_true_iff in Hws as [Hok Hnd].
  apply bool_decide_eq_true in Hnd.
  assert (Hlen0 : length args0 = length evtFields)
    by apply length_replicate.
  destruct (DecodeArguments_read_places (Z.to_nat argnum) d args0 evtFields
              eventId) as [d' Hread].
  { rewrite Hlen0. exact Hok. }
  fold rs in Hread.
  destruct (DecodeArguments_fill_spec evtFields (length evtFields) 0%nat
              (place args0 rs)) as (args & Hfill & Hlen & Hp).
  { now rewrite place_length. }
  { reflexivity. }
  exists d', args. unfold DecodeArguments. rewrite Hread, Hfill.
  split; [reflexivity |].
  split; [now rewrite Hlen, place_length |].
  split.
  - intros idx arg Hin.
    assert (Hr : supplied_ok (length evtFields) (idx, arg, None) = true).
    { rewrite forallb_forall in Hok. apply Hok.
      now apply list_elem_of_In. }
    unfold supplied_ok in Hr. cbn [fst snd] in Hr.
    apply andb_true_iff in Hr as [Hr Hval].
    apply Nat.ltb_lt in Hr.
    destruct (lookup_lt_is_Some_2 evtFields idx Hr) as [f Hf].
    rewrite (Hp idx arg f).
    + destruct (decide (0 <= idx)%nat); [| lia].
      destruct (is_nil (trace.Value arg)); [discriminate | reflexivity].
    + apply (place_lookup_supplied rs idx arg None); [exact Hnd | exact Hin |].
      now rewrite Hlen0.
    + exact Hf.
  - intros i f Hf Hi.
    rewrite (Hp i trace.zeroArgument f).
    + destruct (decide (0 <= i)%nat); [reflexivity | lia].
    + rewrite place_lookup_other by exact Hi.
      apply lookup_replicate_2. now apply lookup_lt_Some in Hf.
    + exact Hf.
Qed.

End Assembly.

(** ** The primitives together *)
Section PrimitivesTogether.
Import bufferdecoder.

(** C3: on a decoder whose cursor lies in its buffer, every fixed-width
    primitive behaves as [fixed_width_result] says for its width and type
    name: with fewer bytes remaining than its width (in particular one
    fewer) it returns [ErrBufferTooShort] with the width, the number of
    bytes remaining and the type name, and leaves the cursor and the
    destination as they were; otherwise it stores the little-endian
    (big-endian for the two [BigEndian] primitives) value of the next
    bytes and moves the cursor by its width.  No case panics. *)
Theorem fixed_width_primitives (d : EbpfDecoder) :
  in_bounds d ->
  (forall msg, DecodeUint8 d msg
               = fixed_width_result 1 "uint8" le_value d msg) /\
  (forall msg, DecodeInt8 d msg
               = fixed_width_result 1 "int8"
                   (fun bs => to_signed 8 (le_value bs)) d msg) /\
  (forall msg, DecodeUint16 d msg
               = fixed_width_result 2 "uint16" le_value d msg) /\
  (forall msg, DecodeUint16BigEndian d msg
               = fixed_width_result 2 "uint16" be_value d msg) /\
  (forall msg, DecodeInt16 d msg
               = fixed_width_result 2 "int16"
                   (fun bs => to_signed 16 (le_value bs)) d msg) /\
  (forall msg, DecodeUint32 d msg
               = fixed_width_result 4 "uint32" le_value d msg) /\
  (forall msg, DecodeUint32BigEndian d msg
               = fixed_width_result 4 "uint32 (big endian)" be_value d msg) /\
  (forall msg, DecodeInt32 d msg
               = fixed_width_result 4 "int32"
                   (fun bs => to_signed 32 (le_value bs)) d msg) /\
  (forall msg, DecodeUint64 d msg
               = fixed_width_result 8 "uint64" le_value d msg) /\
  (forall msg, DecodeInt64 d msg
               = fixed_width_result 8 "int64"
                   (fun bs => to_signed 64 (le_value bs)) d msg) /\
  (forall msg, DecodeBool d msg
               = fixed_width_result 1 "bool"
                   (fun bs => negb (le_value bs =? 0)) d msg).
Proof.
  intros Hd. repeat split; intros msg.
  - now apply DecodeUint8_spec.
  - now apply DecodeInt8_spec.
  - now apply DecodeUint16_spec.
  - now apply DecodeUint16BigEndian_spec.
  - now apply DecodeInt16_spec.
  - now apply DecodeUint32_spec.
  - now apply DecodeUint32BigEndian_spec.
  - now apply DecodeInt32_spec.
  - now apply DecodeUint64_spec.
  - now apply DecodeInt64_spec.
  - now apply DecodeBool_spec.
Qed.

End PrimitivesTogether.

(** ** The decoder at concrete inputs *)
Section DecoderWitnesses.
Import bufferdecoder.

Lemma fixed_width_primitives_witness :
  in_bounds examples.decoder_seven_left /\
  DecodeUint64 examples.decoder_seven_left 0
  = Return (Some (ErrBufferTooShort 8 7 "uint64"))
           (examples.decoder_seven_left, 0) /\
  DecodeUint32BigEndian examples.decoder_seven_left 0
  = Return None (set_cursor examples.decoder_seven_left 5, 33752069).
Proof.
  assert (H : in_bounds examples.decoder_seven_left)
    by (unfold in_bounds; vm_compute; split; discriminate).
  split; [exact H |].
  destruct (fixed_width_primitives _ H)
    as (_ & _ & _ & _ & _ & _ & Hbe32 & _ & H64 & _).
  split; [rewrite H64 | rewrite Hbe32]; reflexivity.
Defined.

Lemma DecodeContext_layout_witness :
  in_bounds examples.decoder_at_header /\
  length (Comm examples.zeroContext) = 16%nat /\
  length (UtsName examples.zeroContext) = 16%nat /\
  context_in_range examples.sampleContext /\
  DecodeContext examples.decoder_at_header examples.zeroContext
  = Return None (set_cursor examples.decoder_at_header 146,
                 examples.sampleContext).
Proof.
  assert (H : in_bounds examples.decoder_at_header)
    by (unfold in_bounds; vm_compute; split; discriminate).
  assert (Hc : context_in_range examples.sampleContext).
  { unfold context_in_range.
    repeat match goal with |- _ /\ _ => split end;
      vm_compute; first [reflexivity | discriminate]. }
  split; [exact H |]. split; [reflexivity |]. split; [reflexivity |].
  split; [exact Hc |].
  exact (proj2 (proj2 (DecodeContext_layout examples.decoder_at_header
                         examples.zeroContext H eq_refl eq_refl))
           examples.sampleContext (examples.bytes_of [170; 187])
           (examples.bytes_of [204]) Hc eq_refl eq_refl).
Defined.

Lemma DecodeUint64Array_not_atomic_witness :
  in_bounds examples.decoder_short_array /\
  2 <= remaining examples.decoder_short_array /\
  DecodeUint64Array examples.decoder_short_array [5]
  = Return (Some (ErrArrayElement 1 (ErrBufferTooShort 8 5 "uint64")))
      (set_cursor examples.decoder_short_array 10, [5; 1]).
Proof.
  assert (H : in_bounds examples.decoder_short_array)
    by (unfold in_bounds; vm_compute; split; discriminate).
  assert (Hr : 2 <= remaining examples.decoder_short_array)
    by (vm_compute; discriminate).
  split; [exact H |]. split; [exact Hr |].
  rewrite (DecodeUint64Array_not_atomic examples.decoder_short_array [5] H Hr)
    by (vm_compute; reflexivity).
  vm_compute. reflexivity.
Defined.

Lemma MoveCursor_spec_witness :
  int_add (cursor examples.decoder_seven_left) 7
  <= len (buffer examples.decoder_seven_left) /\
  MoveCursor examples.decoder_seven_left 7
  = (set_cursor examples.decoder_seven_left 8, 8) /\
  len (buffer examples.decoder_seven_left)
  < int_add (cursor examples.decoder_seven_left) 8 /\
  MoveCursor examples.decoder_seven_left 8
  = (examples.decoder_seven_left, 1).
Proof.
  assert (H1 : int_add (cursor examples.decoder_seven_left) 7
               <= len (buffer examples.decoder_seven_left))
    by (vm_compute; discriminate).
  assert (H2 : len (buffer examples.decoder_seven_left)
               < int_add (cursor examples.decoder_seven_left) 8)
    by (vm_compute; reflexivity).
  split; [exact H1 |].
  split; [exact (proj1 (MoveCursor_spec examples.decoder_seven_left 7) H1) |].
  split; [exact H2 |].
  exact (proj1 (proj2 (MoveCursor_spec examples.decoder_seven_left 8)) H2).
Defined.

Lemma MoveCursor_backward_witness :
  MoveCursor examples.decoder_seven_left (-3)
  = (set_cursor examples.decoder_seven_left (-2), -2) /\
  DecodeUint8 (set_cursor examples.decoder_seven_left (-2)) 0 = Panicked.
Proof.
  assert (H : (-3 < 0) /\ cursor examples.decoder_seven_left <= max_int /\
              min_int <= cursor examples.decoder_seven_left + -3 /\
              cursor examples.decoder_seven_left + -3
              <= len (buffer examples.decoder_seven_left)).
  { vm_compute. repeat split; discriminate. }
  destruct H as (H1 & H2 & H3 & H4).
  destruct (MoveCursor_backward examples.decoder_seven_left (-3) H1 H2 H3 H4)
    as [Hmove Hpanic].
  split; [exact Hmove |].
  destruct (Hpanic ltac:(vm_compute; reflexivity)) as (_ & Hu8 & _).
  rewrite Hmove in Hu8. exact (Hu8 0).
Defined.

(** The same seven bytes read as different types. *)
Example DecodeUint16_little_endian :
  DecodeUint16 examples.decoder_seven_left 0
  = Return None (set_cursor examples.decoder_seven_left 3, 770).
Proof. reflexivity. Qed.

Example DecodeUint16BigEndian_big_endian :
  DecodeUint16BigEndian examples.decoder_seven_left 0
  = Return None (set_cursor examples.decoder_seven_left 3, 515).
Proof. reflexivity. Qed.

Example DecodeInt8_negative :
  DecodeInt8 (set_cursor examples.decoder_at_header 146) 0
  = Return None (set_cursor examples.decoder_at_header 147, -52).
Proof. reflexivity. Qed.

(** A header cut one byte short is refused as a whole. *)
Example DecodeContext_one_byte_short :
  DecodeContext (set_cursor examples.decoder_at_header 4) examples.zeroContext
  = Return (Some (ErrContextSize 143 144))
      (set_cursor examples.decoder_at_header 4, examples.zeroContext).
Proof. reflexivity. Qed.

(** When the mathematical sum does not fit an [int], it is the wrapped
    sum that [MoveCursor] compares and stores. *)
Example MoveCursor_wrapped_sum :
  MoveCursor examples.decoder_seven_left max_int
  = (set_cursor examples.decoder_seven_left min_int, min_int).
Proof. reflexivity. Qed.

End DecoderWitnesses.

(** ** Assembly and derivation at concrete inputs *)
Section AssemblyWitnesses.
Import bufferdecoder.
Lemma DecodeArguments_complete_witness :
  well_supplied (length examples.three_fields)
    (reads examples.readArgFromBuff (Z.to_nat 2) 0 examples.decoder_two_args
       examples.three_fields) = true /\
  exists d' args,
    DecodeArguments examples.readArgFromBuff examples.decoder_two_args
      (replicate (length examples.three_fields) trace.zeroArgument) 2
      examples.three_fields "openat" 0
    = Return None (d', args) /\
    args !! 0%nat
    = Some {| trace.Argument_ArgMeta :=
                {| trace.Name := "fd"; trace.Type_ := "int" |};
              trace.Value := any_int 9 |} /\
    args !! 1%nat
    = Some {| trace.Argument_ArgMeta :=
                {| trace.Name := "pathname"; trace.Type_ := "string" |};
              trace.Value := any_string "" |} /\
    args !! 2%nat
    = Some {| trace.Argument_ArgMeta :=
                {| trace.Name := "flags"; trace.Type_ := "int" |};
              trace.Value := any_int 7 |} /\
    length args = 3%nat.
Proof.
  assert (H : well_supplied (length examples.three_fields)
                (reads examples.readArgFromBuff (Z.to_nat 2) 0
                   examples.decoder_two_args examples.three_fields) = true)
    by (vm_compute; reflexivity).
  split; [exact H |].
  destruct (DecodeArguments_complete examples.readArgFromBuff
              examples.decoder_two_args 2 examples.three_fields "openat" 0 H)
    as (d' & args & Hrun & Hlen & Hsupplied & Hmissing).
  exists d', args. split; [exact Hrun |].
  split.
  { apply Hsupplied. apply list_elem_of_In. vm_compute.
    right; left; reflexivity. }
  split.
  { refine (Hmissing 1%nat _ eq_refl _).
    intros Hin. apply list_elem_of_In in Hin. vm_compute in Hin.
    destruct Hin as [Hin | [Hin | []]]; discriminate Hin. }
  split.
  { apply Hsupplied. apply list_elem_of_In. vm_compute.
    left; reflexivity. }
  exact Hlen.
Defined.
End AssemblyWitnesses.

Section DeriveWitnesses.
Import derive derive_examples.

Lemma Register_spec_witness :
  is_Some (registered mockDerivationTable testEventID failEventID) /\
  Register mockDerivationTable testEventID failEventID (fun _ => false)
    (fun e => ret ([], []))
  = (mockDerivationTable,
     Some (alreadyRegisteredError testEventID failEventID)) /\
  registered mockDerivationTable testEventID 13 = None /\
  (Register mockDerivationTable testEventID 13 (fun _ => false)
     (fun e => ret ([], []))).2 = None.
Proof.
  assert (H : is_Some (registered mockDerivationTable testEventID failEventID)).
  { exists alwaysDeriveError. vm_compute. reflexivity. }
  assert (H' : registered mockDerivationTable testEventID 13 = None)
    by (vm_compute; reflexivity).
  split; [exact H |].
  split; [exact (proj1 (Register_spec mockDerivationTable testEventID
                          failEventID (fun _ => false)
                          (fun e => ret ([], []))) H) |].
  split; [exact H' |].
  exact (proj1 (proj2 (Register_spec mockDerivationTable testEventID 13
                         (fun _ => false) (fun e => ret ([], []))) H')).
Defined.

Lemma DeriveEvent_independent_witness :
  failEventID <> deriveEventID /\
  deriveFns mockDerivationTable testEvent
  = <[failEventID := alwaysDeriveError]> {[deriveEventID := deriveOne]} /\
  forall res, DeriveEvent mockDerivationTable testEvent ∅ res ->
    exists h',
      res = Some (([set_EventID deriveEventID zeroEvent],
                   [deriveError failEventID (errors_New "derive error")]),
                  h').
Proof.
  assert (Hne : failEventID <> deriveEventID) by discriminate.
  assert (Hfns : deriveFns mockDerivationTable testEvent
                 = <[failEventID := alwaysDeriveError]>
                     {[deriveEventID := deriveOne]}).
  { vm_compute. reflexivity. }
  split; [exact Hne |]. split; [exact Hfns |].
  intros res Hres.
  destruct (DeriveEvent_independent mockDerivationTable testEvent ∅
              failEventID deriveEventID alwaysDeriveError deriveOne
              (errors_New "derive error") Hne Hfns eq_refl eq_refl
              (fun h0 => ex_intro _ h0 eq_refl)
              (fun h0 => ex_intro _ _ (ex_intro _ h0 eq_refl)))
    as [_ Hall].
  destruct (Hall res Hres) as (hB & evB & hB' & h' & HB & ->).
  cbn in HB. unfold ret in HB. injection HB as <- _.
  exists h'. reflexivity.
Defined.

Lemma deriveMultipleEvents_mismatch_isolated_witness :
  exists de h2,
    deriveMultipleEvents getEventDefinition 0 wrong_then_right getTestEvent
      test_heap
    = Some (([de], [unexpectedArgCountError "test_event" 2 3]), h2) /\
    EventName de = "test_event"%string /\
    Args de = schema_args two_int_fields [any_int 1; any_int 2].
Proof.
  destruct (deriveMultipleEvents_mismatch_isolated getEventDefinition 0
              wrong_then_right getTestEvent test_heap test_heap
              [any_int 1; any_int 2] [any_int 1; any_int 2; any_int 3]
              [[any_int 1; any_int 2; any_int 3]; [any_int 1; any_int 2]] []
              eq_refl ltac:(discriminate) (or_introl eq_refl) eq_refl)
    as (de & h2 & Hbuild & Hrun).
  exists de, h2. split; [exact Hrun |].
  vm_compute in Hbuild. injection Hbuild as <- _. split; reflexivity.
Defined.

Lemma buildDerivedEvent_frame_witness :
  exists de h',
    buildDerivedEvent getTestEvent test_skeleton [any_int 1; any_string "test"]
      test_heap = Some ((de, None), h') /\
    EventID de = 124 /\ ReturnValue de = 0 /\ StackAddresses de = [0] /\
    Timestamp de = 100000 /\
    MatchedPolicies de = Some 2%positive /\
    h' !! 2%positive = Some ["policy-a"; "policy-b"]%string /\
    h' !! 1%positive = Some ["policy-a"; "policy-b"]%string.
Proof.
  destruct (buildDerivedEvent_frame getTestEvent test_skeleton
              [any_int 1; any_string "test"] test_heap eq_refl)
    as (de & h' & Hbuild & Hsame & Hnew & Hmp & _).
  { intros l [= <-]. exists ["policy-a"; "policy-b"]%string. reflexivity. }
  exists de, h'. split; [exact Hbuild |].
  vm_compute in Hbuild. injection Hbuild as <- <-.
  repeat split; reflexivity.
Defined.
(** The cases of [Test_DeriveSingleEvent]. *)
Example deriveSingleEvent_happy_flow :
  exists de h,
    deriveSingleEvent getEventDefinition 0
      (fun e => ret (Some [any_int 1; any_int 2], None)) getTestEvent test_heap
    = Some (([de], []), h).
Proof. eexists _, _. reflexivity. Qed.

Example deriveSingleEvent_no_derivation :
  deriveSingleEvent getEventDefinition 0 (fun e => ret (None, None))
    getTestEvent test_heap
  = Some (([], []), test_heap).
Proof. reflexivity. Qed.

Example deriveSingleEvent_unexpected_argument_count :
  deriveSingleEvent getEventDefinition 0
    (fun e => ret (Some [any_int 1; any_int 2; any_int 3], None))
    getTestEvent test_heap
  = Some (([], [unexpectedArgCountError "test_event" 2 3]), test_heap).
Proof. reflexivity. Qed.

End DeriveWitnesses.
(** * Further properties *)

(** Every slice of a record's layout lies in the buffer once the bounds
    check has passed: resolve them all, and read the integers. *)
Ltac read_fields :=
  repeat match goal with
  | |- context [slice ?b ?lo ?hi] =>
      rewrite (slice_in_range b lo hi) by lia
  end;
  repeat match goal with
  | |- context [Z.to_nat (?hi - ?lo)] =>
      first [ replace (Z.to_nat (hi - lo)) with 8%nat by lia
            | replace (Z.to_nat (hi - lo)) with 4%nat by lia
            | replace (Z.to_nat (hi - lo)) with 2%nat by lia
            | replace (Z.to_nat (hi - lo)) with 16%nat by lia
            | replace (Z.to_nat (hi - lo)) with 28%nat by lia ]
  end;
  cbn [mbind option_bind];
  repeat first
    [ rewrite LittleEndian_Uint64_value by (apply length_bytes_at; lia)
    | rewrite LittleEndian_Uint32_value by (apply length_bytes_at; lia)
    | rewrite LittleEndian_Uint16_value by (apply length_bytes_at; lia) ].

(** ** Byte arrays and the int32 array *)
Section VariableWidth.
Import bufferdecoder bufferdecoder_ext.

Lemma out_of_bounds_slice (d : EbpfDecoder) :
  ~ in_bounds d -> slice_from (buffer d) (cursor d) = None.
Proof.
  intros Hd. apply slice_from_out_of_range. unfold in_bounds in Hd. lia.
Qed.

Lemma DecodeBytes_outcome (d : EbpfDecoder) (msg : list byte) (size : Z) :
  in_bounds d -> 0 <= size ->
  DecodeBytes d msg size
  = if remaining d <? size then
      Return (Some (ErrBufferTooShort size (remaining d) "bytes")) (d, msg)
    else
      Return None
        (set_cursor d (cursor d + size),
         copy msg (bytes_at (buffer d) (cursor d) (Z.to_nat size))).
Proof.
  intros Hd Hsize. unfold DecodeBytes.
  destruct (slice_from_cursor d Hd) as (rest & -> & Hlen). rewrite Hlen.
  destruct (Z.ltb_spec (remaining d) size) as [Hr | Hr].
  - now rewrite (makeBufferTooShortError_in_bounds d _ _ Hd).
  - now destruct (slice_at_cursor d size Hd ltac:(lia)) as [-> _].
Qed.

(** X1: [DecodeBytes] with a non-negative [size], on a decoder whose
    cursor lies in its buffer.  With fewer than [size] bytes remaining it
    returns [ErrBufferTooShort] for type "bytes" and changes nothing.
    Otherwise it copies the next [size] bytes over the front of [msg] (as
    many as [msg] has room for) and moves the cursor by [size], whatever
    the length of [msg]; a destination of exactly [size] bytes ends up
    holding exactly the bytes read. *)
Theorem DecodeBytes_spec (d : EbpfDecoder) (msg : list byte) (size : Z) :
  in_bounds d -> 0 <= size ->
  (remaining d < size ->
     DecodeBytes d msg size
     = Return (Some (ErrBufferTooShort size (remaining d) "bytes")) (d, msg)) /\
  (size <= remaining d ->
     DecodeBytes d msg size
     = Return None
         (set_cursor d (cursor d + size),
          copy msg (bytes_at (buffer d) (cursor d) (Z.to_nat size))) /\
     (len msg = size ->
        copy msg (bytes_at (buffer d) (cursor d) (Z.to_nat size))
        = bytes_at (buffer d) (cursor d) (Z.to_nat size))).
Proof.
  intros Hd Hsize. rewrite (DecodeBytes_outcome d msg size Hd Hsize).
  split; intros Hr.
  - destruct (Z.ltb_spec (remaining d) size) as [_ |]; [reflexivity | lia].
  - destruct (Z.ltb_spec (remaining d) size) as [| _]; [lia |].
    split; [reflexivity |].
    intros Hmsg. apply copy_same_length.
    destruct (slice_at_cursor d size Hd ltac:(lia)) as [_ Hw].
    rewrite Hw. unfold len in Hmsg. lia.
Qed.

(** X2: a negative size is not refused by the bounds check: on a decoder
    whose cursor lies in its buffer [DecodeBytes] panics on its slice
    expression, and [ReadBytesLen] panics already when it allocates. *)
Theorem negative_size_panics (maxAlloc : Z) (d : EbpfDecoder)
    (msg : list byte) (size : Z) :
  in_bounds d -> size < 0 ->
  DecodeBytes d msg size = Panicked /\ ReadBytesLen maxAlloc d size = None.
Proof.
  intros Hd Hsize. split.
  - unfold DecodeBytes.
    destruct (slice_from_cursor d Hd) as (rest & -> & Hlen). rewrite Hlen.
    assert (Hr : 0 <= remaining d) by (unfold remaining, in_bounds in *; lia).
    destruct (Z.ltb_spec (remaining d) size) as [| _]; [lia |].
    unfold slice.
    destruct (Z.leb_spec (cursor d) (cursor d + size)) as [| _]; [lia |].
    now rewrite andb_false_r.
  - unfold ReadBytesLen, make_bytes.
    destruct (Z.leb_spec 0 size) as [| _]; [lia | reflexivity].
Qed.

(** X3: [ReadBytesLen] for a length the runtime can allocate, on a
    decoder whose cursor lies in its buffer: with enough bytes remaining
    it returns exactly the next [n] bytes and moves the cursor by [n];
    otherwise it returns the nil slice and the wrapped [ErrBufferTooShort]
    and leaves the decoder as it was. *)
Theorem ReadBytesLen_spec (maxAlloc : Z) (d : EbpfDecoder) (n : Z) :
  in_bounds d -> 0 <= n <= maxAlloc ->
  ReadBytesLen maxAlloc d n
  = if remaining d <? n then
      Some (d, None,
            Some (ErrReadingByteArray
                    (ErrBufferTooShort n (remaining d) "bytes")))
    else
      Some (set_cursor d (cursor d + n),
            Some (bytes_at (buffer d) (cursor d) (Z.to_nat n)), None).
Proof.
  intros Hd [Hn0 Hn1]. unfold ReadBytesLen, make_bytes.
  destruct (Z.leb_spec 0 n) as [_ |]; [| lia].
  destruct (Z.leb_spec n maxAlloc) as [_ |]; [| lia].
  cbn [andb mbind option_bind].
  rewrite (DecodeBytes_outcome d _ n Hd Hn0).
  destruct (Z.ltb_spec (remaining d) n) as [Hr | Hr]; [reflexivity |].
  rewrite copy_same_length; [reflexivity |].
  destruct (slice_at_cursor d n Hd ltac:(lia)) as [_ Hw].
  now rewrite Hw, length_replicate.
Qed.

End VariableWidth.

(** ** Arrays of integers *)
Section Arrays.
Import bufferdecoder bufferdecoder_ext.

Lemma DecodeInt32Array_loop_fills (count : nat) :
  forall (i : nat) (d : EbpfDecoder) (msg : list Z),
    in_bounds d -> 4 * Z.of_nat count <= remaining d ->
    (i + count <= length msg)%nat ->
    DecodeInt32Array_loop count i d msg
    = Return None
        (set_cursor d (cursor d + 4 * Z.of_nat count),
         take i msg ++ int32s_at (buffer d) (cursor d) count
         ++ drop (i + count) msg).
Proof.
  induction count as [| count IH]; intros i d msg Hd Hr Hmsg.
  - cbn [DecodeInt32Array_loop int32s_at app].
    rewrite Nat.add_0_r, take_drop.
    replace (cursor d + 4 * Z.of_nat 0) with (cursor d) by lia.
    now rewrite set_cursor_same.
  - cbn [DecodeInt32Array_loop].
    destruct (slice_at_cursor d 4 Hd ltac:(lia)) as [-> Hw].
    cbn [mbind option_bind].
    rewrite LittleEndian_Uint32_value by exact Hw.
    destruct (lookup_lt_is_Some_2 msg i ltac:(lia)) as [x Hx]. rewrite Hx.
    set (v := int32 (le_value (bytes_at (buffer d) (cursor d) (Z.to_nat 4)))).
    set (d' := set_cursor d (cursor d + 4)).
    assert (Hd' : in_bounds d').
    { unfold in_bounds, remaining in *. cbn. lia. }
    rewrite (IH (S i) d' (<[i := v]> msg) Hd').
    + change (buffer d') with (buffer d).
      change (cursor d') with (cursor d + 4).
      cbn [int32s_at]. f_equal. f_equal.
      * unfold set_cursor. cbn. f_equal. lia.
      * rewrite (take_S_r _ _ v)
          by (apply list_lookup_insert_eq; now apply lookup_lt_Some in Hx).
        rewrite take_insert_ge by lia.
        rewrite drop_insert_lt by lia.
        rewrite <- app_assoc. cbn [app].
        replace (S i + count)%nat with (i + S count)%nat by lia.
        reflexivity.
    + unfold remaining in *. cbn. lia.
    + rewrite length_insert. lia.
Qed.

Lemma DecodeInt32Array_loop_overruns (count : nat) :
  forall (i : nat) (d : EbpfDecoder) (msg : list Z),
    in_bounds d -> 4 * Z.of_nat count <= remaining d ->
    (i <= length msg < i + count)%nat ->
    DecodeInt32Array_loop count i d msg = Panicked.
Proof.
  induction count as [| count IH]; intros i d msg Hd Hr Hmsg; [lia |].
  cbn [DecodeInt32Array_loop].
  destruct (slice_at_cursor d 4 Hd ltac:(lia)) as [-> Hw].
  cbn [mbind option_bind].
  rewrite LittleEndian_Uint32_value by exact Hw.
  destruct (msg !! i) as [x |] eqn:Hx; [| reflexivity].
  apply lookup_lt_Some in Hx.
  apply IH.
  - unfold in_bounds, remaining in *. cbn. lia.
  - unfold remaining in *. cbn. lia.
  - rewrite length_insert. lia.
Qed.

Lemma int_mul_small (a b : Z) :
  min_int <= a * b <= max_int -> int_mul a b = a * b.
Proof. apply wrap_int_in_range. Qed.

(** X4: [DecodeInt32Array] checks the whole array before it reads any of
    it.  For a non-negative [size] whose byte count fits an [int], on a
    decoder whose cursor lies in its buffer: with fewer than [4 * size]
    bytes remaining it returns [ErrBufferTooShort] and leaves destination
    and cursor untouched; otherwise, given a destination of at least
    [size] elements, the first [size] elements become the little-endian
    signed 32-bit values read, the other elements stay, and the cursor
    moves by [4 * size]. *)
Theorem DecodeInt32Array_spec (d : EbpfDecoder) (msg : list Z) (size : Z) :
  in_bounds d -> 0 <= size -> 4 * size <= max_int ->
  (remaining d < 4 * size ->
     DecodeInt32Array d msg size
     = Return (Some (ErrBufferTooShort (4 * size) (remaining d) "[]int32"))
         (d, msg)) /\
  (4 * size <= remaining d -> size <= len msg ->
     DecodeInt32Array d msg size
     = Return None
         (set_cursor d (cursor d + 4 * size),
          int32s_at (buffer d) (cursor d) (Z.to_nat size)
          ++ drop (Z.to_nat size) msg)).
Proof.
  intros Hd Hsize Hmax. unfold DecodeInt32Array.
  destruct (slice_from_cursor d Hd) as (rest & -> & Hlen). rewrite Hlen.
  rewrite int_mul_small by (unfold min_int, max_int in *; lia).
  replace (size * 4) with (4 * size) by lia.
  split.
  - intros Hr.
    destruct (Z.ltb_spec (remaining d) (4 * size)) as [_ |]; [| lia].
    now rewrite (makeBufferTooShortError_in_bounds d _ _ Hd).
  - intros Hr Hmsg.
    destruct (Z.ltb_spec (remaining d) (4 * size)) as [| _]; [lia |].
    rewrite DecodeInt32Array_loop_fills; try assumption.
    + cbn [take app]. do 3 f_equal. lia.
    + lia.
    + unfold len in Hmsg. lia.
Qed.

(** X5: the bounds check of [DecodeInt32Array] covers the buffer, not
    the destination: with enough bytes remaining but a destination of
    fewer than [size] elements the call panics (index out of range). *)
Theorem DecodeInt32Array_short_destination (d : EbpfDecoder) (msg : list Z)
    (size : Z) :
  in_bounds d -> 0 <= size -> 4 * size <= max_int ->
  4 * size <= remaining d -> len msg < size ->
  DecodeInt32Array d msg size = Panicked.
Proof.
  intros Hd Hsize Hmax Hr Hmsg. unfold DecodeInt32Array.
  destruct (slice_from_cursor d Hd) as (rest & -> & Hlen). rewrite Hlen.
  rewrite int_mul_small by (unfold min_int, max_int in *; lia).
  destruct (Z.ltb_spec (remaining d) (size * 4)) as [| _]; [lia |].
  apply DecodeInt32Array_loop_overruns; try assumption.
  - lia.
  - unfold len in Hmsg. lia.
Qed.

(** X6: when the bytes after the 16-bit count hold all the elements it
    announces, [DecodeUint64Array] returns no error, appends exactly
    those [count] little-endian 64-bit values to the destination, in
    buffer order, and leaves the cursor just past the last of them. *)
Theorem DecodeUint64Array_complete (d : EbpfDecoder) (msg : list Z) :
  in_bounds d -> 2 <= remaining d ->
  8 * le_value (bytes_at (buffer d) (cursor d) 2) <= remaining d - 2 ->
  DecodeUint64Array d msg
  = Return None
      (set_cursor d
         (cursor d + 2 + 8 * le_value (bytes_at (buffer d) (cursor d) 2)),
       msg ++ uint64s_at (buffer d) (cursor d + 2)
                (Z.to_nat (le_value (bytes_at (buffer d) (cursor d) 2)))).
Proof.
  intros Hd Hr Hcount. unfold DecodeUint64Array.
  rewrite (DecodeUint16_spec d 0 Hd). unfold fixed_width_result.
  destruct (Z.ltb_spec (remaining d) 2) as [| _]; [lia |].
  change (Z.to_nat 2) with 2%nat.
  set (arrLen := le_value (bytes_at (buffer d) (cursor d) 2)) in *.
  assert (Hlen0 : 0 <= arrLen).
  { unfold arrLen. clear.
    induction (bytes_at (buffer d) (cursor d) 2) as [| b l IH]; cbn; [lia |].
    pose proof (u8_range b). lia. }
  set (d' := set_cursor d (cursor d + 2)).
  assert (Hd' : in_bounds d').
  { unfold in_bounds, remaining in *. cbn. lia. }
  assert (Hr' : remaining d' = remaining d - 2).
  { unfold remaining. cbn. lia. }
  rewrite (DecodeUint64Array_loop_spec _ 0 d' msg Hd'). rewrite Hr'.
  destruct (Z.leb_spec (8 * Z.of_nat (Z.to_nat arrLen)) (remaining d - 2));
    [| lia].
  do 2 f_equal. unfold d', set_cursor. cbn. f_equal. lia.
Qed.

(** X7: when fewer than two bytes remain, [DecodeUint64Array] cannot read
    the count: it returns the wrapped [ErrBufferTooShort] of the 16-bit
    read and changes neither the destination nor the cursor. *)
Theorem DecodeUint64Array_no_count (d : EbpfDecoder) (msg : list Z) :
  in_bounds d -> remaining d < 2 ->
  DecodeUint64Array d msg
  = Return (Some (ErrArrayCount (ErrBufferTooShort 2 (remaining d) "uint16")))
      (d, msg).
Proof.
  intros Hd Hr. unfold DecodeUint64Array.
  rewrite (DecodeUint16_spec d 0 Hd). unfold fixed_width_result.
  destruct (Z.ltb_spec (remaining d) 2) as [_ |]; [reflexivity | lia].
Qed.

End Arrays.

(** ** What the decoders keep, and how their reads relate *)
Section Invariants.
Import bufferdecoder bufferdecoder_ext.

Lemma remaining_nonneg (d : EbpfDecoder) : in_bounds d -> 0 <= remaining d.
Proof. unfold in_bounds, remaining. lia. Qed.

Lemma advanced_refl (d : EbpfDecoder) : in_bounds d -> advanced d d.
Proof. intros Hd. repeat split; try reflexivity; try apply Hd. Qed.

Lemma advanced_by (d : EbpfDecoder) (w : Z) :
  in_bounds d -> 0 <= w <= remaining d ->
  advanced d (set_cursor d (cursor d + w)).
Proof.
  intros Hd Hw. unfold advanced, in_bounds, remaining in *. cbn.
  repeat split; lia.
Qed.

Lemma fixed_width_result_advanced {T : Type} (w : Z) (name : string)
    (value : list byte -> T) (d : EbpfDecoder) (msg : T) :
  in_bounds d -> 0 <= w ->
  returns (fun s => advanced d s.1) (fixed_width_result w name value d msg).
Proof.
  intros Hd Hw. unfold fixed_width_result.
  destruct (Z.ltb_spec (remaining d) w); cbn.
  - now apply advanced_refl.
  - apply advanced_by; [assumption | lia].
Qed.

Lemma DecodeContext_returns (d : EbpfDecoder) (eCtx : EventContext) :
  in_bounds d ->
  (remaining d < 144 ->
     DecodeContext d eCtx
     = Return (Some (ErrContextSize (remaining d) 144)) (d, eCtx)) /\
  (144 <= remaining d ->
     exists eCtx',
       DecodeContext d eCtx
       = Return None (set_cursor d (cursor d + 144), eCtx')).
Proof.
  intros Hd. unfold DecodeContext, GetSizeBytes.
  destruct (slice_from_cursor d Hd) as (rest & -> & Hlen). rewrite Hlen.
  split; intros Hr.
  - destruct (Z.ltb_spec (remaining d) 144) as [_ |]; [reflexivity | lia].
  - destruct (Z.ltb_spec (remaining d) 144) as [| _]; [lia |].
    destruct Hd as [Hlo Hhi]. unfold remaining in Hr.
    read_fields. eexists. reflexivity.
Qed.

Lemma DecodeUint64Array_loop_advanced (count : nat) (i : Z)
    (d : EbpfDecoder) (msg : list Z) :
  in_bounds d ->
  returns (fun s => advanced d s.1) (DecodeUint64Array_loop count i d msg).
Proof.
  intros Hd. rewrite (DecodeUint64Array_loop_spec count i d msg Hd).
  pose proof (remaining_nonneg d Hd) as Hr.
  destruct (Z.leb_spec (8 * Z.of_nat count) (remaining d)); cbn.
  - apply advanced_by; [assumption | lia].
  - apply advanced_by; [assumption |].
    pose proof (Z.mul_div_le (remaining d) 8 ltac:(lia)).
    pose proof (Z.div_pos (remaining d) 8 Hr ltac:(lia)). lia.
Qed.

Lemma advanced_trans (d1 d2 d3 : EbpfDecoder) :
  advanced d1 d2 -> advanced d2 d3 -> advanced d1 d3.
Proof.
  intros (Hb1 & Ht1 & Hc1 & Hi1) (Hb2 & Ht2 & Hc2 & Hi2).
  repeat split; try congruence; try lia; apply Hi2.
Qed.

(** X8: from a decoder whose cursor lies in its buffer, every fixed-width
    primitive, [DecodeContext], [DecodeUint64Array] and [DecodeBytes]
    (for a non-negative size) return without panicking, with or without
    an error, and leave a decoder with the same buffer and type decoder
    whose cursor has not moved back and still lies in the buffer. *)
Theorem decoders_advance (d : EbpfDecoder) :
  in_bounds d ->
  (forall msg, returns (fun s => advanced d s.1) (DecodeUint8 d msg)) /\
  (forall msg, returns (fun s => advanced d s.1) (DecodeInt8 d msg)) /\
  (forall msg, returns (fun s => advanced d s.1) (DecodeUint16 d msg)) /\
  (forall msg,
     returns (fun s => advanced d s.1) (DecodeUint16BigEndian d msg)) /\
  (forall msg, returns (fun s => advanced d s.1) (DecodeInt16 d msg)) /\
  (forall msg, returns (fun s => advanced d s.1) (DecodeUint32 d msg)) /\
  (forall msg,
     returns (fun s => advanced d s.1) (DecodeUint32BigEndian d msg)) /\
  (forall msg, returns (fun s => advanced d s.1) (DecodeInt32 d msg)) /\
  (forall msg, returns (fun s => advanced d s.1) (DecodeUint64 d msg)) /\
  (forall msg, returns (fun s => advanced d s.1) (DecodeInt64 d msg)) /\
  (forall msg, returns (fun s => advanced d s.1) (DecodeBool d msg)) /\
  (forall eCtx, returns (fun s => advanced d s.1) (DecodeContext d eCtx)) /\
  (forall msg,
     returns (fun s => advanced d s.1) (DecodeUint64Array d msg)) /\
  (forall msg size, 0 <= size ->
     returns (fun s => advanced d s.1) (DecodeBytes d msg size)).
Proof.
  intros Hd.
  repeat match goal with |- _ /\ _ => split end.
  - intros msg. rewrite DecodeUint8_spec by assumption.
    apply fixed_width_result_advanced; [assumption | lia].
  - intros msg. rewrite DecodeInt8_spec by assumption.
    apply fixed_width_result_advanced; [assumption | lia].
  - intros msg. rewrite DecodeUint16_spec by assumption.
    apply fixed_width_result_advanced; [assumption | lia].
  - intros msg. rewrite DecodeUint16BigEndian_spec by assumption.
    apply fixed_width_result_advanced; [assumption | lia].
  - intros msg. rewrite DecodeInt16_spec by assumption.
    apply fixed_width_result_advanced; [assumption | lia].
  - intros msg. rewrite DecodeUint32_spec by assumption.
    apply fixed_width_result_advanced; [assumption | lia].
  - intros msg. rewrite DecodeUint32BigEndian_spec by assumption.
    apply fixed_width_result_advanced; [assumption | lia].
  - intros msg. rewrite DecodeInt32_spec by assumption.
    apply fixed_width_result_advanced; [assumption | lia].
  - intros msg. rewrite DecodeUint64_spec by assumption.
    apply fixed_width_result_advanced; [assumption | lia].
  - intros msg. rewrite DecodeInt64_spec by assumption.
    apply fixed_width_result_advanced; [assumption | lia].
  - intros msg. rewrite DecodeBool_spec by assumption.
    apply fixed_width_result_advanced; [assumption | lia].
  - intros eCtx. destruct (DecodeContext_returns d eCtx Hd) as [Hshort Hlong].
    destruct (Z.lt_ge_cases (remaining d) 144) as [Hr | Hr].
    + rewrite (Hshort Hr). cbn. now apply advanced_refl.
    + destruct (Hlong Hr) as [eCtx' ->]. cbn.
      apply advanced_by; [assumption |].
      pose proof (remaining_nonneg d Hd). lia.
  - intros msg. unfold DecodeUint64Array.
    rewrite DecodeUint16_spec by assumption. unfold fixed_width_result.
    destruct (Z.ltb_spec (remaining d) 2) as [Hr | Hr].
    + cbn. now apply advanced_refl.
    + assert (Hstep : advanced d (set_cursor d (cursor d + 2)))
        by (apply advanced_by; [assumption | lia]).
      pose proof (DecodeUint64Array_loop_advanced
                    (Z.to_nat (le_value (bytes_at (buffer d) (cursor d)
                                           (Z.to_nat 2))))
                    0 (set_cursor d (cursor d + 2)) msg
                    (proj2 (proj2 (proj2 Hstep)))) as Hloop.
      destruct (DecodeUint64Array_loop _ _ _ _) as [err [d' msg'] |];
        [| contradiction].
      cbn in Hloop |- *. eapply advanced_trans; eassumption.
  - intros msg size Hsize.
    rewrite DecodeBytes_outcome by assumption.
    destruct (Z.ltb_spec (remaining d) size); cbn.
    + now apply advanced_refl.
    + apply advanced_by; [assumption | lia].
Qed.

Lemma le_value_app (a b : list byte) :
  le_value (a ++ b) = le_value a + 256 ^ len a * le_value b.
Proof.
  induction a as [| x a IH]; cbn [app le_value].
  - unfold len. cbn. lia.
  - rewrite IH. unfold len. cbn [length].
    rewrite Nat2Z.inj_succ, Z.pow_succ_r by lia. lia.
Qed.

Lemma le_value_bound (bs : list byte) : 0 <= le_value bs < 256 ^ len bs.
Proof.
  induction bs as [| b bs IH]; unfold len in *; cbn [le_value length].
  - cbn. lia.
  - pose proof (u8_range b).
    rewrite Nat2Z.inj_succ, Z.pow_succ_r by lia. lia.
Qed.

Lemma bytes_at_split (buf : list byte) (off : Z) (n m : nat) :
  0 <= off ->
  bytes_at buf off (n + m)
  = bytes_at buf off n ++ bytes_at buf (off + Z.of_nat n) m.
Proof.
  intros Hoff. unfold bytes_at.
  rewrite <- take_take_drop, drop_drop. do 3 f_equal. lia.
Qed.

(** X9: reading one little-endian 64-bit value is reading two 32-bit
    values, low half first: with at least eight bytes remaining, two
    calls of [DecodeUint32] succeed with [lo] and [hi], one call of
    [DecodeUint64] succeeds with [lo + 2^32 * hi], and both ways leave
    the same decoder. *)
Theorem DecodeUint64_as_two_DecodeUint32 (d : EbpfDecoder) (m1 m2 m3 : Z) :
  in_bounds d -> 8 <= remaining d ->
  exists lo hi d1 d2,
    DecodeUint32 d m1 = Return None (d1, lo) /\
    DecodeUint32 d1 m2 = Return None (d2, hi) /\
    DecodeUint64 d m3 = Return None (d2, lo + 2 ^ 32 * hi).
Proof.
  intros Hd Hr.
  set (d1 := set_cursor d (cursor d + 4)).
  assert (Hd1 : in_bounds d1).
  { unfold in_bounds, remaining in *. cbn. lia. }
  exists (le_value (bytes_at (buffer d) (cursor d) 4)),
         (le_value (bytes_at (buffer d) (cursor d + 4) 4)),
         d1, (set_cursor d (cursor d + 8)).
  rewrite (DecodeUint32_spec d m1 Hd), (DecodeUint32_spec d1 m2 Hd1),
          (DecodeUint64_spec d m3 Hd).
  unfold fixed_width_result.
  assert (Hr1 : remaining d1 = remaining d - 4)
    by (unfold remaining; cbn; lia).
  rewrite Hr1.
  destruct (Z.ltb_spec (remaining d) 4) as [| _]; [lia |].
  destruct (Z.ltb_spec (remaining d - 4) 4) as [| _]; [lia |].
  destruct (Z.ltb_spec (remaining d) 8) as [| _]; [lia |].
  split; [reflexivity |]. split.
  - do 2 f_equal. unfold d1, set_cursor. cbn. f_equal. lia.
  - do 2 f_equal.
    change (Z.to_nat 8) with (4 + 4)%nat.
    rewrite bytes_at_split by apply Hd.
    rewrite le_value_app.
    assert (Hl : len (bytes_at (buffer d) (cursor d) 4) = 4).
    { unfold len. rewrite length_bytes_at; [reflexivity | apply Hd |].
      unfold remaining in Hr. lia. }
    rewrite Hl. reflexivity.
Qed.

End Invariants.

(** ** Values and byte order *)
Section Values.
Import bufferdecoder bufferdecoder_ext.

Lemma to_signed_range (w x : Z) :
  0 < w -> 0 <= x < 2 ^ w -> - 2 ^ (w - 1) <= to_signed w x < 2 ^ (w - 1).
Proof.
  intros Hw Hx. unfold to_signed.
  assert (Hp : 2 ^ w = 2 * 2 ^ (w - 1)).
  { replace w with (1 + (w - 1)) at 1 by lia.
    rewrite Z.pow_add_r by lia. reflexivity. }
  destruct (Z.ltb_spec x (2 ^ (w - 1))); lia.
Qed.

Lemma le_value_width (d : EbpfDecoder) (w : Z) :
  in_bounds d -> 0 <= w <= remaining d ->
  0 <= le_value (bytes_at (buffer d) (cursor d) (Z.to_nat w)) < 256 ^ w.
Proof.
  intros Hd Hw.
  pose proof (le_value_bound (bytes_at (buffer d) (cursor d) (Z.to_nat w)))
    as Hb.
  destruct (slice_at_cursor d w Hd Hw) as [_ Hlen].
  unfold len in Hb. rewrite Hlen in Hb.
  now rewrite Z2Nat.id in Hb by lia.
Qed.

Lemma be_value_width (d : EbpfDecoder) (w : Z) :
  in_bounds d -> 0 <= w <= remaining d ->
  0 <= be_value (bytes_at (buffer d) (cursor d) (Z.to_nat w)) < 256 ^ w.
Proof.
  intros Hd Hw. unfold be_value.
  pose proof (le_value_bound
                (rev (bytes_at (buffer d) (cursor d) (Z.to_nat w)))) as Hb.
  destruct (slice_at_cursor d w Hd Hw) as [_ Hlen].
  unfold len in Hb. rewrite length_rev, Hlen in Hb.
  now rewrite Z2Nat.id in Hb by lia.
Qed.

(** What a successful run of a primitive of width [w] stored. *)
Lemma fixed_width_result_value {T : Type} (w : Z) (name : string)
    (value : list byte -> T) (d d' : EbpfDecoder) (msg v : T) :
  fixed_width_result w name value d msg = Return None (d', v) ->
  w <= remaining d /\
  v = value (bytes_at (buffer d) (cursor d) (Z.to_nat w)).
Proof.
  unfold fixed_width_result.
  destruct (Z.ltb_spec (remaining d) w); [discriminate |].
  intros [= _ <-]. split; [assumption | reflexivity].
Qed.

Ltac not_in_bounds d Hd op :=
  unfold op; rewrite (out_of_bounds_slice d Hd); discriminate.

(** X11: whatever a numeric primitive stores when it returns without
    error fits the type it decodes: [0, 2^w) for the unsigned ones,
    [-2^(w-1), 2^(w-1)) for the signed ones.  (A primitive called with
    its cursor outside the buffer panics, so it stores nothing.) *)
Theorem decoded_values_fit_their_types (d d' : EbpfDecoder) (msg v : Z) :
  (DecodeUint8 d msg = Return None (d', v) -> 0 <= v < 2 ^ 8) /\
  (DecodeInt8 d msg = Return None (d', v) -> - 2 ^ 7 <= v < 2 ^ 7) /\
  (DecodeUint16 d msg = Return None (d', v) -> 0 <= v < 2 ^ 16) /\
  (DecodeUint16BigEndian d msg = Return None (d', v) -> 0 <= v < 2 ^ 16) /\
  (DecodeInt16 d msg = Return None (d', v) -> - 2 ^ 15 <= v < 2 ^ 15) /\
  (DecodeUint32 d msg = Return None (d', v) -> 0 <= v < 2 ^ 32) /\
  (DecodeUint32BigEndian d msg = Return None (d', v) -> 0 <= v < 2 ^ 32) /\
  (DecodeInt32 d msg = Return None (d', v) -> - 2 ^ 31 <= v < 2 ^ 31) /\
  (DecodeUint64 d msg = Return None (d', v) -> 0 <= v < 2 ^ 64) /\
  (DecodeInt64 d msg = Return None (d', v) -> - 2 ^ 63 <= v < 2 ^ 63).
Proof.
  destruct (Z.le_gt_cases 0 (cursor d)) as [Hlo | Hlo];
    [destruct (Z.le_gt_cases (cursor d) (len (buffer d))) as [Hhi | Hhi] |].
  - assert (Hd : in_bounds d) by (split; assumption).
    pose proof (remaining_nonneg d Hd) as Hrem.
    repeat match goal with |- _ /\ _ => split end; intros Hrun.
    + rewrite DecodeUint8_spec in Hrun by assumption.
      apply fixed_width_result_value in Hrun as [Hr ->].
      apply (le_value_width d 1 Hd). lia.
    + rewrite DecodeInt8_spec in Hrun by assumption.
      apply fixed_width_result_value in Hrun as [Hr ->].
      apply (to_signed_range 8); [lia |].
      apply (le_value_width d 1 Hd). lia.
    + rewrite DecodeUint16_spec in Hrun by assumption.
      apply fixed_width_result_value in Hrun as [Hr ->].
      apply (le_value_width d 2 Hd). lia.
    + rewrite DecodeUint16BigEndian_spec in Hrun by assumption.
      apply fixed_width_result_value in Hrun as [Hr ->].
      apply (be_value_width d 2 Hd). lia.
    + rewrite DecodeInt16_spec in Hrun by assumption.
      apply fixed_width_result_value in Hrun as [Hr ->].
      apply (to_signed_range 16); [lia |].
      apply (le_value_width d 2 Hd). lia.
    + rewrite DecodeUint32_spec in Hrun by assumption.
      apply fixed_width_result_value in Hrun as [Hr ->].
      apply (le_value_width d 4 Hd). lia.
    + rewrite DecodeUint32BigEndian_spec in Hrun by assumption.
      apply fixed_width_result_value in Hrun as [Hr ->].
      apply (be_value_width d 4 Hd). lia.
    + rewrite DecodeInt32_spec in Hrun by assumption.
      apply fixed_width_result_value in Hrun as [Hr ->].
      apply (to_signed_range 32); [lia |].
      apply (le_value_width d 4 Hd). lia.
    + rewrite DecodeUint64_spec in Hrun by assumption.
      apply fixed_width_result_value in Hrun as [Hr ->].
      apply (le_value_width d 8 Hd). lia.
    + rewrite DecodeInt64_spec in Hrun by assumption.
      apply fixed_width_result_value in Hrun as [Hr ->].
      apply (to_signed_range 64); [lia |].
      apply (le_value_width d 8 Hd). lia.
  - assert (Hd : ~ in_bounds d) by (unfold in_bounds; lia).
    repeat match goal with |- _ /\ _ => split end;
      [ not_in_bounds d Hd DecodeUint8 | not_in_bounds d Hd DecodeInt8
      | not_in_bounds d Hd DecodeUint16
      | not_in_bounds d Hd DecodeUint16BigEndian
      | not_in_bounds d Hd DecodeInt16 | not_in_bounds d Hd DecodeUint32
      | not_in_bounds d Hd DecodeUint32BigEndian
      | not_in_bounds d Hd DecodeInt32 | not_in_bounds d Hd DecodeUint64
      | not_in_bounds d Hd DecodeInt64 ].
  - assert (Hd : ~ in_bounds d) by (unfold in_bounds; lia).
    repeat match goal with |- _ /\ _ => split end;
      [ not_in_bounds d Hd DecodeUint8 | not_in_bounds d Hd DecodeInt8
      | not_in_bounds d Hd DecodeUint16
      | not_in_bounds d Hd DecodeUint16BigEndian
      | not_in_bounds d Hd DecodeInt16 | not_in_bounds d Hd DecodeUint32
      | not_in_bounds d Hd DecodeUint32BigEndian
      | not_in_bounds d Hd DecodeInt32 | not_in_bounds d Hd DecodeUint64
      | not_in_bounds d Hd DecodeInt64 ].
Qed.

Lemma two_bytes (bs : list byte) :
  length bs = 2%nat -> exists b0 b1, bs = [b0; b1].
Proof.
  destruct bs as [| b0 [| b1 [| ? ?]]]; try discriminate. eauto.
Qed.

Lemma four_bytes (bs : list byte) :
  length bs = 4%nat -> exists b0 b1 b2 b3, bs = [b0; b1; b2; b3].
Proof.
  destruct bs as [| b0 [| b1 [| b2 [| b3 [| ? ?]]]]]; try discriminate.
  eauto 6.
Qed.

(** X10: the big-endian primitives read the same bytes as the
    little-endian ones in the opposite order: with enough bytes
    remaining, the value [DecodeUint16BigEndian] stores is the byte swap
    of the value [DecodeUint16] stores, likewise for the 32-bit pair, and
    each pair leaves the same decoder. *)
Theorem big_endian_is_byte_swap (d : EbpfDecoder) (msg : Z) :
  in_bounds d ->
  (2 <= remaining d ->
   exists d' le,
     DecodeUint16 d msg = Return None (d', le) /\
     DecodeUint16BigEndian d msg
     = Return None (d', 256 * (le mod 256) + le / 256)) /\
  (4 <= remaining d ->
   exists d' le,
     DecodeUint32 d msg = Return None (d', le) /\
     DecodeUint32BigEndian d msg
     = Return None
         (d', 2 ^ 24 * (le mod 256) + 2 ^ 16 * (le / 2 ^ 8 mod 256)
              + 2 ^ 8 * (le / 2 ^ 16 mod 256) + le / 2 ^ 24)).
Proof.
  intros Hd. split; intros Hr.
  - rewrite (DecodeUint16_spec d msg Hd),
            (DecodeUint16BigEndian_spec d msg Hd).
    unfold fixed_width_result.
    destruct (Z.ltb_spec (remaining d) 2) as [| _]; [lia |].
    destruct (slice_at_cursor d 2 Hd ltac:(lia)) as [_ Hlen].
    destruct (two_bytes _ Hlen) as (b0 & b1 & ->).
    eexists _, _. split; [reflexivity |]. do 2 f_equal.
    unfold be_value. cbn [rev app le_value].
    pose proof (u8_range b0). pose proof (u8_range b1).
    replace (u8 b0 + 256 * (u8 b1 + 256 * 0)) with (u8 b0 + u8 b1 * 256)
      by lia.
    rewrite Z.mod_add, Z.div_add by lia.
    rewrite Z.mod_small, Z.div_small by lia. lia.
  - rewrite (DecodeUint32_spec d msg Hd),
            (DecodeUint32BigEndian_spec d msg Hd).
    unfold fixed_width_result.
    destruct (Z.ltb_spec (remaining d) 4) as [| _]; [lia |].
    destruct (slice_at_cursor d 4 Hd ltac:(lia)) as [_ Hlen].
    destruct (four_bytes _ Hlen) as (b0 & b1 & b2 & b3 & ->).
    eexists _, _. split; [reflexivity |]. do 2 f_equal.
    unfold be_value. cbn [rev app le_value].
    pose proof (u8_range b0). pose proof (u8_range b1).
    pose proof (u8_range b2). pose proof (u8_range b3).
    set (le := u8 b0 + 256 * (u8 b1 + 256 * (u8 b2 + 256 * (u8 b3 + 256 * 0)))).
    assert (Hq0 : le mod 256 = u8 b0).
    { unfold le. Z.div_mod_to_equations. lia. }
    assert (Hq1 : le / 2 ^ 8 mod 256 = u8 b1).
    { unfold le. change (2 ^ 8) with 256. Z.div_mod_to_equations. lia. }
    assert (Hq2 : le / 2 ^ 16 mod 256 = u8 b2).
    { unfold le. change (2 ^ 16) with 65536. Z.div_mod_to_equations. lia. }
    assert (Hq3 : le / 2 ^ 24 = u8 b3).
    { unfold le. change (2 ^ 24) with 16777216.
      Z.div_mod_to_equations. lia. }
    rewrite Hq0, Hq1, Hq2, Hq3. lia.
Qed.

(** X12: skipping forward stays within the buffer and can be undone.
    For a buffer whose length fits an [int], a decoder whose cursor lies
    in it and [0 <= n <= remaining]: [MoveCursor n] moves to and returns
    [cursor + n], the decoder is still in bounds and has read [n] bytes
    more, and [MoveCursor (-n)] then brings the decoder back. *)
Theorem MoveCursor_forward_and_back (d : EbpfDecoder) (n : Z) :
  in_bounds d -> len (buffer d) <= max_int -> 0 <= n <= remaining d ->
  MoveCursor d n = (set_cursor d (cursor d + n), cursor d + n) /\
  in_bounds (MoveCursor d n).1 /\
  BytesRead (MoveCursor d n).1 = BytesRead d + n /\
  BuffLen (MoveCursor d n).1 = BuffLen d /\
  MoveCursor (MoveCursor d n).1 (- n) = (d, cursor d).
Proof.
  intros Hd Hmax Hn. unfold in_bounds, remaining in *.
  assert (Hfwd : MoveCursor d n = (set_cursor d (cursor d + n), cursor d + n)).
  { unfold MoveCursor, int_add.
    rewrite wrap_int_in_range by (unfold min_int, max_int in *; lia).
    destruct (Z.ltb_spec (len (buffer d)) (cursor d + n)); [lia | reflexivity]. }
  rewrite Hfwd. cbn [fst]. split; [reflexivity |].
  split; [cbn; lia |]. split; [reflexivity |]. split; [reflexivity |].
  unfold MoveCursor, int_add. cbn [cursor buffer set_cursor].
  rewrite wrap_int_in_range by (unfold min_int, max_int in *; lia).
  destruct (Z.ltb_spec (len (buffer d)) (cursor d + n + - n)); [lia |].
  replace (cursor d + n + - n) with (cursor d) by lia.
  f_equal. now destruct d.
Qed.

End Values.

(** ** Composite records *)
Section Composites.
Import bufferdecoder bufferdecoder_ext.

Ltac composite_prelude d Hd :=
  let rest := fresh "rest" in
  let Hlen := fresh "Hlen" in
  destruct (slice_from_cursor d Hd) as (rest & -> & Hlen);
  rewrite Hlen.

(** X13: [DecodeSlimCred] checks for 80 bytes once.  On a decoder whose
    cursor lies in its buffer: with fewer than 80 bytes remaining it
    returns [ErrBufferTooShort] for "slimCred" and writes nothing;
    otherwise every field is the little-endian value at its offset (ten
    32-bit fields from offset 0, five 64-bit capability sets from offset
    40), whatever the record held before, and the cursor moves by the
    record's [GetSizeBytes]. *)
Theorem DecodeSlimCred_spec (GetSizeBytes : SlimCred -> Z) (d : EbpfDecoder)
    (slimCred : SlimCred) :
  in_bounds d ->
  (remaining d < 80 ->
     DecodeSlimCred GetSizeBytes d slimCred
     = Return (Some (ErrBufferTooShort 80 (remaining d) "slimCred"))
         (d, slimCred)) /\
  (80 <= remaining d ->
     DecodeSlimCred GetSizeBytes d slimCred
     = Return None
         (set_cursor d
            (cursor d + GetSizeBytes (slimCred_at (buffer d) (cursor d))),
          slimCred_at (buffer d) (cursor d))).
Proof.
  intros Hd. unfold DecodeSlimCred. composite_prelude d Hd.
  split; intros Hr.
  - destruct (Z.ltb_spec (remaining d) 80) as [_ |]; [| lia].
    now rewrite (makeBufferTooShortError_in_bounds d _ _ Hd).
  - destruct (Z.ltb_spec (remaining d) 80) as [| _]; [lia |].
    destruct Hd as [Hlo Hhi]. unfold remaining in Hr.
    read_fields. unfold slimCred_at. rewrite Z.add_0_r. reflexivity.
Qed.

(** X14: [DecodeChunkMeta] checks for [GetSizeBytes] bytes once.  When
    that size covers the 49 bytes of the layout: with fewer bytes
    remaining it returns [ErrBufferTooShort] for "chunkMeta" and writes
    nothing; otherwise the record is the one-byte type at offset 0, the
    64-bit cgroup id at 1, the 28 metadata bytes at 9, the signed 32-bit
    size at 37 and the 64-bit offset at 41, and the cursor moves by
    [GetSizeBytes]. *)
Theorem DecodeChunkMeta_spec (GetSizeBytes : ChunkMeta -> Z)
    (d : EbpfDecoder) (chunkMeta : ChunkMeta) :
  in_bounds d -> length (ChunkMeta_Metadata chunkMeta) = 28%nat ->
  49 <= GetSizeBytes chunkMeta ->
  (remaining d < GetSizeBytes chunkMeta ->
     DecodeChunkMeta GetSizeBytes d chunkMeta
     = Return (Some (ErrBufferTooShort (GetSizeBytes chunkMeta)
                       (remaining d) "chunkMeta"))
         (d, chunkMeta)) /\
  (GetSizeBytes chunkMeta <= remaining d ->
     DecodeChunkMeta GetSizeBytes d chunkMeta
     = Return None
         (set_cursor d
            (cursor d + GetSizeBytes (chunkMeta_at (buffer d) (cursor d))),
          chunkMeta_at (buffer d) (cursor d))).
Proof.
  intros Hd Hmeta Hsize. unfold DecodeChunkMeta.
  pose proof (index_at_cursor d Hd) as Hidx.
  composite_prelude d Hd.
  split; intros Hr.
  - destruct (Z.ltb_spec (remaining d) (GetSizeBytes chunkMeta)) as [_ |];
      [| lia].
    now rewrite (makeBufferTooShortError_in_bounds d _ _ Hd).
  - destruct (Z.ltb_spec (remaining d) (GetSizeBytes chunkMeta)) as [| _];
      [lia |].
    destruct (Hidx ltac:(lia)) as (b & -> & Hb).
    destruct Hd as [Hlo Hhi]. unfold remaining in Hr.
    read_fields.
    rewrite copy_same_length
      by (rewrite length_bytes_at by lia; assumption).
    unfold chunkMeta_at, int32. rewrite Z.add_0_r, Hb, le_value_single.
    reflexivity.
Qed.

(** X15: the four small metadata decoders.  Each checks once for its
    record's [GetSizeBytes]; when that covers the record's layout (20,
    20, 28 and 12 bytes), a short buffer gives [ErrBufferTooShort] under
    the record's name with nothing written, and otherwise every field is
    the little-endian value at its offset and the cursor moves by
    [GetSizeBytes]. *)
Theorem small_metadata_decoders (d : EbpfDecoder)
    (vfsSize : VfsFileMeta -> Z) (vfs : VfsFileMeta)
    (modSize : KernelModuleMeta -> Z) (kmod : KernelModuleMeta)
    (bpfSize : BpfObjectMeta -> Z) (bpf : BpfObjectMeta)
    (mprSize : MprotectWriteMeta -> Z) (mpr : MprotectWriteMeta) :
  in_bounds d ->
  (20 <= vfsSize vfs ->
   DecodeVfsFileMeta vfsSize d vfs
   = if remaining d <? vfsSize vfs then
       Return (Some (ErrBufferTooShort (vfsSize vfs) (remaining d)
                       "vfsFileMeta")) (d, vfs)
     else
       Return None
         (set_cursor d
            (cursor d + vfsSize (vfsFileMeta_at (buffer d) (cursor d))),
          vfsFileMeta_at (buffer d) (cursor d))) /\
  (20 <= modSize kmod ->
   DecodeKernelModuleMeta modSize d kmod
   = if remaining d <? modSize kmod then
       Return (Some (ErrBufferTooShort (modSize kmod) (remaining d)
                       "kernelModuleMeta")) (d, kmod)
     else
       Return None
         (set_cursor d
            (cursor d + modSize (kernelModuleMeta_at (buffer d) (cursor d))),
          kernelModuleMeta_at (buffer d) (cursor d))) /\
  (28 <= bpfSize bpf -> length (BpfObjectMeta_Name bpf) = 16%nat ->
   DecodeBpfObjectMeta bpfSize d bpf
   = if remaining d <? bpfSize bpf then
       Return (Some (ErrBufferTooShort (bpfSize bpf) (remaining d)
                       "bpfObjectMeta")) (d, bpf)
     else
       Return None
         (set_cursor d
            (cursor d + bpfSize (bpfObjectMeta_at (buffer d) (cursor d))),
          bpfObjectMeta_at (buffer d) (cursor d))) /\
  (12 <= mprSize mpr ->
   DecodeMprotectWriteMeta mprSize d mpr
   = if remaining d <? mprSize mpr then
       Return (Some (ErrBufferTooShort (mprSize mpr) (remaining d)
                       "mprotectWriteMeta")) (d, mpr)
     else
       Return None
         (set_cursor d
            (cursor d
             + mprSize (mprotectWriteMeta_at (buffer d) (cursor d))),
          mprotectWriteMeta_at (buffer d) (cursor d))).
Proof.
  intros Hd.
  repeat match goal with |- _ /\ _ => split end.
  - intros Hsize. unfold DecodeVfsFileMeta. composite_prelude d Hd.
    destruct (Z.ltb_spec (remaining d) (vfsSize vfs)) as [Hr | Hr].
    + now rewrite (makeBufferTooShortError_in_bounds d _ _ Hd).
    + destruct Hd as [Hlo Hhi]. unfold remaining in Hr.
      read_fields. unfold vfsFileMeta_at. rewrite Z.add_0_r. reflexivity.
  - intros Hsize. unfold DecodeKernelModuleMeta. composite_prelude d Hd.
    destruct (Z.ltb_spec (remaining d) (modSize kmod)) as [Hr | Hr].
    + now rewrite (makeBufferTooShortError_in_bounds d _ _ Hd).
    + destruct Hd as [Hlo Hhi]. unfold remaining in Hr.
      read_fields. unfold kernelModuleMeta_at. rewrite Z.add_0_r.
      reflexivity.
  - intros Hsize Hname. unfold DecodeBpfObjectMeta. composite_prelude d Hd.
    destruct (Z.ltb_spec (remaining d) (bpfSize bpf)) as [Hr | Hr].
    + now rewrite (makeBufferTooShortError_in_bounds d _ _ Hd).
    + destruct Hd as [Hlo Hhi]. unfold remaining in Hr.
      read_fields.
      rewrite copy_same_length
        by (rewrite length_bytes_at by lia; assumption).
      unfold bpfObjectMeta_at. rewrite Z.add_0_r. reflexivity.
  - intros Hsize. unfold DecodeMprotectWriteMeta. composite_prelude d Hd.
    destruct (Z.ltb_spec (remaining d) (mprSize mpr)) as [Hr | Hr].
    + now rewrite (makeBufferTooShortError_in_bounds d _ _ Hd).
    + destruct Hd as [Hlo Hhi]. unfold remaining in Hr.
      read_fields. unfold mprotectWriteMeta_at. rewrite Z.add_0_r.
      reflexivity.
Qed.

End Composites.

(** ** Argument assembly in general *)
Section AssemblyGeneral.
Import bufferdecoder assembly.

Variable readArgFromBuff : readArgFromBuffT.

Lemma DecodeArguments_read_length (count : nat) :
  forall (d : EbpfDecoder) (args : list trace.Argument)
         (evtFields : list events.DataField) (eventId : ID) err d' args',
    DecodeArguments_read readArgFromBuff count d args evtFields eventId
    = Return err (d', args') ->
    length args' = length args.
Proof.
  induction count as [| count IH]; intros d args evtFields eventId err d' args'.
  - cbn. intros [= _ _ <-]. reflexivity.
  - cbn [DecodeArguments_read].
    destruct (readArgFromBuff eventId d evtFields) as [d1 [[idx arg] e]].
    destruct e as [e |].
    + apply IH.
    + destruct (args !! idx); [| discriminate].
      intros Hrun. apply IH in Hrun. now rewrite length_insert in Hrun.
Qed.

Lemma DecodeArguments_read_last (count : nat) :
  forall (d : EbpfDecoder) (args : list trace.Argument)
         (evtFields : list events.DataField) (eventId : ID),
    reads_in_range (length args)
      (reads readArgFromBuff count eventId d evtFields) = true ->
    exists d' args',
      DecodeArguments_read readArgFromBuff count d args evtFields eventId
      = Return None (d', args') /\
      length args' = length args /\
      forall i,
        args' !! i
        = match last_supplied i
                  (reads readArgFromBuff count eventId d evtFields) with
          | Some a => Some a
          | None => args !! i
          end.
Proof.
  induction count as [| count IH]; intros d args evtFields eventId Hok.
  - exists d, args. repeat split; reflexivity.
  - cbn [DecodeArguments_read reads] in Hok |- *.
    destruct (readArgFromBuff eventId d evtFields)
      as [d1 [[idx arg] err]] eqn:Hread.
    cbn [reads_in_range forallb snd fst] in Hok.
    apply andb_true_iff in Hok as [Hr Hok].
    destruct err as [e |].
    + destruct (IH d1 args evtFields eventId Hok) as (d' & args' & -> & Hl & Hp).
      exists d', args'. split; [reflexivity |]. split; [exact Hl |].
      intros i. rewrite Hp. cbn [last_supplied snd].
      destruct (last_supplied i _); reflexivity.
    + apply Nat.ltb_lt in Hr.
      destruct (lookup_lt_is_Some_2 args idx Hr) as [a ->].
      destruct (IH d1 (<[idx := arg]> args) evtFields eventId)
        as (d' & args' & -> & Hl & Hp).
      { now rewrite length_insert. }
      exists d', args'. split; [reflexivity |].
      split; [now rewrite Hl, length_insert |].
      intros i. rewrite Hp. cbn [last_supplied snd fst].
      destruct (last_supplied i _); [reflexivity |].
      destruct (Nat.eqb_spec idx i) as [-> | Hne].
      * now apply list_lookup_insert_eq.
      * now apply list_lookup_insert_ne.
Qed.

Lemma DecodeArguments_fill_overruns (evtFields : list events.DataField)
    (count : nat) :
  forall (i : nat) (args : list trace.Argument),
    (i <= length args < i + count)%nat ->
    DecodeArguments_fill count i args evtFields = None.
Proof.
  induction count as [| count IH]; intros i args Hlen; [lia |].
  cbn [DecodeArguments_fill].
  destruct (args !! i) as [a |] eqn:Ha; [| reflexivity].
  apply lookup_lt_Some in Ha. cbn [mbind option_bind].
  destruct (is_nil (trace.Value a)).
  - destruct (evtFields !! i); [| reflexivity]. cbn [mbind option_bind].
    apply IH. rewrite length_insert. lia.
  - apply IH. lia.
Qed.

(** X16: assembly for any stream.  Given a destination of [N] zero
    arguments for a schema of [N] fields, and a stream in which every
    argument read without error names an index below [N]:
    [DecodeArguments] does not panic and returns no error, whatever the
    reads returned; a read that failed leaves no trace; of several
    arguments naming the same field the last one read stays; a field with
    no argument, or whose last argument has a nil value, holds the
    metadata and zero value its schema field declares. *)
Theorem DecodeArguments_assembles (d : EbpfDecoder) (argnum : Z)
    (evtFields : list events.DataField) (evtName : string) (eventId : ID) :
  reads_in_range (length evtFields)
    (reads readArgFromBuff (Z.to_nat argnum) eventId d evtFields) = true ->
  exists d' args,
    DecodeArguments readArgFromBuff d
      (replicate (length evtFields) trace.zeroArgument) argnum evtFields
      evtName eventId
    = Return None (d', args) /\
    length args = length evtFields /\
    forall i f,
      evtFields !! i = Some f ->
      args !! i
      = Some (assembled_slot f
                (last_supplied i
                   (reads readArgFromBuff (Z.to_nat argnum) eventId d
                      evtFields))).
Proof.
  set (rs := reads readArgFromBuff (Z.to_nat argnum) eventId d evtFields).
  set (args0 := replicate (length evtFields) trace.zeroArgument).
  intros Hok.
  assert (Hlen0 : length args0 = length evtFields)
    by apply length_replicate.
  destruct (DecodeArguments_read_last (Z.to_nat argnum) d args0 evtFields
              eventId) as (d' & args1 & Hread & Hl1 & Hp1).
  { now rewrite Hlen0. }
  fold rs in Hp1.
  destruct (DecodeArguments_fill_spec evtFields (length evtFields) 0%nat
              args1) as (args & Hfill & Hl & Hp).
  { now rewrite Hl1. }
  { reflexivity. }
  exists d', args. unfold DecodeArguments. rewrite Hread, Hfill.
  split; [reflexivity |]. split; [now rewrite Hl, Hl1 |].
  intros i f Hf.
  assert (Hi : (i < length evtFields)%nat) by now apply lookup_lt_Some in Hf.
  assert (H0 : args0 !! i = Some trace.zeroArgument)
    by now apply lookup_replicate_2.
  pose proof (Hp1 i) as H1. rewrite H0 in H1.
  unfold assembled_slot.
  destruct (last_supplied i rs) as [a |].
  - rewrite (Hp i a f H1 Hf).
    destruct (decide (0 <= i)%nat); [reflexivity | lia].
  - rewrite (Hp i trace.zeroArgument f H1 Hf).
    destruct (decide (0 <= i)%nat); [reflexivity | lia].
Qed.

(** X17: [DecodeArguments] trusts its caller for the destination's size
    and the reader for the index.  A destination shorter than the schema
    makes every call panic; and so does a first argument that is read
    without error but names an index outside the destination. *)
Theorem DecodeArguments_out_of_range (d : EbpfDecoder)
    (args : list trace.Argument) (argnum : Z)
    (evtFields : list events.DataField) (evtName : string) (eventId : ID) :
  ((length args < length evtFields)%nat ->
   DecodeArguments readArgFromBuff d args argnum evtFields evtName eventId
   = Panicked) /\
  (forall d1 idx arg,
     0 < argnum ->
     readArgFromBuff eventId d evtFields = (d1, (idx, arg, None)) ->
     (length args <= idx)%nat ->
     DecodeArguments readArgFromBuff d args argnum evtFields evtName eventId
     = Panicked).
Proof.
  split.
  - intros Hshort. unfold DecodeArguments.
    destruct (DecodeArguments_read readArgFromBuff (Z.to_nat argnum) d args
                evtFields eventId) as [err [d' args'] |] eqn:Hread;
      [| reflexivity].
    apply DecodeArguments_read_length in Hread.
    rewrite DecodeArguments_fill_overruns; [reflexivity |].
    rewrite Hread. lia.
  - intros d1 idx arg Hnum Hread Hidx. unfold DecodeArguments.
    destruct (Z.to_nat argnum) as [| count] eqn:Hcount; [lia |].
    cbn [DecodeArguments_read]. rewrite Hread.
    now rewrite (proj2 (lookup_ge_None args idx)) by lia.
Qed.

End AssemblyGeneral.

(** ** The derivation engine in general *)
Section DerivationGeneral.
Import derive.

Lemma DeriveEvent_range_disabled (order : list (ID * entry)) (event : Event)
    (evs : list Event) (errs : list error) (h : heap) :
  Forall (fun p => Enabled p.2 tt = false) order ->
  DeriveEvent_range order event evs errs h = Some ((evs, errs), h).
Proof.
  induction order as [| [id e] order IH]; intros Hdis; [reflexivity |].
  apply Forall_cons in Hdis as [He Hdis]. cbn in He.
  cbn [DeriveEvent_range]. rewrite He. now apply IH.
Qed.

Lemma DeriveEvent_range_enabled_only (order : list (ID * entry))
    (event : Event) :
  forall (evs : list Event) (errs : list error) (h : heap),
    DeriveEvent_range order event evs errs h
    = DeriveEvent_range (filter (fun p => Enabled p.2 tt = true) order)
        event evs errs h.
Proof.
  induction order as [| [id e] order IH]; intros evs errs h; [reflexivity |].
  destruct (Enabled e tt) eqn:He.
  - rewrite filter_cons_True by exact He.
    cbn [DeriveEvent_range]. rewrite He. unfold bind.
    destruct (entry_DeriveFunction e event h) as [[r h'] |]; [| reflexivity].
    apply IH.
  - rewrite filter_cons_False by (cbn; congruence).
    cbn [DeriveEvent_range]. rewrite He. apply IH.
Qed.

(** X18: an event whose identifier has no entry in the table derives
    nothing: in whatever order, [DeriveEvent] returns no event and no
    error and leaves the store as it was. *)
Theorem DeriveEvent_no_rules (t : Table) (event : Event) (h : heap)
    (res : option (list Event * list error * heap)) :
  t !! int_to_int32 (EventID event) = None ->
  DeriveEvent t event h res <-> res = Some (([], []), h).
Proof.
  intros Hnone.
  assert (Hfns : deriveFns t event = ∅).
  { unfold deriveFns. rewrite lookup_total_alt, Hnone. reflexivity. }
  split.
  - intros (order & Hperm & ->). rewrite Hfns, map_to_list_empty in Hperm.
    apply Permutation_nil_r in Hperm. subst order. reflexivity.
  - intros ->. exists []. rewrite Hfns, map_to_list_empty.
    split; reflexivity.
Qed.

(** X19: a rule whose predicate answers false is not run.  The outcome
    of the loop over any order of entries is the outcome over the enabled
    entries alone; so when every rule registered for the event's
    identifier is disabled, [DeriveEvent] returns no event and no error
    and leaves the store as it was, whatever the rules would have done. *)
Theorem DeriveEvent_skips_disabled (t : Table) (event : Event) (h : heap) :
  (forall order evs errs,
     DeriveEvent_range order event evs errs h
     = DeriveEvent_range (filter (fun p => Enabled p.2 tt = true) order)
         event evs errs h) /\
  ((forall id e, deriveFns t event !! id = Some e -> Enabled e tt = false) ->
   forall res, DeriveEvent t event h res -> res = Some (([], []), h)).
Proof.
  split.
  - intros order evs errs. apply DeriveEvent_range_enabled_only.
  - intros Hdis res (order & Hperm & ->).
    apply DeriveEvent_range_disabled.
    apply Forall_forall. intros [id e] Hin. cbn.
    apply (Hdis id). apply elem_of_map_to_list.
    rewrite <- Hperm. exact Hin.
Qed.

Lemma Register_fresh_source (t : Table) (deriveFrom deriveTo : ID)
    (cond : unit -> bool) (logic : DeriveFunction) :
  t !! deriveFrom = None ->
  Register t deriveFrom deriveTo cond logic
  = (<[deriveFrom := {[deriveTo := {| entry_DeriveFunction := logic;
                                      Enabled := cond |}]}]> t, None).
Proof.
  intros Hnone. unfold Register. rewrite Hnone.
  rewrite lookup_total_insert_eq, lookup_empty.
  now rewrite insert_insert_eq, insert_empty.
Qed.

(** X20: registering and deriving compose.  After the first rule for a
    source identifier has been registered, [DeriveEvent] on an event of
    that identifier is exactly that rule: when its predicate answers true
    the result is the rule's events and the rule's errors, each wrapped
    with the target identifier, in the store the rule left (or its
    panic); when the predicate answers false, nothing is derived. *)
Theorem Register_then_DeriveEvent (t : Table) (deriveFrom deriveTo : ID)
    (cond : unit -> bool) (logic : DeriveFunction) (event : Event)
    (h : heap) (res : option (list Event * list error * heap)) :
  t !! deriveFrom = None ->
  int_to_int32 (EventID event) = deriveFrom ->
  DeriveEvent (Register t deriveFrom deriveTo cond logic).1 event h res
  <-> res = if cond tt then
              match logic event h with
              | Some (r, h') =>
                  Some ((r.1, map (deriveError deriveTo) r.2), h')
              | None => None
              end
            else Some (([], []), h).
Proof.
  intros Hnone Hid.
  rewrite (Register_fresh_source t deriveFrom deriveTo cond logic Hnone).
  cbn [fst].
  set (e := {| entry_DeriveFunction := logic; Enabled := cond |}).
  assert (Hfns : deriveFns (<[deriveFrom := {[deriveTo := e]}]> t) event
                 = {[deriveTo := e]}).
  { unfold deriveFns. rewrite Hid. apply lookup_total_insert_eq. }
  assert (Hrun : DeriveEvent_range [(deriveTo, e)] event [] [] h
                 = if cond tt then
                     match logic event h with
                     | Some (r, h') =>
                         Some ((r.1, map (deriveError deriveTo) r.2), h')
                     | None => None
                     end
                   else Some (([], []), h)).
  { cbn [DeriveEvent_range Enabled entry_DeriveFunction e].
    destruct (cond tt); [| reflexivity].
    unfold bind. destruct (logic event h) as [[r h'] |]; reflexivity. }
  split.
  - intros (order & Hperm & ->).
    rewrite Hfns, map_to_list_singleton in Hperm.
    symmetry in Hperm. apply Permutation_singleton_l in Hperm.
    subst order. exact Hrun.
  - intros ->. exists [(deriveTo, e)].
    rewrite Hfns, map_to_list_singleton. split; [reflexivity |].
    symmetry. exact Hrun.
Qed.

(** What one matching tuple adds. *)
Lemma buildDerivedEvent_built (event : Event) (skeleton : deriveBase)
    (tuple : list any) (h : heap) :
  len (Fields skeleton) = len tuple ->
  exists de h',
    buildDerivedEvent event skeleton tuple h = Some ((de, None), h') /\
    Args de = schema_args (Fields skeleton) tuple /\
    EventID de = deriveBase_ID skeleton /\
    EventName de = deriveBase_Name skeleton /\
    (forall k, is_Some (h !! k) -> h' !! k = h !! k) /\
    match MatchedPolicies event with
    | None => MatchedPolicies de = None /\ h' = h
    | Some l =>
        exists l', MatchedPolicies de = Some l' /\ h !! l' = None /\
                   h' = <[l' := h !!! l]> h
    end.
Proof.
  intros Hlen.
  rewrite (buildDerivedEvent_matching event skeleton tuple h Hlen).
  cbn zeta. destruct (MatchedPolicies event) as [l |] eqn:Hmp.
  - eexists _, _. split; [reflexivity |].
    assert (Hfresh : h !! fresh (dom h) = None)
      by (apply not_elem_of_dom, is_fresh).
    repeat split.
    + intros k [x Hk]. rewrite lookup_insert_ne; [reflexivity |].
      intros <-. rewrite Hfresh in Hk. discriminate.
    + exists (fresh (dom h)). repeat split. exact Hfresh.
  - eexists _, _. split; [reflexivity |].
    repeat split. cbn. exact Hmp.
Qed.

Lemma deriveMultipleEvents_range_events (event : Event)
    (skeleton : deriveBase) (tuples : list (list any)) :
  forall (evs : list Event) (errs : list error) (h : heap),
  exists evs' h',
    deriveMultipleEvents_range event skeleton tuples evs errs h
    = Some ((evs ++ evs',
             errs ++ map (fun bad =>
                            unexpectedArgCountError (deriveBase_Name skeleton)
                              (len (Fields skeleton)) (len bad))
                         (filter (fun tuple =>
                                    len (Fields skeleton) <> len tuple)
                                 tuples)), h') /\
    map Args evs'
    = map (schema_args (Fields skeleton))
        (filter (fun tuple => len (Fields skeleton) = len tuple) tuples) /\
    Forall (fun de => EventID de = deriveBase_ID skeleton /\
                      EventName de = deriveBase_Name skeleton) evs' /\
    (forall k, is_Some (h !! k) -> h' !! k = h !! k) /\
    (forall l, MatchedPolicies event = Some l -> is_Some (h !! l) ->
       Forall (fun de => exists l', MatchedPolicies de = Some l' /\
                                    h !! l' = None /\ h' !! l' = h !! l)
              evs' /\
       NoDup (map MatchedPolicies evs')).
Proof.
  induction tuples as [| tuple tuples IH]; intros evs errs h.
  - exists [], h. cbn. unfold ret. rewrite !app_nil_r.
    repeat split; try constructor. 
  - destruct (decide (len (Fields skeleton) = len tuple)) as [Heq | Hne].
    + destruct (buildDerivedEvent_built event skeleton tuple h Heq)
        as (de & h1 & Hb & Hargs & Hid & Hname & Hkeep & Hmp).
      rewrite (deriveMultipleEvents_range_match _ _ _ _ _ _ _ _ _ Hb).
      destruct (IH (evs ++ [de]) errs h1)
        as (evs' & h' & -> & Hmap & Hall & Hkeep' & Hown).
      exists (de :: evs'), h'. split.
      { rewrite <- app_assoc. cbn [app].
        rewrite (filter_cons_False _ tuple) by (intros Hn; now apply Hn).
        reflexivity. }
      split.
      { rewrite filter_cons_True by exact Heq. cbn [map]. now rewrite Hargs, Hmap. }
      split; [constructor; [split; assumption | exact Hall] |].
      assert (Hkeep2 : forall k, is_Some (h !! k) -> h' !! k = h !! k).
      { intros k Hk. rewrite Hkeep' by (rewrite Hkeep by exact Hk; exact Hk).
        now apply Hkeep. }
      split; [exact Hkeep2 |].
      intros l Hl Hal. rewrite Hl in Hmp.
      destruct Hmp as (l1 & Hde & Hfresh & ->).
      assert (Hl1 : l1 <> l).
      { intros ->. rewrite Hfresh in Hal. destruct Hal; discriminate. }
      destruct Hal as [pols Hal].
      assert (Hh1l : <[l1 := h !!! l]> h !! l = Some pols)
        by now rewrite lookup_insert_ne.
      assert (Hh1l1 : <[l1 := h !!! l]> h !! l1 = Some pols).
      { rewrite lookup_insert_eq. now rewrite (lookup_total_correct _ _ _ Hal). }
      destruct (Hown l Hl ltac:(eauto)) as [Hrest Hnd].
      split.
      * constructor.
        -- exists l1. split; [exact Hde |]. split; [exact Hfresh |].
           etrans; [apply (Hkeep' l1); eauto |].
           etrans; [exact Hh1l1 | now symmetry].
        -- eapply Forall_impl; [exact Hrest |].
           intros de' (l' & Hde' & Hnone & Hcont). cbn.
           exists l'. split; [exact Hde' |]. split.
           ++ destruct (decide (l' = l1)) as [-> | Hn].
              ** rewrite Hh1l1 in Hnone. discriminate.
              ** now rewrite lookup_insert_ne in Hnone.
           ++ etrans; [exact Hcont |]. etrans; [exact Hh1l | now symmetry].
      * cbn [map]. constructor; [| exact Hnd].
        rewrite Hde. intros Hin.
        apply list_elem_of_fmap in Hin as (de' & Hde' & Hin').
        rewrite Forall_forall in Hrest.
        destruct (Hrest de' Hin') as (l' & Hmp' & Hnone & _).
        rewrite Hmp' in Hde'. injection Hde' as ->.
        rewrite Hh1l1 in Hnone. discriminate.
    + rewrite (deriveMultipleEvents_range_mismatch _ _ _ _ _ _ _ Hne).
      destruct (IH evs (errs ++ [unexpectedArgCountError
                                   (deriveBase_Name skeleton)
                                   (len (Fields skeleton)) (len tuple)]) h)
        as (evs' & h' & -> & Hmap & Hall & Hkeep' & Hown).
      exists evs', h'. split.
      { rewrite filter_cons_True by exact Hne. cbn [map].
        rewrite <- app_assoc. reflexivity. }
      split; [now rewrite filter_cons_False by exact Hne |].
      split; [exact Hall |]. split; [exact Hkeep' | exact Hown].
Qed.

End DerivationGeneral.

(** ** Rules built by deriveMultipleEvents and deriveSingleEvent *)
Section DeriveFunctions.
Import derive.

Variable getEventDefinition : ID -> Definition_.

(** X21: the derive function built by [deriveMultipleEvents] looks at
    every tuple the rule returns.  For a nil list of tuples it returns no
    event and exactly the rule's errors.  Otherwise it does not panic; it
    returns one event per tuple of the schema's length, in the order of
    the tuples, each with the target's identifier and name and with the
    tuple's values paired with the schema fields' metadata; and after the
    rule's own errors one [UnexpectedArgumentCount] error per tuple of
    another length, in the order of the tuples. *)
Theorem deriveMultipleEvents_every_tuple (id : ID)
    (rule : multiDeriveArgsFunction) (event : Event) (h h1 : heap)
    (tuples : option (list (list any))) (errs : list error) :
  rule event h = Some ((tuples, errs), h1) ->
  match tuples with
  | None =>
      deriveMultipleEvents getEventDefinition id rule event h
      = Some (([], errs), h1)
  | Some tuples =>
      exists evs h2,
        deriveMultipleEvents getEventDefinition id rule event h
        = Some ((evs,
                 errs ++ map (fun bad =>
                                unexpectedArgCountError
                                  (GetName (getEventDefinition id))
                                  (len (GetFields (getEventDefinition id)))
                                  (len bad))
                             (filter (fun tuple =>
                                        len (GetFields (getEventDefinition id))
                                        <> len tuple) tuples)), h2) /\
        map Args evs
        = map (schema_args (GetFields (getEventDefinition id)))
            (filter (fun tuple =>
                       len (GetFields (getEventDefinition id)) = len tuple)
                    tuples) /\
        Forall (fun de => EventID de = id /\
                          EventName de = GetName (getEventDefinition id)) evs
  end.
Proof.
  intros Hrule. destruct tuples as [tuples |].
  - destruct (deriveMultipleEvents_range_events event
                (makeDeriveBase getEventDefinition id) tuples [] errs h1)
      as (evs & h2 & Hrun & Hmap & Hall & _).
    exists evs, h2. split; [| split; [exact Hmap | exact Hall]].
    unfold deriveMultipleEvents, bind. rewrite Hrule. cbn [fst snd].
    exact Hrun.
  - unfold deriveMultipleEvents, bind. rewrite Hrule. reflexivity.
Qed.

(** X22: the derive function built by [deriveSingleEvent] derives at most
    one event and passes the rule's error through.  With nil arguments
    there is no event; with arguments of the schema's length there is
    exactly the event [buildDerivedEvent] makes of them; with arguments
    of another length there is no event and an
    [UnexpectedArgumentCount] error after the rule's own.  An error the
    rule returns comes first in every case, also beside a derived
    event. *)
Theorem deriveSingleEvent_cases (id : ID) (deriveArgs : deriveArgsFunction)
    (event : Event) (h h1 : heap) (args : option (list any))
    (err : option error) :
  deriveArgs event h = Some ((args, err), h1) ->
  match args with
  | None =>
      deriveSingleEvent getEventDefinition id deriveArgs event h
      = Some (([], match err with Some e => [e] | None => [] end), h1)
  | Some values =>
      if decide (len (GetFields (getEventDefinition id)) = len values) then
        exists de h2,
          buildDerivedEvent event (makeDeriveBase getEventDefinition id)
            values h1 = Some ((de, None), h2) /\
          deriveSingleEvent getEventDefinition id deriveArgs event h
          = Some (([de], match err with Some e => [e] | None => [] end), h2)
      else
        deriveSingleEvent getEventDefinition id deriveArgs event h
        = Some (([],
                 match err with Some e => [e] | None => [] end
                 ++ [unexpectedArgCountError
                       (GetName (getEventDefinition id))
                       (len (GetFields (getEventDefinition id)))
                       (len values)]), h1)
  end.
Proof.
  intros Hrule. unfold deriveSingleEvent, deriveMultipleEvents.
  destruct args as [values |].
  - destruct (decide (len (GetFields (getEventDefinition id)) = len values))
      as [Heq | Hne].
    + destruct (buildDerivedEvent_total event
                  (makeDeriveBase getEventDefinition id) values h1 Heq)
        as (de & h2 & Hb).
      exists de, h2. split; [exact Hb |].
      unfold bind at 1. unfold bind at 1. rewrite Hrule. cbn [fst snd ret].
      rewrite (deriveMultipleEvents_range_match _ _ _ _ _ _ _ _ _ Hb).
      reflexivity.
    + unfold bind at 1. unfold bind at 1. rewrite Hrule. cbn [fst snd ret].
      rewrite deriveMultipleEvents_range_mismatch by exact Hne.
      reflexivity.
  - unfold bind at 1. unfold bind at 1. rewrite Hrule. reflexivity.
Qed.

(** X23: however many events one call derives, each owns its
    matched-policies list.  When the base event's list is allocated in
    the store the rule leaves, every array already in that store is
    unchanged afterwards, every derived event's list is a newly allocated
    array with the base's elements, no two derived events share one, and
    an in-place write to the list of any of them changes neither the
    base's list nor another derived event's. *)
Theorem derived_events_own_their_policies (id : ID)
    (rule : multiDeriveArgsFunction) (event : Event) (h h1 : heap)
    (tuples : list (list any)) (errs : list error) (l : loc) :
  rule event h = Some ((Some tuples, errs), h1) ->
  MatchedPolicies event = Some l -> is_Some (h1 !! l) ->
  exists evs errs' h2,
    deriveMultipleEvents getEventDefinition id rule event h
    = Some ((evs, errs'), h2) /\
    (forall k, is_Some (h1 !! k) -> h2 !! k = h1 !! k) /\
    Forall (fun de => exists l', MatchedPolicies de = Some l' /\
                                 h1 !! l' = None /\ h2 !! l' = h1 !! l) evs /\
    NoDup (map MatchedPolicies evs) /\
    (forall de i v h3,
       de ∈ evs ->
       store_string (MatchedPolicies de) i v h2 = Some (tt, h3) ->
       h3 !! l = h1 !! l /\
       forall de', de' ∈ evs -> MatchedPolicies de' <> MatchedPolicies de ->
         exists l', MatchedPolicies de' = Some l' /\ h3 !! l' = h1 !! l).
Proof.
  intros Hrule Hmp Hal.
  destruct (deriveMultipleEvents_range_events event
              (makeDeriveBase getEventDefinition id) tuples [] errs h1)
    as (evs & h2 & Hrun & _ & _ & Hkeep & Hown).
  destruct (Hown l Hmp Hal) as [Hall Hnd].
  eexists evs, _, h2. split.
  { unfold deriveMultipleEvents, bind. rewrite Hrule. cbn [fst snd].
    exact Hrun. }
  split; [exact Hkeep |]. split; [exact Hall |]. split; [exact Hnd |].
  intros de i v h3 Hin Hstore.
  rewrite Forall_forall in Hall.
  destruct (Hall de Hin) as (l1 & Hde & Hfresh & Hcont).
  split.
  - etrans; [apply (store_string_elsewhere _ _ _ _ _ l Hstore) |].
    + rewrite Hde. intros [= ->]. rewrite Hfresh in Hal.
      destruct Hal; discriminate.
    + now apply Hkeep.
  - intros de' Hin' Hne.
    destruct (Hall de' Hin') as (l2 & Hde' & _ & Hcont').
    exists l2. split; [exact Hde' |].
    etrans; [apply (store_string_elsewhere _ _ _ _ _ l2 Hstore) |].
    + congruence.
    + exact Hcont'.
Qed.

End DeriveFunctions.

(** ** Looking up and setting arguments *)
Section Arguments.
Import derive events_args.

Lemma GetArg_range_spec (rest : list trace.Argument) (name : string) :
  forall (k i : nat),
    GetArg_range k rest name = Some i <->
    exists j a, i = (k + j)%nat /\ rest !! j = Some a /\ arg_Name a = name /\
                forall j' b, (j' < j)%nat -> rest !! j' = Some b ->
                             arg_Name b <> name.
Proof.
  induction rest as [| x rest IH]; intros k i; cbn [GetArg_range].
  - split; [discriminate |]. intros (j & a & _ & Hj & _). discriminate.
  - destruct (String.eqb_spec (arg_Name x) name) as [Heq | Hne].
    + split.
      * intros [= <-]. exists 0%nat, x.
        repeat split; [lia | assumption | intros; lia].
      * intros (j & a & -> & Hj & Ha & Hfirst).
        destruct j as [| j]; [f_equal; lia |].
        exfalso. apply (Hfirst 0%nat x); [lia | reflexivity | exact Heq].
    + rewrite IH. split.
      * intros (j & a & -> & Hj & Ha & Hfirst).
        exists (S j), a. repeat split; [lia | assumption | assumption |].
        intros [| j'] b Hlt Hb; cbn in Hb.
        -- now injection Hb as <-.
        -- apply (Hfirst j' b); [lia | exact Hb].
      * intros (j & a & -> & Hj & Ha & Hfirst).
        destruct j as [| j]; cbn in Hj.
        -- injection Hj as <-. contradiction.
        -- exists j, a. repeat split; [lia | assumption | assumption |].
           intros j' b Hlt Hb. apply (Hfirst (S j') b); [lia | exact Hb].
Qed.

Lemma GetArg_range_None (rest : list trace.Argument) (name : string) :
  forall k, GetArg_range k rest name = None <->
            Forall (fun a => arg_Name a <> name) rest.
Proof.
  induction rest as [| x rest IH]; intros k; cbn [GetArg_range].
  - split; [constructor | reflexivity].
  - destruct (String.eqb_spec (arg_Name x) name) as [Heq | Hne].
    + split; [discriminate |]. intros H. apply Forall_cons in H as [H _].
      contradiction.
    + rewrite IH. split.
      * intros H. now constructor.
      * intros H. now apply Forall_cons in H as [_ H].
Qed.

Lemma GetArg_range_alter (f : trace.Argument -> trace.Argument)
    (name : string) :
  (forall a, arg_Name (f a) = arg_Name a) ->
  forall (rest : list trace.Argument) (i k : nat),
    GetArg_range k (alter f i rest) name = GetArg_range k rest name.
Proof.
  intros Hf. induction rest as [| x rest IH]; intros i k; [reflexivity |].
  destruct i as [| i]; cbn [alter list_alter GetArg_range].
  - now rewrite Hf.
  - destruct (String.eqb (arg_Name x) name); [reflexivity | apply IH].
Qed.

Lemma GetArg_found (args : list trace.Argument) (name : string) (i : nat) :
  GetArg args name = Some i ->
  exists a, args !! i = Some a /\ arg_Name a = name.
Proof.
  intros H. apply GetArg_range_spec in H as (j & a & -> & Hj & Ha & _).
  exists a. split; assumption.
Qed.

(** X24: [GetArg] finds the first argument of that name.  A result that
    is not nil points at an argument with the name asked for, before
    which no argument has that name; the result is nil exactly when no
    argument has the name. *)
Theorem GetArg_first (args : list trace.Argument) (name : string) :
  (forall i, GetArg args name = Some i <->
     exists a, args !! i = Some a /\ arg_Name a = name /\
               forall j b, (j < i)%nat -> args !! j = Some b ->
                           arg_Name b <> name) /\
  (GetArg args name = None <-> forall a, a ∈ args -> arg_Name a <> name).
Proof.
  split.
  - intros i. unfold GetArg. rewrite GetArg_range_spec. split.
    + intros (j & a & -> & H). exists a. exact H.
    + intros (a & H). exists i, a. split; [reflexivity | exact H].
  - unfold GetArg. rewrite GetArg_range_None. apply Forall_forall.
Qed.

(** X25: [SetArgValue] writes one value and nothing else.  When no
    argument has the name, the event is returned as it was with the
    error naming the event and the argument.  Otherwise there is no
    error; the first argument of that name now holds the value and is
    still what [GetArg] finds; every other argument, every argument's
    metadata and every other field of the event are as before. *)
Theorem SetArgValue_spec (event : Event) (argName : string) (value : any) :
  (GetArg (Args event) argName = None ->
     SetArgValue event argName value
     = (event, Some (ErrNoArgumentNamed (EventName event) argName))) /\
  (forall i, GetArg (Args event) argName = Some i ->
     let r := SetArgValue event argName value in
     r.2 = None /\
     GetArg (Args r.1) argName = Some i /\
     trace.Value <$> Args r.1 !! i = Some value /\
     (forall j, j <> i -> Args r.1 !! j = Args event !! j) /\
     map trace.Argument_ArgMeta (Args r.1)
     = map trace.Argument_ArgMeta (Args event) /\
     set_Args (Args event) r.1 = event).
Proof.
  unfold SetArgValue. split.
  - intros ->. reflexivity.
  - intros i Hi. rewrite Hi. cbn zeta. cbn [fst snd set_Args Args].
    destruct (GetArg_found _ _ _ Hi) as (a & Ha & Hname).
    split; [reflexivity |]. split.
    { unfold GetArg. now rewrite GetArg_range_alter. }
    split.
    { rewrite list_lookup_alter_eq, Ha. reflexivity. }
    split.
    { intros j Hj. now apply list_lookup_alter_ne. }
    split.
    { clear. generalize i. induction (Args event) as [| x l IH];
        intros [| k]; cbn; try reflexivity. now rewrite IH. }
    now destruct event.
Qed.

Lemma normalized_Name (Boot : Z -> Z) (a : trace.Argument) :
  arg_Name (normalized Boot a) = arg_Name a.
Proof. unfold normalized. now destruct (trace.Value a). Qed.

Lemma normalized_time_value (Boot : Z -> Z) (a : trace.Argument) :
  is_time_value (trace.Value a) = true ->
  is_time_value (trace.Value (normalized Boot a)) = true.
Proof.
  unfold normalized. intros H.
  destruct (trace.Value a) eqn:Hv; try discriminate.
  - now rewrite Hv.
  - reflexivity.
Qed.

Lemma NormalizeTimeArgs_step (Boot : Z -> Z) (args : list trace.Argument)
    (name : string) (rest : list string) (i : nat) (a : trace.Argument) :
  GetArg args name = Some i -> args !! i = Some a ->
  is_time_value (trace.Value a) = true ->
  NormalizeTimeArgs Boot args (name :: rest)
  = NormalizeTimeArgs Boot (alter (normalized Boot) i args) rest.
Proof.
  intros Hi Ha Hv. cbn [NormalizeTimeArgs]. rewrite Hi, Ha.
  cbn [fmap option_fmap option_map].
  assert (Halter : forall f, f a = normalized Boot a ->
                     alter f i args = alter (normalized Boot) i args).
  { intros f Hf. apply list_eq. intros j.
    destruct (decide (i = j)) as [<- | Hne].
    - rewrite !list_lookup_alter_eq, Ha. cbn. now rewrite Hf.
    - now rewrite !list_lookup_alter_ne. }
  destruct (trace.Value a) eqn:Hval; try discriminate.
  - f_equal. rewrite <- (Halter id).
    + symmetry. apply list_eq. intros j.
      destruct (decide (i = j)) as [<- | Hne].
      * rewrite list_lookup_alter_eq, Ha. reflexivity.
      * now rewrite list_lookup_alter_ne.
    + unfold normalized. now rewrite Hval.
  - f_equal. apply Halter. unfold normalized. now rewrite Hval.
Qed.

(** X26: [NormalizeTimeArgs] on names that are pairwise distinct, each
    found at an argument holding a uint64 or nil.  It returns no error;
    the first argument of each listed name has its uint64 value replaced
    by [BootToEpochNS] of it, once (a nil value stays nil); every other
    argument, in particular a later argument of a listed name, is as
    before. *)
Theorem NormalizeTimeArgs_converts (BootToEpochNS : Z -> Z)
    (names : list string) :
  forall args : list trace.Argument,
    NoDup names -> time_args_ok args names = true ->
    exists args',
      NormalizeTimeArgs BootToEpochNS args names = (args', None) /\
      length args' = length args /\
      forall j a, args !! j = Some a ->
        args' !! j
        = Some (if decide (arg_Name a ∈ names /\
                           GetArg args (arg_Name a) = Some j)
                then normalized BootToEpochNS a else a).
Proof.
  induction names as [| name names IH]; intros args Hnd Hok.
  - exists args. split; [reflexivity |]. split; [reflexivity |].
    intros j a Ha. rewrite Ha.
    destruct (decide _) as [[Hin _] |]; [inversion Hin | reflexivity].
  - apply NoDup_cons in Hnd as [Hfresh Hnd].
    cbn [time_args_ok forallb] in Hok.
    apply andb_true_iff in Hok as [Hhead Hok].
    destruct (GetArg args name) as [i |] eqn:Hi; [| discriminate].
    destruct (args !! i) as [ai |] eqn:Hai; [| discriminate].
    rewrite (NormalizeTimeArgs_step _ _ _ _ _ _ Hi Hai Hhead).
    destruct (GetArg_found _ _ _ Hi) as (ai' & Hai' & Hname).
    assert (ai' = ai) by congruence. subst ai'.
    set (args1 := alter (normalized BootToEpochNS) i args).
    assert (Hget : forall n, GetArg args1 n = GetArg args n).
    { intros n. unfold GetArg, args1. apply GetArg_range_alter.
      apply normalized_Name. }
    destruct (IH args1 Hnd) as (args' & Hrun & Hlen & Hp).
    { unfold time_args_ok in *. rewrite forallb_forall in Hok |- *.
      intros n Hn. specialize (Hok n Hn). rewrite Hget.
      destruct (GetArg args n) as [k |]; [| discriminate].
      unfold args1. destruct (decide (i = k)) as [<- | Hne].
      - rewrite list_lookup_alter_eq, Hai. cbn.
        rewrite Hai in Hok. now apply normalized_time_value.
      - now rewrite list_lookup_alter_ne. }
    exists args'. split; [exact Hrun |].
    split; [unfold args1 in Hlen; now rewrite length_alter in Hlen |].
    intros j a Ha.
    destruct (decide (i = j)) as [<- | Hne].
    + assert (a = ai) by congruence. subst a.
      rewrite (Hp i (normalized BootToEpochNS ai))
        by (unfold args1; rewrite list_lookup_alter_eq, Hai; reflexivity).
      rewrite normalized_Name, Hname.
      destruct (decide (name ∈ names /\ _)) as [[Hin _] |]; [contradiction |].
      destruct (decide (name ∈ name :: names /\ _)) as [| Hn];
        [reflexivity |].
      exfalso. apply Hn. split; [left | exact Hi].
    + rewrite (Hp j a) by (unfold args1; now rewrite list_lookup_alter_ne).
      rewrite Hget.
      destruct (decide (arg_Name a ∈ names /\ _)) as [[Hin Hg] | Hn];
        destruct (decide (arg_Name a ∈ name :: names /\ _)) as [[Hin' Hg'] | Hn'];
        try reflexivity.
      * exfalso. apply Hn'. split; [now right | exact Hg].
      * exfalso. apply elem_of_cons in Hin' as [Heq | Hin'].
        -- rewrite Heq, Hi in Hg'. congruence.
        -- apply Hn. split; assumption.
Qed.

(** X27: [NormalizeTimeArgs] works through the names in order and stops
    at the first that fails: over a concatenation of two lists it runs
    the first list and, if that returned no error, the second list on the
    arguments the first left.  An error therefore leaves every earlier
    conversion in place. *)
Theorem NormalizeTimeArgs_app (BootToEpochNS : Z -> Z)
    (names1 names2 : list string) :
  forall args : list trace.Argument,
    NormalizeTimeArgs BootToEpochNS args (names1 ++ names2)
    = match NormalizeTimeArgs BootToEpochNS args names1 with
      | (args1, None) => NormalizeTimeArgs BootToEpochNS args1 names2
      | (args1, Some e) => (args1, Some e)
      end.
Proof.
  induction names1 as [| name names1 IH]; intros args; [reflexivity |].
  cbn [app NormalizeTimeArgs].
  destruct (GetArg args name) as [i |]; [| reflexivity].
  destruct (trace.Value <$> args !! i) as [[] |]; try reflexivity; apply IH.
Qed.

(** X28: whether it succeeds or fails, [NormalizeTimeArgs] keeps the
    number of arguments and every argument's metadata, and the value of
    every argument that does not hold a uint64. *)
Theorem NormalizeTimeArgs_keeps_metadata (BootToEpochNS : Z -> Z)
    (names : list string) :
  forall args : list trace.Argument,
    let r := NormalizeTimeArgs BootToEpochNS args names in
    map trace.Argument_ArgMeta r.1 = map trace.Argument_ArgMeta args /\
    forall j a, args !! j = Some a ->
      (forall t, trace.Value a <> any_uint64 t) -> r.1 !! j = Some a.
Proof.
  induction names as [| name names IH]; intros args; cbn zeta.
  - split; [reflexivity | auto].
  - cbn [NormalizeTimeArgs].
    destruct (GetArg args name) as [i |]; [| split; [reflexivity | auto]].
    destruct (trace.Value <$> args !! i) as [v |] eqn:Hv;
      [| apply IH].
    destruct v; try (split; [reflexivity | auto]); try apply IH.
    specialize (IH (alter (set_Value (any_uint64 (BootToEpochNS n))) i args)).
    cbn zeta in IH. destruct IH as [Hmeta Hkeep]. split.
    + rewrite Hmeta. clear. generalize i.
      induction args as [| x l IHl]; intros [| k]; cbn; try reflexivity.
      now rewrite IHl.
    + intros j a Ha Hnot. apply Hkeep; [| exact Hnot].
      destruct (decide (i = j)) as [<- | Hne].
      * rewrite Ha in Hv. cbn in Hv. injection Hv as Hv.
        exfalso. apply (Hnot n). exact Hv.
      * now rewrite list_lookup_alter_ne.
Qed.

End Arguments.

(** ** Configuration values as command-line flags *)
Section Flags.
Import cobra.

Lemma fold_left_append {A B : Type} (f : A -> list B) (l : list A) :
  forall acc, fold_left (fun acc x => acc ++ f x) l acc
              = acc ++ concat (map f l).
Proof.
  induction l as [| x l IH]; intros acc; cbn.
  - now rewrite app_nil_r.
  - rewrite IH. now rewrite <- app_assoc.
Qed.

Lemma concat_SocketConfig_flags (sockets : list SocketConfig) :
  concat (map SocketConfig_flags sockets)
  = map (fun s => "sockets." +:+ Runtime s +:+ "=" +:+ Socket s)
      (filter (fun s => complete s = true) sockets).
Proof.
  induction sockets as [| s sockets IH]; [reflexivity |].
  cbn [map concat]. rewrite IH, filter_cons.
  unfold SocketConfig_flags, complete.
  destruct (negb (Runtime s =? "")%string && negb (Socket s =? "")%string);
    cbn.
  - rewrite decide_True by reflexivity. reflexivity.
  - rewrite decide_False by discriminate. reflexivity.
Qed.

(** X29: the flags of a container configuration.  The first flag is the
    enrich flag, which is [enrich=false] only for an [Enrich] set to
    false (an unset [Enrich] gives the same flags as one set to true);
    then the cgroupfs path if it is not empty and the force flag if set;
    then one flag for each socket entry that names both a runtime and a
    socket, in configuration order.  Entries missing either leave no
    trace. *)
Theorem ContainerConfig_flags_spec (c : ContainerConfig) :
  ContainerConfig_flags c
  = [if Enrich c is Some false then "enrich=false" else "enrich=true"]
    ++ (if String.eqb (Path (Cgroupfs c)) "" then []
        else ["cgroupfs.path=" +:+ Path (Cgroupfs c)])
    ++ (if Force (Cgroupfs c) then ["cgroupfs.force=true"] else [])
    ++ map (fun s => "sockets." +:+ Runtime s +:+ "=" +:+ Socket s)
         (filter (fun s => complete s = true) (Sockets c)) /\
  ContainerConfig_flags
    {| Enrich := None; Sockets := Sockets c; Cgroupfs := Cgroupfs c |}
  = ContainerConfig_flags
      {| Enrich := Some true; Sockets := Sockets c; Cgroupfs := Cgroupfs c |}.
Proof.
  split; [| reflexivity].
  unfold ContainerConfig_flags.
  rewrite fold_left_append, concat_SocketConfig_flags.
  destruct (Enrich c) as [[] |], (Path (Cgroupfs c) =? "")%string,
    (Force (Cgroupfs c)); cbn; reflexivity.
Qed.

Lemma concat_singletons {A B : Type} (f : A -> B) (l : list A) :
  concat (map (fun x => [f x]) l) = map f l.
Proof. induction l as [| x l IH]; cbn; congruence. Qed.

Lemma CapabilitiesConfig_flags_eq (c : CapabilitiesConfig) :
  CapabilitiesConfig_flags c
  = ("bypass=" +:+ fmt_bool (Bypass c))
    :: map (String.append "add=") (CapabilitiesConfig_Add c)
    ++ map (String.append "drop=") (CapabilitiesConfig_Drop c).
Proof.
  unfold CapabilitiesConfig_flags.
  rewrite !fold_left_append.
  rewrite (concat_singletons (String.append "add=")).
  rewrite (concat_singletons (String.append "drop=")).
  reflexivity.
Qed.

Lemma append_prefix_inj (p x y : string) : p +:+ x = p +:+ y -> x = y.
Proof.
  induction p as [| a p IH]; cbn; [trivial |].
  intros H. injection H as H. now apply IH.
Qed.

Lemma add_drop_flags_inj (a1 : list string) :
  forall a2 d1 d2 : list string,
    map (String.append "add=") a1 ++ map (String.append "drop=") d1
    = map (String.append "add=") a2 ++ map (String.append "drop=") d2 ->
    a1 = a2 /\ d1 = d2.
Proof.
  induction a1 as [| x a1 IH]; intros [| y a2] d1 d2 H; cbn in H.
  - split; [reflexivity |].
    revert d2 H. induction d1 as [| u d1 IHd]; intros [| v d2] H;
      cbn in H; try discriminate; [reflexivity |].
    injection H as Hu H. apply (append_prefix_inj EmptyString) in Hu.
    f_equal; [exact Hu | now apply IHd].
  - destruct d1; cbn in H; discriminate.
  - destruct d2; cbn in H; discriminate.
  - injection H as Hx H. apply (append_prefix_inj EmptyString) in Hx.
    destruct (IH a2 d1 d2 H) as [-> ->].
    now subst.
Qed.

(** X30: the flags of a capabilities configuration lose nothing: the
    list has one flag for the bypass setting and one for each capability
    to add and to drop, and two configurations with the same flags are
    the same configuration (a nil list and an empty one are not told
    apart). *)
Theorem CapabilitiesConfig_flags_injective (c1 c2 : CapabilitiesConfig) :
  length (CapabilitiesConfig_flags c1)
  = (1 + length (CapabilitiesConfig_Add c1)
     + length (CapabilitiesConfig_Drop c1))%nat /\
  (CapabilitiesConfig_flags c1 = CapabilitiesConfig_flags c2 -> c1 = c2).
Proof.
  rewrite !CapabilitiesConfig_flags_eq. split.
  - cbn [length]. rewrite length_app, !length_map. lia.
  - intros H. injection H as Hb H.
    apply add_drop_flags_inj in H as [Ha Hd].
    destruct c1 as [b1 a1 d1], c2 as [b2 a2 d2]; cbn in *.
    subst. f_equal. apply append_prefix_inj in Hb.
    destruct b1, b2; cbv in Hb; congruence.
Qed.

End Flags.


(** ** The further decoders at concrete inputs *)
Section FurtherDecoderWitnesses.
Import bufferdecoder bufferdecoder_ext.

Lemma DecodeBytes_spec_witness :
  in_bounds examples.decoder_seven_left /\ 0 <= 3 /\
  DecodeBytes examples.decoder_seven_left (examples.bytes_of [0; 0; 0]) 3
  = Return None (set_cursor examples.decoder_seven_left 4,
                 examples.bytes_of [2; 3; 4]).
Proof.
  assert (H : in_bounds examples.decoder_seven_left)
    by (unfold in_bounds; vm_compute; split; discriminate).
  assert (H0 : 0 <= 3) by lia.
  split; [exact H |]. split; [exact H0 |].
  destruct (DecodeBytes_spec examples.decoder_seven_left
              (examples.bytes_of [0; 0; 0]) 3 H H0) as [_ Hfits].
  destruct Hfits as [Hrun Hcopy]; [vm_compute; discriminate |].
  rewrite Hrun, Hcopy by reflexivity. vm_compute. reflexivity.
Defined.

Lemma negative_size_panics_witness :
  in_bounds examples.decoder_seven_left /\ -1 < 0 /\
  DecodeBytes examples.decoder_seven_left [] (-1) = Panicked /\
  ReadBytesLen 4096 examples.decoder_seven_left (-1) = None.
Proof.
  assert (H : in_bounds examples.decoder_seven_left)
    by (unfold in_bounds; vm_compute; split; discriminate).
  assert (H0 : -1 < 0) by lia.
  split; [exact H |]. split; [exact H0 |].
  exact (negative_size_panics 4096 examples.decoder_seven_left [] (-1) H H0).
Defined.

Lemma ReadBytesLen_spec_witness :
  in_bounds examples.decoder_seven_left /\ 0 <= 3 <= 4096 /\
  ReadBytesLen 4096 examples.decoder_seven_left 3
  = Some (set_cursor examples.decoder_seven_left 4,
          Some (examples.bytes_of [2; 3; 4]), None).
Proof.
  assert (H : in_bounds examples.decoder_seven_left)
    by (unfold in_bounds; vm_compute; split; discriminate).
  assert (H0 : 0 <= 3 <= 4096) by lia.
  split; [exact H |]. split; [exact H0 |].
  rewrite (ReadBytesLen_spec 4096 examples.decoder_seven_left 3 H H0).
  vm_compute. reflexivity.
Defined.

Lemma DecodeInt32Array_spec_witness :
  in_bounds examples.decoder_seven_left /\ 0 <= 1 /\ 4 * 1 <= max_int /\
  DecodeInt32Array examples.decoder_seven_left [0; -1] 1
  = Return None (set_cursor examples.decoder_seven_left 5, [84148994; -1]) /\
  DecodeInt32Array examples.decoder_seven_left [0; -1] 2
  = Return (Some (ErrBufferTooShort 8 7 "[]int32"))
      (examples.decoder_seven_left, [0; -1]).
Proof.
  assert (H : in_bounds examples.decoder_seven_left)
    by (unfold in_bounds; vm_compute; split; discriminate).
  assert (H0 : 0 <= 1) by lia.
  assert (H1 : 4 * 1 <= max_int) by (vm_compute; discriminate).
  split; [exact H |]. split; [exact H0 |]. split; [exact H1 |].
  split.
  - destruct (DecodeInt32Array_spec examples.decoder_seven_left [0; -1] 1
                H H0 H1) as [_ Hfits].
    rewrite Hfits by (vm_compute; discriminate). vm_compute. reflexivity.
  - destruct (DecodeInt32Array_spec examples.decoder_seven_left [0; -1] 2
                H) as [Hshort _]; try (vm_compute; discriminate).
    rewrite Hshort by (vm_compute; reflexivity). vm_compute. reflexivity.
Defined.

Lemma DecodeInt32Array_short_destination_witness :
  in_bounds examples.decoder_seven_left /\ 0 <= 1 /\ 4 * 1 <= max_int /\
  4 * 1 <= remaining examples.decoder_seven_left /\ len (@nil Z) < 1 /\
  DecodeInt32Array examples.decoder_seven_left [] 1 = Panicked.
Proof.
  assert (H : in_bounds examples.decoder_seven_left)
    by (unfold in_bounds; vm_compute; split; discriminate).
  assert (H0 : 0 <= 1) by lia.
  assert (H1 : 4 * 1 <= max_int) by (vm_compute; discriminate).
  assert (H2 : 4 * 1 <= remaining examples.decoder_seven_left)
    by (vm_compute; discriminate).
  assert (H3 : len (@nil Z) < 1) by (vm_compute; reflexivity).
  split; [exact H |]. split; [exact H0 |]. split; [exact H1 |].
  split; [exact H2 |]. split; [exact H3 |].
  exact (DecodeInt32Array_short_destination examples.decoder_seven_left []
           1 H H0 H1 H2 H3).
Defined.

Lemma DecodeUint64Array_complete_witness :
  in_bounds ext_examples.decoder_full_array /\
  2 <= remaining ext_examples.decoder_full_array /\
  DecodeUint64Array ext_examples.decoder_full_array [5]
  = Return None (set_cursor ext_examples.decoder_full_array 18, [5; 1; 256]).
Proof.
  assert (H : in_bounds ext_examples.decoder_full_array)
    by (unfold in_bounds; vm_compute; split; discriminate).
  assert (H0 : 2 <= remaining ext_examples.decoder_full_array)
    by (vm_compute; discriminate).
  split; [exact H |]. split; [exact H0 |].
  rewrite (DecodeUint64Array_complete ext_examples.decoder_full_array [5]
             H H0) by (vm_compute; discriminate).
  vm_compute. reflexivity.
Defined.

Lemma DecodeUint64Array_no_count_witness :
  in_bounds ext_examples.decoder_one_left /\
  remaining ext_examples.decoder_one_left < 2 /\
  DecodeUint64Array ext_examples.decoder_one_left [5]
  = Return (Some (ErrArrayCount (ErrBufferTooShort 2 1 "uint16")))
      (ext_examples.decoder_one_left, [5]).
Proof.
  assert (H : in_bounds ext_examples.decoder_one_left)
    by (unfold in_bounds; vm_compute; split; discriminate).
  assert (H0 : remaining ext_examples.decoder_one_left < 2)
    by (vm_compute; reflexivity).
  split; [exact H |]. split; [exact H0 |].
  rewrite (DecodeUint64Array_no_count ext_examples.decoder_one_left [5]
             H H0).
  vm_compute. reflexivity.
Defined.

Lemma decoders_advance_witness :
  in_bounds examples.decoder_short_array /\
  returns (fun s => advanced examples.decoder_short_array s.1)
    (DecodeUint64Array examples.decoder_short_array [5]) /\
  returns (fun s => advanced examples.decoder_short_array s.1)
    (DecodeUint64 examples.decoder_short_array 0).
Proof.
  assert (H : in_bounds examples.decoder_short_array)
    by (unfold in_bounds; vm_compute; split; discriminate).
  split; [exact H |].
  destruct (decoders_advance examples.decoder_short_array H)
    as (_ & _ & _ & _ & _ & _ & _ & _ & H64 & _ & _ & _ & Harr & _).
  split; [apply Harr | apply H64].
Defined.

Lemma DecodeUint64_as_two_DecodeUint32_witness :
  in_bounds ext_examples.decoder_full_array /\
  8 <= remaining ext_examples.decoder_full_array /\
  exists lo hi d1 d2,
    DecodeUint32 ext_examples.decoder_full_array 0 = Return None (d1, lo) /\
    DecodeUint32 d1 0 = Return None (d2, hi) /\
    DecodeUint64 ext_examples.decoder_full_array 0
    = Return None (d2, lo + 2 ^ 32 * hi).
Proof.
  assert (H : in_bounds ext_examples.decoder_full_array)
    by (unfold in_bounds; vm_compute; split; discriminate).
  assert (H0 : 8 <= remaining ext_examples.decoder_full_array)
    by (vm_compute; discriminate).
  split; [exact H |]. split; [exact H0 |].
  exact (DecodeUint64_as_two_DecodeUint32 ext_examples.decoder_full_array
           0 0 0 H H0).
Defined.

Lemma big_endian_is_byte_swap_witness :
  in_bounds examples.decoder_seven_left /\
  2 <= remaining examples.decoder_seven_left /\
  exists d' le,
    DecodeUint16 examples.decoder_seven_left 0 = Return None (d', le) /\
    DecodeUint16BigEndian examples.decoder_seven_left 0
    = Return None (d', 256 * (le mod 256) + le / 256).
Proof.
  assert (H : in_bounds examples.decoder_seven_left)
    by (unfold in_bounds; vm_compute; split; discriminate).
  assert (H0 : 2 <= remaining examples.decoder_seven_left)
    by (vm_compute; discriminate).
  split; [exact H |]. split; [exact H0 |].
  exact (proj1 (big_endian_is_byte_swap examples.decoder_seven_left 0 H) H0).
Defined.

Lemma decoded_values_fit_their_types_witness :
  DecodeInt8 (set_cursor examples.decoder_at_header 3) 0
  = Return None (set_cursor examples.decoder_at_header 4, 7) /\
  - 2 ^ 7 <= 7 < 2 ^ 7.
Proof.
  assert (H : DecodeInt8 (set_cursor examples.decoder_at_header 3) 0
              = Return None (set_cursor examples.decoder_at_header 4, 7))
    by (vm_compute; reflexivity).
  split; [exact H |].
  exact (proj1 (proj2 (decoded_values_fit_their_types _ _ 0 7)) H).
Defined.

Lemma MoveCursor_forward_and_back_witness :
  in_bounds examples.decoder_seven_left /\
  len (buffer examples.decoder_seven_left) <= max_int /\
  0 <= 3 <= remaining examples.decoder_seven_left /\
  MoveCursor examples.decoder_seven_left 3
  = (set_cursor examples.decoder_seven_left 4, 4) /\
  MoveCursor (set_cursor examples.decoder_seven_left 4) (-3)
  = (examples.decoder_seven_left, 1).
Proof.
  assert (H : in_bounds examples.decoder_seven_left)
    by (unfold in_bounds; vm_compute; split; discriminate).
  assert (H0 : len (buffer examples.decoder_seven_left) <= max_int)
    by (vm_compute; discriminate).
  assert (H1 : 0 <= 3 <= remaining examples.decoder_seven_left)
    by (vm_compute; split; discriminate).
  split; [exact H |]. split; [exact H0 |]. split; [exact H1 |].
  destruct (MoveCursor_forward_and_back examples.decoder_seven_left 3
              H H0 H1) as (Hfwd & _ & _ & _ & Hback).
  split; [exact Hfwd |]. rewrite Hfwd in Hback. exact Hback.
Defined.

Lemma DecodeSlimCred_spec_witness :
  in_bounds examples.decoder_at_header /\
  80 <= remaining examples.decoder_at_header /\
  DecodeSlimCred (fun _ => 80) examples.decoder_at_header
    ext_examples.zeroSlimCred
  = Return None
      (set_cursor examples.decoder_at_header 82,
       slimCred_at (buffer examples.decoder_at_header) 2) /\
  in_bounds examples.decoder_seven_left /\
  DecodeSlimCred (fun _ => 80) examples.decoder_seven_left
    ext_examples.zeroSlimCred
  = Return (Some (ErrBufferTooShort 80 7 "slimCred"))
      (examples.decoder_seven_left, ext_examples.zeroSlimCred).
Proof.
  assert (H : in_bounds examples.decoder_at_header)
    by (unfold in_bounds; vm_compute; split; discriminate).
  assert (H0 : 80 <= remaining examples.decoder_at_header)
    by (vm_compute; discriminate).
  assert (H1 : in_bounds examples.decoder_seven_left)
    by (unfold in_bounds; vm_compute; split; discriminate).
  split; [exact H |]. split; [exact H0 |].
  split.
  { exact (proj2 (DecodeSlimCred_spec (fun _ => 80)
                    examples.decoder_at_header ext_examples.zeroSlimCred H)
             H0). }
  split; [exact H1 |].
  refine (proj1 (DecodeSlimCred_spec (fun _ => 80)
                   examples.decoder_seven_left ext_examples.zeroSlimCred H1)
            _).
  vm_compute. reflexivity.
Defined.

Lemma DecodeChunkMeta_spec_witness :
  in_bounds examples.decoder_at_header /\
  length (ChunkMeta_Metadata ext_examples.zeroChunkMeta) = 28%nat /\
  49 <= 49 /\
  DecodeChunkMeta (fun _ => 49) examples.decoder_at_header
    ext_examples.zeroChunkMeta
  = Return None
      (set_cursor examples.decoder_at_header 51,
       chunkMeta_at (buffer examples.decoder_at_header) 2).
Proof.
  assert (H : in_bounds examples.decoder_at_header)
    by (unfold in_bounds; vm_compute; split; discriminate).
  assert (H0 : 49 <= 49) by lia.
  split; [exact H |]. split; [reflexivity |]. split; [exact H0 |].
  refine (proj2 (DecodeChunkMeta_spec (fun _ => 49)
                   examples.decoder_at_header ext_examples.zeroChunkMeta
                   H eq_refl H0) _).
  vm_compute. discriminate.
Defined.

Lemma small_metadata_decoders_witness :
  in_bounds ext_examples.decoder_at_record /\
  DecodeVfsFileMeta (fun _ => 20) ext_examples.decoder_at_record
    ext_examples.zeroVfsFileMeta
  = Return None
      (set_cursor ext_examples.decoder_at_record 21,
       {| VfsFileMeta_DevID := 67305985;
          VfsFileMeta_Inode := 867798387104613893;
          VfsFileMeta_Mode := 269422093;
          VfsFileMeta_Pid := 336794129 |}) /\
  DecodeBpfObjectMeta (fun _ => 28) ext_examples.decoder_at_record
    ext_examples.zeroBpfObjectMeta
  = Return (Some (ErrBufferTooShort 28 20 "bpfObjectMeta"))
      (ext_examples.decoder_at_record, ext_examples.zeroBpfObjectMeta).
Proof.
  assert (H : in_bounds ext_examples.decoder_at_record)
    by (unfold in_bounds; vm_compute; split; discriminate).
  split; [exact H |].
  destruct (small_metadata_decoders ext_examples.decoder_at_record
              (fun _ => 20) ext_examples.zeroVfsFileMeta
              (fun _ => 20) ext_examples.zeroKernelModuleMeta
              (fun _ => 28) ext_examples.zeroBpfObjectMeta
              (fun _ => 12) ext_examples.zeroMprotectWriteMeta H)
    as (Hvfs & _ & Hbpf & _).
  assert (H20 : 20 <= 20) by lia.
  assert (H28 : 28 <= 28) by lia.
  split.
  - etrans; [exact (Hvfs H20) |]. vm_compute. reflexivity.
  - etrans; [exact (Hbpf H28 eq_refl) |]. vm_compute. reflexivity.
Defined.

End FurtherDecoderWitnesses.

(** ** Assembly, derivation and the argument helpers at concrete inputs *)
Section FurtherAssemblyWitnesses.
Import bufferdecoder assembly.

Lemma DecodeArguments_assembles_witness :
  reads_in_range (length examples.three_fields)
    (reads examples.readArgFromBuff (Z.to_nat 2) 0
       ext_examples.decoder_repeated_arg examples.three_fields) = true /\
  exists d' args,
    DecodeArguments examples.readArgFromBuff
      ext_examples.decoder_repeated_arg
      (replicate (length examples.three_fields) trace.zeroArgument) 2
      examples.three_fields "openat" 0
    = Return None (d', args) /\
    length args = 3%nat /\
    args !! 2%nat
    = Some {| trace.Argument_ArgMeta :=
                {| trace.Name := "flags"; trace.Type_ := "int" |};
              trace.Value := any_int 9 |}.
Proof.
  assert (H : reads_in_range (length examples.three_fields)
                (reads examples.readArgFromBuff (Z.to_nat 2) 0
                   ext_examples.decoder_repeated_arg examples.three_fields)
              = true) by (vm_compute; reflexivity).
  split; [exact H |].
  destruct (DecodeArguments_assembles examples.readArgFromBuff
              ext_examples.decoder_repeated_arg 2 examples.three_fields
              "openat" 0 H) as (d' & args & Hrun & Hlen & Hslots).
  exists d', args. split; [exact Hrun |]. split; [exact Hlen |].
  exact (Hslots 2%nat _ eq_refl).
Defined.

Lemma DecodeArguments_out_of_range_witness :
  (length (@nil trace.Argument) < length examples.three_fields)%nat /\
  DecodeArguments examples.readArgFromBuff examples.decoder_two_args
    [] 0 examples.three_fields "openat" 0 = Panicked.
Proof.
  assert (H : (length (@nil trace.Argument)
               < length examples.three_fields)%nat) by (cbn; lia).
  split; [exact H |].
  exact (proj1 (DecodeArguments_out_of_range examples.readArgFromBuff
                  examples.decoder_two_args [] 0 examples.three_fields
                  "openat" 0) H).
Defined.

End FurtherAssemblyWitnesses.

Section FurtherDeriveWitnesses.
Import derive derive_examples events_args.

Lemma DeriveEvent_no_rules_witness :
  mockDerivationTable !! int_to_int32 (EventID getTestEvent) = None /\
  DeriveEvent mockDerivationTable getTestEvent test_heap
    (Some (([], []), test_heap)).
Proof.
  assert (H : mockDerivationTable !! int_to_int32 (EventID getTestEvent)
              = None) by (vm_compute; reflexivity).
  split; [exact H |].
  exact (proj2 (DeriveEvent_no_rules mockDerivationTable getTestEvent
                  test_heap _ H) eq_refl).
Defined.

Lemma DeriveEvent_skips_disabled_witness :
  (forall id e,
     deriveFns ext_examples.switchedOffTable testEvent !! id = Some e ->
     Enabled e tt = false) /\
  forall res,
    DeriveEvent ext_examples.switchedOffTable testEvent test_heap res ->
    res = Some (([], []), test_heap).
Proof.
  assert (H : forall id e,
             deriveFns ext_examples.switchedOffTable testEvent !! id = Some e ->
             Enabled e tt = false).
  { intros id e. unfold deriveFns, ext_examples.switchedOffTable.
    change (int_to_int32 (EventID testEvent)) with testEventID.
    rewrite lookup_total_singleton. intros He.
    apply lookup_singleton_Some in He as [_ <-]. reflexivity. }
  split; [exact H |].
  exact (proj2 (DeriveEvent_skips_disabled ext_examples.switchedOffTable
                  testEvent test_heap) H).
Defined.

Lemma Register_then_DeriveEvent_witness :
  (∅ : Table) !! testEventID = None /\
  int_to_int32 (EventID testEvent) = testEventID /\
  DeriveEvent
    (Register ∅ testEventID deriveEventID (fun _ => true)
       (entry_DeriveFunction alwaysDeriveError)).1
    testEvent test_heap
    (Some (([], [deriveError deriveEventID (errors_New "derive error")]),
           test_heap)).
Proof.
  assert (H : (∅ : Table) !! testEventID = None) by apply lookup_empty.
  assert (H0 : int_to_int32 (EventID testEvent) = testEventID)
    by reflexivity.
  split; [exact H |]. split; [exact H0 |].
  exact (proj2 (Register_then_DeriveEvent ∅ testEventID deriveEventID
                  (fun _ => true) (entry_DeriveFunction alwaysDeriveError)
                  testEvent test_heap _ H H0) eq_refl).
Defined.

Lemma deriveMultipleEvents_every_tuple_witness :
  wrong_then_right getTestEvent test_heap
  = Some ((Some [[any_int 1; any_int 2; any_int 3]; [any_int 1; any_int 2]],
           []), test_heap) /\
  exists evs h2,
    deriveMultipleEvents getEventDefinition 0 wrong_then_right getTestEvent
      test_heap
    = Some ((evs, [unexpectedArgCountError "test_event" 2 3]), h2) /\
    map Args evs = [schema_args two_int_fields [any_int 1; any_int 2]].
Proof.
  assert (H : wrong_then_right getTestEvent test_heap
              = Some ((Some [[any_int 1; any_int 2; any_int 3];
                             [any_int 1; any_int 2]], []), test_heap))
    by reflexivity.
  split; [exact H |].
  destruct (deriveMultipleEvents_every_tuple getEventDefinition 0
              wrong_then_right getTestEvent test_heap test_heap _ _ H)
    as (evs & h2 & Hrun & Hargs & _).
  exists evs, h2. split; [exact Hrun | exact Hargs].
Defined.

Lemma deriveSingleEvent_cases_witness :
  ext_examples.values_and_error getTestEvent test_heap
  = Some ((Some [any_int 1; any_int 2], Some (errors_New "partial")),
          test_heap) /\
  exists de h2,
    deriveSingleEvent getEventDefinition 0 ext_examples.values_and_error
      getTestEvent test_heap
    = Some (([de], [errors_New "partial"]), h2).
Proof.
  assert (H : ext_examples.values_and_error getTestEvent test_heap
              = Some ((Some [any_int 1; any_int 2],
                       Some (errors_New "partial")), test_heap))
    by reflexivity.
  split; [exact H |].
  destruct (deriveSingleEvent_cases getEventDefinition 0
              ext_examples.values_and_error getTestEvent test_heap
              test_heap _ _ H) as (de & h2 & _ & Hrun).
  exists de, h2. exact Hrun.
Defined.

Lemma derived_events_own_their_policies_witness :
  wrong_then_right getTestEvent test_heap
  = Some ((Some [[any_int 1; any_int 2; any_int 3]; [any_int 1; any_int 2]],
           []), test_heap) /\
  MatchedPolicies getTestEvent = Some 1%positive /\
  is_Some (test_heap !! 1%positive) /\
  exists evs errs' h2,
    deriveMultipleEvents getEventDefinition 0 wrong_then_right getTestEvent
      test_heap = Some ((evs, errs'), h2) /\
    h2 !! 1%positive = Some ["policy-a"; "policy-b"]%string /\
    Forall (fun de => exists l', MatchedPolicies de = Some l' /\
                                 test_heap !! l' = None /\
                                 h2 !! l' = test_heap !! 1%positive) evs.
Proof.
  assert (H : wrong_then_right getTestEvent test_heap
              = Some ((Some [[any_int 1; any_int 2; any_int 3];
                             [any_int 1; any_int 2]], []), test_heap))
    by reflexivity.
  assert (H0 : MatchedPolicies getTestEvent = Some 1%positive)
    by reflexivity.
  assert (H1 : is_Some (test_heap !! 1%positive))
    by (exists ["policy-a"; "policy-b"]%string; reflexivity).
  split; [exact H |]. split; [exact H0 |]. split; [exact H1 |].
  destruct (derived_events_own_their_policies getEventDefinition 0
              wrong_then_right getTestEvent test_heap test_heap _ _
              1%positive H H0 H1)
    as (evs & errs' & h2 & Hrun & Hkeep & Hown & _).
  exists evs, errs', h2. split; [exact Hrun |].
  split; [rewrite (Hkeep _ H1); reflexivity | exact Hown].
Defined.

Lemma SetArgValue_spec_witness :
  GetArg (Args getTestEvent) "test-arg" = Some 0%nat /\
  GetArg (Args getTestEvent) "missing" = None /\
  (SetArgValue getTestEvent "test-arg" (any_string "new")).2 = None /\
  trace.Value
    <$> Args (SetArgValue getTestEvent "test-arg" (any_string "new")).1
        !! 0%nat
  = Some (any_string "new") /\
  SetArgValue getTestEvent "missing" (any_string "new")
  = (getTestEvent, Some (ErrNoArgumentNamed "test_event" "missing")).
Proof.
  assert (H : GetArg (Args getTestEvent) "test-arg" = Some 0%nat)
    by reflexivity.
  assert (H0 : GetArg (Args getTestEvent) "missing" = None) by reflexivity.
  split; [exact H |]. split; [exact H0 |].
  destruct (SetArgValue_spec getTestEvent "test-arg" (any_string "new"))
    as [_ Hset].
  destruct (Hset 0%nat H) as (Herr & _ & Hval & _).
  split; [exact Herr |]. split; [exact Hval |].
  exact (proj1 (SetArgValue_spec getTestEvent "missing" (any_string "new"))
           H0).
Defined.

Lemma NormalizeTimeArgs_converts_witness :
  NoDup ["ts"; "start"]%string /\
  time_args_ok ext_examples.time_args ["ts"; "start"]%string = true /\
  exists args',
    NormalizeTimeArgs ext_examples.bootPlus ext_examples.time_args
      ["ts"; "start"]%string = (args', None) /\
    trace.Value <$> args' !! 0%nat = Some (any_uint64 1005) /\
    trace.Value <$> args' !! 2%nat = Some (any_uint64 7) /\
    trace.Value <$> args' !! 3%nat = Some any_nil.
Proof.
  assert (H : NoDup ["ts"; "start"]%string).
  { apply NoDup_cons. split.
    - intros Hin. apply list_elem_of_In in Hin.
      destruct Hin as [Hin | []]; discriminate Hin.
    - apply NoDup_singleton. }
  assert (H0 : time_args_ok ext_examples.time_args ["ts"; "start"]%string
               = true) by reflexivity.
  split; [exact H |]. split; [exact H0 |].
  destruct (NormalizeTimeArgs_converts ext_examples.bootPlus
              ["ts"; "start"]%string ext_examples.time_args H H0)
    as (args' & Hrun & _ & Hat).
  exists args'. split; [exact Hrun |].
  split; [| split].
  - rewrite (Hat 0%nat _ eq_refl). rewrite decide_True; [reflexivity |].
    split; [left | reflexivity].
  - rewrite (Hat 2%nat _ eq_refl). rewrite decide_False; [reflexivity |].
    intros [_ Hidx]. discriminate Hidx.
  - rewrite (Hat 3%nat _ eq_refl). rewrite decide_True; [reflexivity |].
    split; [right; left | reflexivity].
Defined.

Lemma NormalizeTimeArgs_keeps_metadata_witness :
  (forall t, trace.Value
               {| trace.Argument_ArgMeta :=
                    {| trace.Name := "pid"; trace.Type_ := "int" |};
                  trace.Value := any_int 3 |} <> any_uint64 t) /\
  (NormalizeTimeArgs ext_examples.bootPlus ext_examples.time_args
     ["ts"; "pid"]%string).2
  = Some (ErrNotUint64 "pid" (any_int 3)) /\
  (NormalizeTimeArgs ext_examples.bootPlus ext_examples.time_args
     ["ts"; "pid"]%string).1 !! 1%nat
  = Some {| trace.Argument_ArgMeta :=
              {| trace.Name := "pid"; trace.Type_ := "int" |};
            trace.Value := any_int 3 |}.
Proof.
  assert (H : forall t,
             trace.Value
               {| trace.Argument_ArgMeta :=
                    {| trace.Name := "pid"; trace.Type_ := "int" |};
                  trace.Value := any_int 3 |} <> any_uint64 t)
    by (intros t; discriminate).
  split; [exact H |]. split; [reflexivity |].
  exact (proj2 (NormalizeTimeArgs_keeps_metadata ext_examples.bootPlus
                  ["ts"; "pid"]%string ext_examples.time_args)
           1%nat _ eq_refl H).
Defined.

End FurtherDeriveWitnesses.

Section FlagsWitnesses.
Import cobra.

Lemma ContainerConfig_flags_spec_witness :
  ContainerConfig_flags sample_containers
  = ["enrich=true"; "cgroupfs.path=/sys/fs/cgroup";
     "sockets.docker=/var/run/docker.sock";
     "sockets.podman=/run/podman.sock"]%string.
Proof.
  rewrite (proj1 (ContainerConfig_flags_spec sample_containers)).
  vm_compute. reflexivity.
Defined.

Lemma CapabilitiesConfig_flags_injective_witness :
  CapabilitiesConfig_flags
    {| Bypass := false; CapabilitiesConfig_Add := ["CAP_SYS_ADMIN"];
       CapabilitiesConfig_Drop := ["CAP_NET_RAW"; "CAP_CHOWN"] |}
  = ["bypass=false"; "add=CAP_SYS_ADMIN"; "drop=CAP_NET_RAW";
     "drop=CAP_CHOWN"]%string /\
  {| Bypass := false; CapabilitiesConfig_Add := ["CAP_SYS_ADMIN"];
     CapabilitiesConfig_Drop := ["CAP_NET_RAW"; "CAP_CHOWN"] |}
  = {| Bypass := false; CapabilitiesConfig_Add := ["CAP_SYS_ADMIN"];
       CapabilitiesConfig_Drop := ["CAP_NET_RAW"; "CAP_CHOWN"] |}.
Proof.
  assert (H : CapabilitiesConfig_flags
                {| Bypass := false; CapabilitiesConfig_Add := ["CAP_SYS_ADMIN"];
                   CapabilitiesConfig_Drop := ["CAP_NET_RAW"; "CAP_CHOWN"] |}
              = ["bypass=false"; "add=CAP_SYS_ADMIN"; "drop=CAP_NET_RAW";
                 "drop=CAP_CHOWN"]%string) by reflexivity.
  split; [exact H |].
  exact (proj2 (CapabilitiesConfig_flags_injective _ _) eq_refl).
Defined.

End FlagsWitnesses.
